(** * Dose-Invariant Susceptibility Estimator

    A shallow embedding of the two model files of the estimator,
    [lib/timeEst.py] and [lib/timeTestHom.py]: the likelihood terms and the
    monotonicity potentials that make up the target distribution, the
    posterior summarizer ([calcPosterior] and [__calc__]), the recorded
    parameter names, the plot wrappers, and the functions that set a model
    up ([initializeModel], [savedModel]).

    Numbers are [numpy.float64] values, modelled by Rocq's primitive binary64
    floats, so NaN, the infinities and the signed zeros behave as they do in
    the program.  Python exceptions are an explicit error result.  Library
    functions that are not part of the repository ([numpy.log], [**],
    [scipy.stats.gamma.cdf], and the helpers of [lib/utils.py]) are section
    variables; what is assumed about them is stated where it is used.

    The file has two parts: the definitions, then the facts proved about
    them. *)

From Stdlib Require Import ZArith List Lia Bool Floats.
From Stdlib Require Uint63.
From stdpp Require Import gmap strings list pretty.

Set Warnings "-inexact-float".

(** * Part I: the program *)

(** ** Python results and exceptions *)

Module Py.

Inductive exn : Set :=
| TypeError
| KeyError
| IndexError
| NameError
| ValueError
| IOError.

Inductive result (A : Type) : Type :=
| Ok (a : A)
| Raise (e : exn).

Arguments Ok {A} a.
Arguments Raise {A} e.

Definition bind {A B : Type} (m : result A) (k : A -> result B) : result B :=
  match m with
  | Ok a => k a
  | Raise e => Raise e
  end.

Definition of_option {A : Type} (e : exn) (o : option A) : result A :=
  match o with
  | Some a => Ok a
  | None => Raise e
  end.

Definition is_ok {A : Type} (m : result A) : bool :=
  match m with
  | Ok _ => true
  | Raise _ => false
  end.

(** [for x in xs: f x], collecting the results, stopping at the first
    exception. *)
Fixpoint for_each {A B : Type} (f : A -> result B) (xs : list A) : result (list B) :=
  match xs with
  | [] => Ok []
  | x :: t => bind (f x) (fun y => bind (for_each f t) (fun ys => Ok (y :: ys)))
  end.

(** The builtin [max] of a sequence: the first element is kept until a
    strictly greater one shows up; an empty sequence raises [ValueError]. *)
Definition max (xs : list float) : result float :=
  match xs with
  | [] => Raise ValueError
  | x :: t => Ok (fold_left (fun m y => if PrimFloat.ltb m y then y else m) t x)
  end.

(** The builtin [sum] of a list of floats: added to zero from the left. *)
Definition sum (xs : list float) : float := fold_left PrimFloat.add xs 0%float.

End Py.

Import Py.

Notation "'let*' x ':=' m 'in' k" := (Py.bind m (fun x => k))
  (at level 10, x name, m at level 100, k at level 200).

(** ** binary64 helpers *)

Module F64.

Local Open Scope float_scope.

(** The same IEEE value, the sign of a zero apart. *)
Definition same_value (x y : float) : Prop :=
  x = y \/ (is_zero x = true /\ is_zero y = true).

(** The class of a number with a given sign bit (so: not NaN). *)
Definition has_sign (s : bool) (x : spec_float) : Prop :=
  match x with
  | S754_zero s' | S754_infinity s' | S754_finite s' _ _ => s' = s
  | S754_nan => False
  end.

Definition nonpos (x : spec_float) : Prop := SFleb x (S754_zero false) = true.

(** Two outcomes that agree: the same exception, or the same value. *)
Definition same_result (r1 r2 : result float) : Prop :=
  match r1, r2 with
  | Ok a, Ok b => same_value a b
  | Raise e1, Raise e2 => e1 = e2
  | _, _ => False
  end.

(** An array index or a count as a float64 (exact below 2^53). *)
Definition of_nat (n : nat) : float := of_uint63 (Uint63.of_Z (Z.of_nat n)).

(** The integer ceiling of a float; NaN and the infinities have none. *)
Definition ceil (x : float) : result Z :=
  match Prim2SF x with
  | S754_zero _ => Ok 0%Z
  | S754_finite s m e =>
      let v := if s then Z.neg m else Z.pos m in
      Ok (if (0 <=? e)%Z then v * 2 ^ e else - ((- v) / 2 ^ (- e)))%Z
  | S754_infinity _ | S754_nan => Raise ValueError
  end.

End F64.

(** ** numpy arrays *)

Module Np.

Local Open Scope float_scope.

Section Slices.
Context {A : Type}.

(** Walk [xs] keeping one element, then skipping [k - 1]; [skip] is the number
    of elements still to skip before the next one is kept. *)
Fixpoint stride (k skip : nat) (xs : list A) : list A :=
  match xs with
  | [] => []
  | x :: t =>
      match skip with
      | O => x :: stride k (k - 1) t
      | S s => stride k s t
      end
  end.

(** [xs[start:None:step]].  A zero step raises [ValueError]; a negative start
    counts from the end; a start past the end gives the empty array; a
    negative step walks from [start] down to the first element. *)
Definition slice_from (start step : Z) (xs : list A) : result (list A) :=
  let n := Z.of_nat (length xs) in
  if (step =? 0)%Z then Raise ValueError
  else if (0 <? step)%Z then
    let lo := if (start <? 0)%Z then Z.max (start + n) 0 else Z.min start n in
    Ok (stride (Z.to_nat step) 0 (drop (Z.to_nat lo) xs))
  else
    let hi := if (start <? 0)%Z then Z.max (start + n) (-1) else Z.min start (n - 1) in
    Ok (stride (Z.to_nat (- step)) 0 (rev (take (Z.to_nat (hi + 1)) xs))).

End Slices.

(** [a.sum()] of a one-dimensional array: the elements are accumulated from
    zero in index order (numpy's blocked summation changes the rounding
    only). *)
Definition sum (xs : list float) : float := fold_left add xs 0.

(** [a[value]]: indexing an array by an array of positions. *)
Definition index_array (xs : list float) (value : list nat) : result (list float) :=
  for_each (fun j => of_option IndexError (xs !! j)) value.

(** [np.arange(start, stop, step)] on floats: [ceil((stop - start)/step)]
    elements; the first two are [start] and [start + step], and element [i] is
    [start + i * delta] with [delta] the difference of the first two. *)
Definition arange (start stop step : float) : result (list float) :=
  let* n := F64.ceil ((stop - start) / step) in
  let delta := (start + step) - start in
  Ok (map (fun i => match i with
                    | O => start
                    | S O => start + step
                    | _ => start + F64.of_nat i * delta
                    end)
          (seq 0 (Z.to_nat n))).

(** Two-dimensional arrays, as lists of rows. *)
Abbreviation matrix := (list (list float)).

(** An operation taken element by element over two one-dimensional arrays,
    with numpy's broadcasting: the lengths agree, or one of the arrays has a
    single element, which is paired with every element of the other; any
    other pair of lengths raises [ValueError]. *)
Definition broadcast {A B C : Type} (f : A -> B -> C) (xs : list A) (ys : list B)
  : result (list C) :=
  if (length xs =? length ys)%nat then Ok (zip_with f xs ys)
  else match xs, ys with
       | [x], _ => Ok (map (f x) ys)
       | _, [y] => Ok (map (fun x => f x y) xs)
       | _, _ => Raise ValueError
       end.

(** The same over two-dimensional arrays: the rows are paired by the same
    rule, then the elements of each pair of rows.  (An array is the list of
    its rows, so an array without rows has no column count to compare.) *)
Definition broadcast2 (f : float -> float -> float) (A B : matrix) : result matrix :=
  let* rows := broadcast (broadcast f) A B in
  for_each (fun row => row) rows.

(** [c - M], [A * B] and [A - B]. *)
Definition scalar_sub (c : float) (M : matrix) : matrix := map (map (sub c)) M.
Definition mul (A B : matrix) : result matrix := broadcast2 PrimFloat.mul A B.
Definition sub (A B : matrix) : result matrix := broadcast2 PrimFloat.sub A B.

(** What an elementwise operation gives on two arrays of one shape. *)
Definition zip2 (f : float -> float -> float) (A B : matrix) : matrix :=
  zip_with (zip_with f) A B.

(** [M.T] *)
Fixpoint transpose (M : matrix) : matrix :=
  match M with
  | [] => []
  | r :: rs =>
      match rs with
      | [] => map (fun x => [x]) r
      | _ => zip_with cons r (transpose rs)
      end
  end.

(** [np.array([v.tolist()]*n).T]: one row per element of [v], that element
    repeated [n] times.  For [n = 0] the list [[v.tolist()]*0] is empty and
    the array has the one-dimensional shape [(0,)], which broadcasts as a
    single row without elements. *)
Definition tile_T (v : list float) (n : nat) : matrix :=
  match n with
  | O => [[]]
  | S _ => transpose (replicate n v)
  end.

(** [M[i][t]], when there is such an entry. *)
Definition entry (M : matrix) (i t : nat) : option float :=
  match M !! i with
  | Some row => row !! t
  | None => None
  end.

(** [M[:,1:] - M[:,:-1]]: differences of neighbouring columns. *)
Definition diff_columns (M : matrix) : matrix :=
  map (fun row => zip_with PrimFloat.sub (drop 1 row) (take (length row - 1) row)) M.

(** [M.shape == (rows, cols)] *)
Definition has_shape (M : matrix) (rows cols : nat) : Prop :=
  length M = rows /\ Forall (fun row => length row = cols) M.

End Np.

(** ** The likelihood terms ([likelihood_deaths], [likelihood_survivors])

    Lines 183-195 of timeEst.py and 129-141 of timeTestHom.py; the two files
    define the same two functions. *)

Module Likelihood.

Local Open Scope float_scope.

(** [(I/nf)*pI + (1-(I/nf))*pU] for one pair of probabilities. *)
Definition mixture (nf I pI pU : float) : float :=
  (I / nf) * pI + (1 - (I / nf)) * pU.

Section Terms.

(** [numpy.log], and [**] with an integer exponent. *)
Variable np_log : float -> float.
Variable np_power : float -> Z -> float.

(**
      def likelihood_deaths(value,nf,I,probdI,probdU):
          res=(I/nf)*probdI[value]+(1-(I/nf))*probdU[value]
          inf0=res<0
          if any(inf0):
              res[res<0]=0
          return np.log(res).sum()
*)
Definition likelihood_deaths (value : list nat) (nf I : float)
    (probdI probdU : list float) : result float :=
  let* dI := Np.index_array probdI value in
  let* dU := Np.index_array probdU value in
  let res := zip_with add (map (mul (I / nf)) dI) (map (mul (1 - (I / nf))) dU) in
  let inf0 := map (fun x => x <? 0) res in
  let res := if existsb id inf0
             then map (fun x => if x <? 0 then 0 else x) res
             else res in
  Ok (Np.sum (map np_log res)).

(**
      def likelihood_survivors(value,nf,I,probsI,probsU):
          res=((I/nf)*probsI+(1-(I/nf))*probsU)**value
          inf0=res<0
          if inf0:
              res=0
          return np.log(res)
*)
Definition likelihood_survivors (value : Z) (nf I probsI probsU : float) : float :=
  let res := np_power (mixture nf I probsI probsU) value in
  let inf0 := res <? 0 in
  let res := if inf0 then 0 else res in
  np_log res.

(** The mixture of interval [j], and the term the specification describes
    for it: the logarithm of the mixture with every value [<= 0] replaced
    by [0]. *)
Definition mixture_at (nf I : float) (probdI probdU : list float) (j : nat) : float :=
  mixture nf I (nth j probdI 0) (nth j probdU 0).

Definition floored_log (x : float) : float :=
  np_log (if x <=? 0 then 0 else x).

(** What is used of [numpy.log]: it is minus infinity at both zeros, and the
    logarithm of a probability is at most zero. *)
Definition log_of_zero : Prop :=
  forall z, is_zero z = true -> np_log z = neg_infinity.

Definition log_of_probability : Prop :=
  forall z, (0 <? z) = true -> (z <=? 1) = true -> (np_log z <=? 0) = true.

(** The survivor term as the specification words it: the mixture itself is
    floored at zero, then raised to the survivor count. *)
Definition likelihood_survivors_spec (value : Z) (nf I probsI probsU : float) : float :=
  let m := mixture nf I probsI probsU in
  np_log (np_power (if m <? 0 then 0 else m) value).

End Terms.

End Likelihood.

(** ** The target distribution ([Model.__init__] of timeEst.py,
       [Model.__lik_setup__] of timeTestHom.py) *)

Module Model.

Local Open Scope float_scope.

Inductive group : Set := G1 | G2.

(** The observations: the fields of the data object the models read, and the
    per-dose index arrays [iTd1], [iTd2] that [ut.changingTimes] returns for
    the two groups. *)
Record Data : Type := {
  doses : list float;
  ndoses : nat;
  nhosts1 : list float;
  nhosts2 : list float;
  survivors1 : list Z;
  survivors2 : list Z;
  times : list float;
  tmax : float;
  iTd1 : list (list nat);
  iTd2 : list (list nat)
}.

Definition nhosts (d : Data) (g : group) : list float :=
  match g with G1 => nhosts1 d | G2 => nhosts2 d end.

Definition survivors (d : Data) (g : group) : list Z :=
  match g with G1 => survivors1 d | G2 => survivors2 d end.

Definition iTd (d : Data) (g : group) : list (list nat) :=
  match g with G1 => iTd1 d | G2 => iTd2 d end.

(** The families of latent infected counts: [Ig1d%i], [Ig2d%i] in timeEst.py;
    [I1hom%i], [I1het%i], [I2hom%i], [I2het%i] in timeTestHom.py. *)
Inductive latent : Set := Ig1d | Ig2d | I1hom | I1het | I2hom | I2het.

Definition group_of (l : latent) : group :=
  match l with
  | Ig1d | I1hom | I1het => G1
  | Ig2d | I2hom | I2het => G2
  end.

(** The observed stochastics: [LD l i] is the death term of dose [i] whose
    parent [I] is the latent count [l] of that dose ([LD1_d%i] for [Ig1d],
    [LD1hom_d%i] for [I1hom], ...), [LS l i] the survivor term. *)
Inductive node : Set :=
| LD (l : latent) (i : nat)
| LS (l : latent) (i : nat).

(** The current values of the parents of the likelihood terms and of the
    potentials. *)
Record State : Type := {
  latentI : latent -> nat -> float;
  meanU : float;
  sU : float;
  meanI1 : float;
  sI1 : float;
  meanI2 : float;
  sI2 : float;
  probdU : list float;
  probdI1 : list float;
  probdI2 : list float;
  probsU : float;
  probsI1 : float;
  probsI2 : float
}.

(** [py.Lambda('tauU', lambda mean=m.meanU, s=m.sU: mean/s)] and its two
    siblings. *)
Definition tauU (st : State) : float := meanU st / sU st.
Definition tauI1 (st : State) : float := meanI1 st / sI1 st.
Definition tauI2 (st : State) : float := meanI2 st / sI2 st.

Definition probdI (st : State) (g : group) : list float :=
  match g with G1 => probdI1 st | G2 => probdI2 st end.

Definition probsI (st : State) (g : group) : float :=
  match g with G1 => probsI1 st | G2 => probsI2 st end.

(** [sum(d.doses==0)] and [range(0+sum(d.doses==0),len(d.doses))]. *)
Definition count_zero (ds : list float) : nat :=
  length (filter (fun x => (x =? 0) = true) ds).

Definition dose_range (d : Data) : list nat :=
  seq (count_zero (doses d)) (length (doses d) - count_zero (doses d)).

(** The terms one latent family contributes at dose [i]: the death term, and
    the survivor term [if d.survivors[i]>0]. *)
Definition block (d : Data) (l : latent) (i : nat) : result (list node) :=
  let* s := of_option IndexError (survivors d (group_of l) !! i) in
  Ok (LD l i :: (if (0 <? s)%Z then [LS l i] else [])).

(** [m.liks] of timeEst.py: per dose, the terms of group 1, then of group 2. *)
Definition timeEst_liks (d : Data) : result (list node) :=
  let* bs := for_each (fun i => let* b1 := block d Ig1d i in
                                let* b2 := block d Ig2d i in
                                Ok (b1 ++ b2))
                      (dose_range d) in
  Ok (concat bs).

(** [m.hom1liks] and its siblings of timeTestHom.py, and
    [m.liks=m.hom1liks+m.hom2liks+m.het1liks+m.het2liks]. *)
Definition submodel_liks (d : Data) (l : latent) : result (list node) :=
  let* bs := for_each (block d l) (dose_range d) in
  Ok (concat bs).

Definition timeTestHom_liks (d : Data) : result (list node) :=
  let* hom1 := submodel_liks d I1hom in
  let* hom2 := submodel_liks d I2hom in
  let* het1 := submodel_liks d I1het in
  let* het2 := submodel_liks d I2het in
  Ok (hom1 ++ hom2 ++ het1 ++ het2).

(** The same lists with the survivor term of every dose kept, whatever the
    survivor count: the aggregation the specification describes. *)
Definition full_block (l : latent) (i : nat) : list node := [LD l i; LS l i].

Definition timeEst_liks_full (d : Data) : list node :=
  flat_map (fun i => full_block Ig1d i ++ full_block Ig2d i) (dose_range d).

Definition timeTestHom_liks_full (d : Data) : list node :=
  flat_map (full_block I1hom) (dose_range d)
  ++ flat_map (full_block I2hom) (dose_range d)
  ++ flat_map (full_block I1het) (dose_range d)
  ++ flat_map (full_block I2het) (dose_range d).

(** The latent families of the two models. *)
Definition timeEst_families : list latent := [Ig1d; Ig2d].
Definition timeTestHom_families : list latent := [I1hom; I2hom; I1het; I2het].

(** The data contract: dose levels in ascending order, none negative; one
    host count and one survivor count per dose and group; survivor counts
    are counts. *)
Definition ascending (ds : list float) : Prop :=
  forall i j x y, (i <= j)%nat -> ds !! i = Some x -> ds !! j = Some y ->
                  (x <=? y) = true.

Definition non_negative (ds : list float) : Prop :=
  Forall (fun x => (0 <=? x) = true) ds.

Record well_formed (d : Data) : Prop := {
  wf_ascending : ascending (doses d);
  wf_non_negative : non_negative (doses d);
  wf_nhosts : forall g, length (nhosts d g) = length (doses d);
  wf_survivors : forall g, length (survivors d g) = length (doses d);
  wf_counts : forall g, Forall (fun s => (0 <= s)%Z) (survivors d g)
}.

(** [block] when dose [i] has a survivor count. *)
Definition blk (d : Data) (l : latent) (i : nat) : list node :=
  LD l i :: (if (0 <? nth i (survivors d (group_of l)) 0)%Z then [LS l i] else []).

(** A list that holds exactly the blocks of the families [ls] over the dose
    range. *)
Definition made_of_blocks (d : Data) (ls : list latent) (liks : list node) : Prop :=
  forall n, In n liks <-> exists l i, In l ls /\ In i (dose_range d) /\ In n (blk d l i).

(** [omits P xs ys]: [xs] is [ys] with some elements that satisfy [P] left
    out. *)
Inductive omits {A : Type} (P : A -> Prop) : list A -> list A -> Prop :=
| omits_nil : omits P [] []
| omits_keep x xs ys : omits P xs ys -> omits P (x :: xs) (x :: ys)
| omits_skip y xs ys : P y -> omits P xs ys -> omits P xs (y :: ys).

(** A survivor term of a dose at which nobody of the group survived. *)
Definition zero_survivor_term (d : Data) (n : node) : Prop :=
  exists l i, n = LS l i /\ survivors d (group_of l) !! i = Some 0%Z.

Section Target.

Variable np_log : float -> float.
Variable np_power : float -> Z -> float.
(** [st.gamma.cdf(x, a, loc=0, scale=scale)] as [gamma_cdf x a scale]. *)
Variable gamma_cdf : float -> float -> float -> float.

(** The log-probability of an observed stochastic at the current state: its
    [logp] function applied to its value and parents. *)
Definition node_logp (d : Data) (st : State) (n : node) : result float :=
  match n with
  | LD l i =>
      let g := group_of l in
      let* nf := of_option IndexError (nhosts d g !! i) in
      let* value := of_option IndexError (iTd d g !! i) in
      Likelihood.likelihood_deaths np_log value nf (latentI st l i)
        (probdI st g) (probdU st)
  | LS l i =>
      let g := group_of l in
      let* nf := of_option IndexError (nhosts d g !! i) in
      let* value := of_option IndexError (survivors d g !! i) in
      Ok (Likelihood.likelihood_survivors np_log np_power value nf (latentI st l i)
            (probsI st g) (probsU st))
  end.

(** [sum([getattr(m,l).logp for l in m.liks])] *)
Definition total_loglik (d : Data) (st : State) (liks : list node) : result float :=
  let* terms := for_each (node_logp d st) liks in
  Ok (Py.sum terms).

(**
      @py.potential
      def potIdeaths1(sI=m.sI1,tauI=m.tauI1, sU=m.sU,tauU=m.tauU):
          return 0.0 if st.gamma.cdf(max(d.times),sI,loc=0,scale=tauI)
                        >=st.gamma.cdf(max(d.times),sU,loc=0,scale=tauU) else -np.Inf
*)
Definition potIdeaths (d : Data) (sI tauI sU' tauU' : float) : result float :=
  let* tI := Py.max (times d) in
  let* tU := Py.max (times d) in
  Ok (if gamma_cdf tU sU' tauU' <=? gamma_cdf tI sI tauI then 0 else neg_infinity).

Definition potIdeaths1 (d : Data) (st : State) : result float :=
  potIdeaths d (sI1 st) (tauI1 st) (sU st) (tauU st).

Definition potIdeaths2 (d : Data) (st : State) : result float :=
  potIdeaths d (sI2 st) (tauI2 st) (sU st) (tauU st).

(** The log-probability of a draw,
    [sum([getattr(m,l).logp for l in m.liks])+potIdeaths1.logp+potIdeaths2.logp]
    (line 188 of timeTestHom.py).  PyMC reports a value of minus infinity by
    raising [ZeroProbability]; here it is the float [neg_infinity]. *)
Definition joint_logp (d : Data) (st : State) (liks : list node) : result float :=
  let* L := total_loglik d st liks in
  let* p1 := potIdeaths1 d st in
  let* p2 := potIdeaths2 d st in
  Ok (L + p1 + p2).

End Target.

End Model.

(** ** The posterior summarizer ([calcPosterior] and [__calc__] of timeEst.py) *)

Module Posterior.

Local Open Scope float_scope.

(** [M2]: for each parameter name, a dictionary from chain number to that
    chain's samples. *)
Abbreviation chains := (gmap nat (list float)).
Abbreviation trace := (gmap string (gmap nat (list float))).

(** The sample arrays [ps], [epss], [sUs], ... by parameter name. *)
Abbreviation samples := (gmap string (list float)).

(** The body of [for p in self.parameters], up to the value handed to
    [setattr(self, p+'s', ...)]:

      vals = M2[p][0][burnin:None:thinF].tolist()
      nchains = len(M2[p].keys())
      if nchains > 1:
          for c in nchains[1:]:
              vals.extend(M2[p][c][burnin:None:thinF])

    [nchains] is an [int], so [nchains[1:]] raises [TypeError] before the
    loop body is reached. *)
Definition load_param (M2 : trace) (burnin thinF : Z) (p : string)
  : result (list float) :=
  let* cs := of_option KeyError (M2 !! p) in
  let* c0 := of_option KeyError (cs !! 0%nat) in
  let* vals := Np.slice_from burnin thinF c0 in
  let nchains := size cs in
  if (1 <? nchains)%nat then Raise TypeError
  else Ok vals.

(** The whole loop: the sample array of every parameter, in the order of
    [self.parameters]. *)
Definition load_trace (M2 : trace) (parameters : list string) (burnin thinF : Z)
  : result (list (string * list float)) :=
  for_each (fun p => let* vals := load_param M2 burnin thinF p in Ok (p, vals))
           parameters.

(** What the specification asks of [loadTrace]: every chain, chain 0 first,
    sliced on its own, the slices concatenated. *)
Fixpoint concat_chains (cs : chains) (burnin thinF : Z) (c n : nat)
  : result (list float) :=
  match n with
  | O => Ok []
  | S n' =>
      let* ch := of_option KeyError (cs !! c) in
      let* vals := Np.slice_from burnin thinF ch in
      let* rest := concat_chains cs burnin thinF (S c) n' in
      Ok (vals ++ rest)
  end.

Definition load_param_spec (M2 : trace) (burnin thinF : Z) (p : string)
  : result (list float) :=
  let* cs := of_option KeyError (M2 !! p) in
  concat_chains cs burnin thinF 0 (size cs).

(** A local variable [<name>s] made by [exec('%ss=self.%ss'%(p,p))]; using one
    that was never made is a [NameError]. *)
Definition get (S : samples) (name : string) : result (list float) :=
  of_option NameError (S !! name).

(** What [__calc__] computes, before and after the reduction by
    [ut.confint]: the [*_samples] fields hold one row per posterior sample,
    the others are the persisted summary values of [self.vals]. *)
Record Summary : Type := {
  ts : list float;
  cdf1_samples : list Np.matrix;
  cdf2_samples : list Np.matrix;
  pdfU_samples : Np.matrix;
  pdfI1_samples : Np.matrix;
  pdfI2_samples : Np.matrix;
  cdf1_ci : list Np.matrix;
  cdf2_ci : list Np.matrix;
  pdfU : Np.matrix;
  cdfU : Np.matrix;
  pdfI1 : Np.matrix;
  pdfI2 : Np.matrix
}.

(** The content of [<name>-postcalc.pickle]. *)
Record Postcalc : Type := {
  saved_burnin : Z;
  saved_thinF : Z;
  saved_vals : Summary;
  saved_samples : samples
}.

(** The two pickles [calcPosterior] reads, each present or not. *)
Record Files : Type := {
  mcmc_pickle : option trace;
  postcalc_pickle : option Postcalc
}.

(** The attributes of the model object that [calcPosterior] sets: the
    summary values ([None] until computed) and the sample arrays. *)
Record Object : Type := {
  vals : option Summary;
  param_samples : option samples
}.

Section Calc.

(** The helpers of lib/utils.py: [ut.kpdf(t,s,tau,k)],
    [ut.kpdfInt(t1,t2,s,tau,k)], [ut.pi_hom(dose,p,eps)],
    [ut.pi_het(dose,p,a,b,eps)] on scalars, and [ut.confint] on a
    sample-by-grid array. *)
Variable kpdf : float -> float -> float -> float -> float.
Variable kpdfInt : float -> float -> float -> float -> float -> float.
Variable pi_hom : float -> float -> float -> float.
Variable pi_het : float -> float -> float -> float -> float -> float.
Variable confint : Np.matrix -> Np.matrix.

(** Modelled from the spec: [ut.callArray] is not under src/.  It evaluates a
    kernel function "for each grid point [...] for every posterior sample
    (vectorized)"; the result has one row per sample and one column per grid
    point, which is the shape [__calc__] relies on when it multiplies by
    [np.array([pi1s.tolist()]*len(ts)).T] and slices [cdfU[:,1:]].  Row [i]
    is built from element [i] of each of the three sample arrays; what the
    helper does with sample arrays of different lengths cannot be read from
    src/, and the facts about whole arrays below take one length. *)
Definition callArray (f : float -> float -> float -> float -> float)
    (grid ss taus ks : list float) : Np.matrix :=
  zip_with (fun s tk => map (fun t => f t s (fst tk) (snd tk)) grid)
           ss (zip taus ks).

(** The sample array of a parameter, and the cumulative curves
    [eval(ut.callArray('ut.kpdfInt(0,',['ts',s+'s','tau'+..+'s','ks'],...))]
    of the hazard regime with the given mean and shape parameters, where the
    scale samples are [means/shapes]. *)
Definition arr (S : samples) (name : string) : list float :=
  default [] (S !! name).

Definition cumulative (S : samples) (grid : list float) (mean shape : string)
  : Np.matrix :=
  callArray (kpdfInt 0) grid (arr S shape)
            (zip_with div (arr S mean) (arr S shape)) (arr S "k").

Definition density (S : samples) (grid : list float) (mean shape : string)
  : Np.matrix :=
  callArray kpdf grid (arr S shape)
            (zip_with div (arr S mean) (arr S shape)) (arr S "k").

(** [ts=np.arange(0,d.times[-1]+1,0.2)] *)
Definition time_grid (d : Model.Data) : result (list float) :=
  let* tlast := of_option IndexError (last (Model.times d)) in
  Np.arange 0 (tlast + 1) 0.2.

(** [ut.pi_hom(d.doses[di],ps,epss)] and [ut.pi_het(d.doses[di],ps,a2s,b2s,epss)]
    over the sample arrays: element [i] of the result is the helper at
    element [i] of each array (as for [ut.callArray], for arrays of one
    length). *)
Definition pi_homs (dose : float) (ps epss : list float) : list float :=
  zip_with (pi_hom dose) ps epss.

Definition pi_hets (dose : float) (ps a2s b2s epss : list float) : list float :=
  zip_with (fun pa be => pi_het dose (fst pa) (snd pa) (fst be) (snd be))
           (zip ps a2s) (zip b2s epss).

(** [1-cdfU], the argument of [ut.confint] for dose index 0. *)
Definition control_curve (cdfU_s : Np.matrix) : Np.matrix := Np.scalar_sub 1 cdfU_s.

(** [1-((np.array([pis.tolist()]*len(ts)).T)*cdfI)
      -((1-np.array([pis.tolist()]*len(ts)).T)*cdfU)],
    the argument of [ut.confint] for a dose index [di >= 1]; the products
    and the difference raise [ValueError] when the shapes do not fit. *)
Definition dose_curve (pis : list float) (nts : nat) (cdfI_s cdfU_s : Np.matrix)
  : result Np.matrix :=
  let tile := Np.tile_T pis nts in
  let* infected := Np.mul tile cdfI_s in
  let* uninfected := Np.mul (Np.scalar_sub 1 tile) cdfU_s in
  Np.sub (Np.scalar_sub 1 infected) uninfected.

(** The same array when the shapes fit: [pis] has one element per row of the
    two cumulative arrays, and these have [nts] columns. *)
Definition convex_curve (pis : list float) (nts : nat) (cdfI_s cdfU_s : Np.matrix)
  : Np.matrix :=
  let tile := map (replicate nts) pis in
  Np.zip2 PrimFloat.sub
    (Np.scalar_sub 1 (Np.zip2 PrimFloat.mul tile cdfI_s))
    (Np.zip2 PrimFloat.mul (Np.scalar_sub 1 tile) cdfU_s).

(** The survival curves of one group when the shapes fit, per dose index:
    index 0 first, then the indices of [range(1,d.ndoses)]. *)
Definition survival_curves (d : Model.Data) (pis_at : float -> list float)
    (nts : nat) (cdfI_s cdfU_s : Np.matrix) : result (list Np.matrix) :=
  if (Model.ndoses d =? 0)%nat then Raise IndexError
  else
    let* rest := for_each
                   (fun di => let* dose := of_option IndexError (Model.doses d !! di) in
                              Ok (convex_curve (pis_at dose) nts cdfI_s cdfU_s))
                   (seq 1 (Model.ndoses d - 1)) in
    Ok (control_curve cdfU_s :: rest).

(** The curve the specification gives a dose: chosen by the dose, not by its
    index.  A positive dose has the convex combination, a dose of zero the
    uninfected curve alone. *)
Definition survival_curve_spec (dose : float) (pis : list float) (nts : nat)
    (cdfI_s cdfU_s : Np.matrix) : result Np.matrix :=
  if 0 <? dose then dose_curve pis nts cdfI_s cdfU_s
  else Ok (control_curve cdfU_s).

(** [meanUs/sUs]: the division of two sample arrays (lines 282-284). *)
Definition divide (means shapes : list float) : result (list float) :=
  Np.broadcast div means shapes.

(** One round of [for di in range(1,d.ndoses)] (lines 317-322): the arguments
    of [ut.confint] for the two groups.

      pi1s=ut.pi_hom(d.doses[di],ps,epss)
      pi2s=ut.pi_het(d.doses[di],ps,a2s,b2s,epss)
      cdf1_ci[:,di,:]=ut.confint(1-((tile(pi1s))*cdfI1)-((1-tile(pi1s))*cdfU))
      cdf2_ci[:,di,:]=ut.confint(1-((tile(pi2s))*cdfI2)-((1-tile(pi2s))*cdfU))

    with [tile(v)] for [np.array([v.tolist()]*len(ts)).T].  The sample
    arrays of [p], [eps], [a2] and [b2] are first read here. *)
Definition dose_step (d : Model.Data) (S : samples) (nts : nat)
    (cdfI1_s cdfI2_s cdfU_s : Np.matrix) (di : nat) : result (Np.matrix * Np.matrix) :=
  let* dose := of_option IndexError (Model.doses d !! di) in
  let* ps := get S "p" in
  let* epss := get S "eps" in
  let pi1s := pi_homs dose ps epss in
  let* a2s := get S "a2" in
  let* b2s := get S "b2" in
  let pi2s := pi_hets dose ps a2s b2s epss in
  let* c1 := dose_curve pi1s nts cdfI1_s cdfU_s in
  let* c2 := dose_curve pi2s nts cdfI2_s cdfU_s in
  Ok (c1, c2).

(** [__calc__] from the loaded sample arrays on (the dose grid [x2] and the
    infection-probability bands [pi1_ci], [pi2_ci] are left out).  With no
    dose index at all the assignment to [cdf1_ci[:,0,:]] is an
    [IndexError]. *)
Definition summarize (d : Model.Data) (S : samples) : result Summary :=
  let* meanUs := get S "meanU" in
  let* sUs := get S "sU" in
  let* tauUs := divide meanUs sUs in
  let* meanI1s := get S "meanI1" in
  let* sI1s := get S "sI1" in
  let* tauI1s := divide meanI1s sI1s in
  let* meanI2s := get S "meanI2" in
  let* sI2s := get S "sI2" in
  let* tauI2s := divide meanI2s sI2s in
  let* grid := time_grid d in
  let* ks := get S "k" in
  let pdfI1_s := callArray kpdf grid sI1s tauI1s ks in
  let pdfI2_s := callArray kpdf grid sI2s tauI2s ks in
  let cdfU_s := callArray (kpdfInt 0) grid sUs tauUs ks in
  let cdfI1_s := callArray (kpdfInt 0) grid sI1s tauI1s ks in
  let cdfI2_s := callArray (kpdfInt 0) grid sI2s tauI2s ks in
  let* rest :=
    (if (Model.ndoses d =? 0)%nat then Raise IndexError
     else for_each (dose_step d S (length grid) cdfI1_s cdfI2_s cdfU_s)
                   (seq 1 (Model.ndoses d - 1))) in
  let c1 := control_curve cdfU_s :: map fst rest in
  let c2 := control_curve cdfU_s :: map snd rest in
  let pdfU_s := Np.diff_columns cdfU_s in
  Ok {| ts := grid;
        cdf1_samples := c1;
        cdf2_samples := c2;
        pdfU_samples := pdfU_s;
        pdfI1_samples := pdfI1_s;
        pdfI2_samples := pdfI2_s;
        cdf1_ci := map confint c1;
        cdf2_ci := map confint c2;
        pdfU := confint pdfU_s;
        cdfU := confint cdfU_s;
        pdfI1 := confint pdfI1_s;
        pdfI2 := confint pdfI2_s |}.

(** [__calc__(M2,burnin,thinF)]: load the trace, summarize, set the
    attributes and write [<name>-postcalc.pickle]. *)
Definition calc (d : Model.Data) (parameters : list string) (fs : Files)
    (M2 : trace) (burnin thinF : Z) : result (Object * Files) :=
  let* loaded := load_trace M2 parameters burnin thinF in
  let S : samples := list_to_map loaded in
  let* v := summarize d S in
  Ok ({| vals := Some v; param_samples := Some S |},
      {| mcmc_pickle := mcmc_pickle fs;
         postcalc_pickle := Some {| saved_burnin := burnin; saved_thinF := thinF;
                                    saved_vals := v; saved_samples := S |} |}).

(**
      def calcPosterior(self,burnin=0,thinF=1,bOverWrite=False,figFormat='png'):
          if bOverWrite:
              M2=pickle.load(open(self.saveTo+'-MCMC.pickle'))
              self.__calc__(M2,burnin,thinF)
          else:
              try:
                  saved=pickle.load(open(self.saveTo+'-postcalc.pickle'))
                  if (saved['burnin']==burnin) & (saved['thinF']==thinF):
                      for v in self.vals: setattr(self,v,saved[v])
                      for v in self.parameters: setattr(self,v+'s', saved[v+'s'])
                      self.__plot__()
              except IOError:
                  M2=pickle.load(open(self.saveTo+'-MCMC.pickle'))
                  self.__calc__(M2,burnin,thinF)

    Opening a pickle that is not there raises [IOError].  Plotting is outside
    the model. *)
Definition calcPosterior (d : Model.Data) (parameters : list string)
    (self : Object) (fs : Files) (burnin thinF : Z) (bOverWrite : bool)
  : result (Object * Files) :=
  if bOverWrite then
    let* M2 := of_option IOError (mcmc_pickle fs) in
    calc d parameters fs M2 burnin thinF
  else
    match postcalc_pickle fs with
    | Some saved =>
        if (saved_burnin saved =? burnin)%Z && (saved_thinF saved =? thinF)%Z
        then Ok ({| vals := Some (saved_vals saved);
                    param_samples := Some (saved_samples saved) |}, fs)
        else Ok (self, fs)
    | None =>
        let* M2 := of_option IOError (mcmc_pickle fs) in
        calc d parameters fs M2 burnin thinF
    end.

(** The same operation as the specification describes it: a stored summary
    whose burn-in or thinning differs from the request is recomputed. *)
Definition calcPosterior_spec (d : Model.Data) (parameters : list string)
    (self : Object) (fs : Files) (burnin thinF : Z) : result (Object * Files) :=
  match postcalc_pickle fs with
  | Some saved =>
      if (saved_burnin saved =? burnin)%Z && (saved_thinF saved =? thinF)%Z
      then Ok ({| vals := Some (saved_vals saved);
                  param_samples := Some (saved_samples saved) |}, fs)
      else
        let* M2 := of_option IOError (mcmc_pickle fs) in
        calc d parameters fs M2 burnin thinF
  | None =>
      let* M2 := of_option IOError (mcmc_pickle fs) in
      calc d parameters fs M2 burnin thinF
  end.

End Calc.

(** The parameters whose sample arrays [__calc__] of timeEst.py reads by
    name. *)
Definition read_names : list string :=
  ["meanU"; "sU"; "meanI1"; "sI1"; "meanI2"; "sI2"; "k"; "p"; "eps"; "a2"; "b2"]%string.

(** Of these, the ones read before the loop over the dose indices, and the
    ones first read inside it. *)
Definition base_names : list string :=
  ["meanU"; "sU"; "meanI1"; "sI1"; "meanI2"; "sI2"; "k"]%string.

Definition dose_names : list string := ["p"; "eps"; "a2"; "b2"]%string.

(** [hasattr(self,'sUs')]: the sample array of [sU] has been set on the
    model. *)
Definition has_sUs (self : Object) : bool :=
  match param_samples self with
  | Some loaded => bool_decide (is_Some (loaded !! "sU"%string))
  | None => false
  end.

(** [plotBeta], [plotDoseResponse], [plotPosterior] and [plotBestDays] of
    timeEst.py (lines 370-413) have one shape:

      if not hasattr(self,'sUs'):
          print "Please run calcPosterior first!"
          return
      else:
          return ut.plotBeta(self)

    [ut_plot] is the plotting function of lib/utils.py; [None] is what the
    bare [return] gives. *)
Definition guarded_plot {P : Type} (ut_plot : Object -> P) (self : Object) : option P :=
  if has_sUs self then Some (ut_plot self) else None.

End Posterior.

(** ** The probabilities handed to the likelihood terms

    The deterministic nodes [probdU], [probdI1], [probdI2] and [probsU],
    [probsI1], [probsI2] (lines 174-181 of timeEst.py, 120-127 of
    timeTestHom.py). *)

Module Hazard.

Local Open Scope float_scope.

(** [a[i]] for an integer [i] of an index array: a negative index counts
    from the end, an index outside [-len(a) .. len(a)-1] raises
    [IndexError]. *)
Definition item (xs : list float) (i : Z) : result float :=
  let n := Z.of_nat (length xs) in
  if (0 <=? i)%Z then of_option IndexError (xs !! Z.to_nat i)
  else if (- n <=? i)%Z then of_option IndexError (xs !! Z.to_nat (n + i))
  else Raise IndexError.

(** [a[idx]] for an integer index array. *)
Definition items (xs : list float) (idx : list Z) : result (list float) :=
  for_each (item xs) idx.

Section Nodes.

(** [ut.kpdfInt(t1,t2,s,tau,k)] on scalars; on the arrays [t1], [t2] it is
    taken element by element. *)
Variable kpdfInt : float -> float -> float -> float -> float -> float.

(**
      m.probdU=py.Lambda('probdU',lambda s=m.sU, tau=m.tauU, k=m.k,
                         t1=d.times[chgT-1],t2=d.times[chgT]: ut.kpdfInt(t1,t2,s,tau,k))

    [chgT] holds the indices of the changing times, as [ut.changingTimes]
    returned them. *)
Definition probd (times : list float) (chgT : list Z) (s tau k : float)
  : result (list float) :=
  let* t1 := items times (map (fun c => (c - 1)%Z) chgT) in
  let* t2 := items times chgT in
  Ok (zip_with (fun a b => kpdfInt a b s tau k) t1 t2).

(**
      m.probsU=py.Lambda('probsU',lambda s=m.sU, tau=m.tauU, k=m.k:
                         1-(ut.kpdfInt(0,d.tmax,s,tau,k)))
*)
Definition probs (tmax s tau k : float) : float := 1 - kpdfInt 0 tmax s tau k.

End Nodes.

End Hazard.

(** ** The recorded parameter names

    [m.parameters.extend([...])] at lines 224-225 of timeEst.py and 84-87 of
    timeTestHom.py: the names of the latent infected counts, one per family
    and dose of the likelihood loop's range. *)

Module Parameters.

Local Open Scope string_scope.

(** The stem of the name of a latent count: ['Ig1d%i'], ['I1hom%i'], ... *)
Definition stem (l : Model.latent) : string :=
  match l with
  | Model.Ig1d => "Ig1d"
  | Model.Ig2d => "Ig2d"
  | Model.I1hom => "I1hom"
  | Model.I1het => "I1het"
  | Model.I2hom => "I2hom"
  | Model.I2het => "I2het"
  end.

(** ['Ig1d%i'%i]: the stem followed by the index in decimal. *)
Definition latent_name (l : Model.latent) (i : nat) : string :=
  stem l +:+ pretty i.

(** [['Ig1d%i'%i for i in range(sum(d.doses==0),len(d.doses))]] *)
Definition latent_names (d : Model.Data) (l : Model.latent) : list string :=
  map (latent_name l) (Model.dose_range d).

(** [m.parameters] after the two [extend] of timeEst.py, and after the four
    of [likelihood_setup] of timeTestHom.py; [priors] is the list it starts
    from. *)
Definition timeEst (priors : list string) (d : Model.Data) : list string :=
  (priors ++ latent_names d Model.Ig1d) ++ latent_names d Model.Ig2d.

Definition timeTestHom (priors : list string) (d : Model.Data) : list string :=
  (((priors ++ latent_names d Model.I1hom) ++ latent_names d Model.I1het)
     ++ latent_names d Model.I2hom) ++ latent_names d Model.I2het.

End Parameters.

(** ** The summarizer and the plot wrappers of timeTestHom.py *)

Module TestHom.

Local Open Scope float_scope.

(** What [__calc__] of timeTestHom.py computes: as [Posterior.Summary], with
    one set of survival curves per group and infection model. *)
Record Summary : Type := {
  ts : list float;
  cdf1hom_samples : list Np.matrix;
  cdf1het_samples : list Np.matrix;
  cdf2hom_samples : list Np.matrix;
  cdf2het_samples : list Np.matrix;
  pdfU_samples : Np.matrix;
  pdfI1_samples : Np.matrix;
  pdfI2_samples : Np.matrix;
  cdf1hom_ci : list Np.matrix;
  cdf1het_ci : list Np.matrix;
  cdf2hom_ci : list Np.matrix;
  cdf2het_ci : list Np.matrix;
  pdfU : Np.matrix;
  cdfU : Np.matrix;
  pdfI1 : Np.matrix;
  pdfI2 : Np.matrix
}.

Section Calc.

Variable kpdf : float -> float -> float -> float -> float.
Variable kpdfInt : float -> float -> float -> float -> float -> float.
Variable pi_hom : float -> float -> float -> float.
Variable pi_het : float -> float -> float -> float -> float -> float.
Variable confint : Np.matrix -> Np.matrix.

(** One round of [for di in range(1,d.ndoses)] (lines 242-253): the
    arguments of [ut.confint] for the two groups and the two infection
    models.

      pi1homs=ut.pi_hom(d.doses[di],p1homs,epss)
      pi1hets=ut.pi_het(d.doses[di],p1hets,a1s,b1s,epss)
      cdf1hom_ci[:,di,:]=ut.confint(1-(tile(pi1homs)*cdfI1)-((1-tile(pi1homs))*cdfU))
      cdf1het_ci[:,di,:]=ut.confint(1-(tile(pi1hets)*cdfI1)-((1-tile(pi1hets))*cdfU))
      pi2homs=ut.pi_hom(d.doses[di],p2homs,epss)
      pi2hets=ut.pi_het(d.doses[di],p2hets,a1s,b1s,epss)
      cdf2hom_ci[:,di,:]=ut.confint(1-(tile(pi2homs)*cdfI1)-((1-tile(pi2homs))*cdfU))
      cdf2het_ci[:,di,:]=ut.confint(1-(tile(pi2hets)*cdfI1)-((1-tile(pi2hets))*cdfU))

    with [tile(v)] for [np.array([v.tolist()]*len(ts)).T]. *)
Definition dose_step (d : Model.Data) (S : Posterior.samples) (nts : nat)
    (cdfI1_s cdfU_s : Np.matrix) (di : nat)
  : result ((Np.matrix * Np.matrix) * (Np.matrix * Np.matrix)) :=
  let* dose := of_option IndexError (Model.doses d !! di) in
  let* p1homs := Posterior.get S "p1hom" in
  let* epss := Posterior.get S "eps" in
  let pi1homs := Posterior.pi_homs pi_hom dose p1homs epss in
  let* p1hets := Posterior.get S "p1het" in
  let* a1s := Posterior.get S "a1" in
  let* b1s := Posterior.get S "b1" in
  let pi1hets := Posterior.pi_hets pi_het dose p1hets a1s b1s epss in
  let* c1hom := Posterior.dose_curve pi1homs nts cdfI1_s cdfU_s in
  let* c1het := Posterior.dose_curve pi1hets nts cdfI1_s cdfU_s in
  let* p2homs := Posterior.get S "p2hom" in
  let pi2homs := Posterior.pi_homs pi_hom dose p2homs epss in
  let* p2hets := Posterior.get S "p2het" in
  let pi2hets := Posterior.pi_hets pi_het dose p2hets a1s b1s epss in
  let* c2hom := Posterior.dose_curve pi2homs nts cdfI1_s cdfU_s in
  let* c2het := Posterior.dose_curve pi2hets nts cdfI1_s cdfU_s in
  Ok ((c1hom, c1het), (c2hom, c2het)).

(** [__calc__] (lines 197-288) from the sample arrays on; as in
    [Posterior.summarize] the dose grid [x2] and the infection-probability
    bands are left out. *)
Definition summarize (d : Model.Data) (S : Posterior.samples) : result Summary :=
  let* meanUs := Posterior.get S "meanU" in
  let* sUs := Posterior.get S "sU" in
  let* tauUs := Posterior.divide meanUs sUs in
  let* meanI1s := Posterior.get S "meanI1" in
  let* sI1s := Posterior.get S "sI1" in
  let* tauI1s := Posterior.divide meanI1s sI1s in
  let* meanI2s := Posterior.get S "meanI2" in
  let* sI2s := Posterior.get S "sI2" in
  let* tauI2s := Posterior.divide meanI2s sI2s in
  let* grid := Posterior.time_grid d in
  let* ks := Posterior.get S "k" in
  let pdfI1_s := Posterior.callArray kpdf grid sI1s tauI1s ks in
  let pdfI2_s := Posterior.callArray kpdf grid sI2s tauI2s ks in
  let cdfU_s := Posterior.callArray (kpdfInt 0) grid sUs tauUs ks in
  let cdfI1_s := Posterior.callArray (kpdfInt 0) grid sI1s tauI1s ks in
  let cdfI2_s := Posterior.callArray (kpdfInt 0) grid sI2s tauI2s ks in
  let* rest :=
    (if (Model.ndoses d =? 0)%nat then Raise IndexError
     else for_each (dose_step d S (length grid) cdfI1_s cdfU_s)
                   (seq 1 (Model.ndoses d - 1))) in
  let control := Posterior.control_curve cdfU_s in
  let c1hom := control :: map (fun r => fst (fst r)) rest in
  let c1het := control :: map (fun r => snd (fst r)) rest in
  let c2hom := control :: map (fun r => fst (snd r)) rest in
  let c2het := control :: map (fun r => snd (snd r)) rest in
  let pdfU_s := Np.diff_columns cdfU_s in
  Ok {| ts := grid;
        cdf1hom_samples := c1hom;
        cdf1het_samples := c1het;
        cdf2hom_samples := c2hom;
        cdf2het_samples := c2het;
        pdfU_samples := pdfU_s;
        pdfI1_samples := pdfI1_s;
        pdfI2_samples := pdfI2_s;
        cdf1hom_ci := map confint c1hom;
        cdf1het_ci := map confint c1het;
        cdf2hom_ci := map confint c2hom;
        cdf2het_ci := map confint c2het;
        pdfU := confint pdfU_s;
        cdfU := confint cdfU_s;
        pdfI1 := confint pdfI1_s;
        pdfI2 := confint pdfI2_s |}.

End Calc.

(** The parameters whose sample arrays [__calc__] of timeTestHom.py reads by
    name, up to the survival curves. *)
Definition read_names : list string :=
  ["meanU"; "sU"; "meanI1"; "sI1"; "meanI2"; "sI2"; "k"; "p1hom"; "eps"; "p1het";
   "a1"; "b1"; "p2hom"; "p2het"]%string.

(** Of these, the ones first read inside the loop over the dose indices. *)
Definition dose_names : list string :=
  ["p1hom"; "eps"; "p1het"; "a1"; "b1"; "p2hom"; "p2het"]%string.

(** *** [setgroup] and the plot wrappers (lines 296-369)

    The model object as far as these methods touch it: its attributes by
    name.  The values are not looked into, so their type is a parameter. *)

Inductive attr (V : Type) : Type :=
| PyNone
| Val (v : V).

Arguments PyNone {V}.
Arguments Val {V} v.

(** A method either returns, or raises the named exception. *)
Inductive outcome (A : Type) : Type :=
| Done (a : A)
| Fails (e : string).

Arguments Done {A} a.
Arguments Fails {A} e.

Definition and_then {A B : Type} (m : outcome A) (k : A -> outcome B) : outcome B :=
  match m with
  | Done a => k a
  | Fails e => Fails e
  end.

(** The object: its attributes by name. *)
Abbreviation object V := (gmap string (attr V)).

Section Plots.

Context {V R : Type}.

(** [getattr(self, name)] *)
Definition getattr (self : object V) (name : string) : outcome (attr V) :=
  match self !! name with
  | Some a => Done a
  | None => Fails "AttributeError"
  end.

(** [self.<target> = getattr(self, source)] *)
Definition copy_attr (target source : string) (self : object V) : outcome (object V) :=
  and_then (getattr self source) (fun a => Done (<[target := a]> self)).

(**
      def setgroup(self,i):
          if i==0:
              self.a2s=None
              self.b2s=None
              self.pi1_ci=None
              self.pi2_ci=None
              self.cdf1_ci=None
              self.cdf2_ci=None
          elif (i==1) or (i==2):
              self.a2s=getattr(self,'a%is'%i)
              self.b2s=getattr(self,'b%is'%i)
              self.pi1_ci=getattr(self,'pi%ihom_ci'%i)
              self.pi2_ci=getattr(self,'pi%ihet_ci'%i)
              self.cdf1_ci=getattr(self,'cdf%ihom_ci'%i)
              self.cdf2_ci=getattr(self,'cdf%ihet_ci'%i)
*)
Definition setgroup (self : object V) (i : Z) : outcome (object V) :=
  if (i =? 0)%Z then
    let self := <["a2s"%string := PyNone]> self in
    let self := <["b2s"%string := PyNone]> self in
    let self := <["pi1_ci"%string := PyNone]> self in
    let self := <["pi2_ci"%string := PyNone]> self in
    let self := <["cdf1_ci"%string := PyNone]> self in
    let self := <["cdf2_ci"%string := PyNone]> self in
    Done self
  else if (i =? 1)%Z || (i =? 2)%Z then
    let n := pretty i in
    and_then (copy_attr "a2s" ("a" +:+ n +:+ "s") self) (fun self =>
    and_then (copy_attr "b2s" ("b" +:+ n +:+ "s") self) (fun self =>
    and_then (copy_attr "pi1_ci" ("pi" +:+ n +:+ "hom_ci") self) (fun self =>
    and_then (copy_attr "pi2_ci" ("pi" +:+ n +:+ "het_ci") self) (fun self =>
    and_then (copy_attr "cdf1_ci" ("cdf" +:+ n +:+ "hom_ci") self) (fun self =>
    copy_attr "cdf2_ci" ("cdf" +:+ n +:+ "het_ci") self)))))
  else Done self.

(** The six attributes [setgroup] assigns. *)
Definition group_attrs : list string :=
  ["a2s"; "b2s"; "pi1_ci"; "pi2_ci"; "cdf1_ci"; "cdf2_ci"]%string.

(** The shape shared by [plotBeta], [plotDoseResponse], [plotPosterior] and
    [plotSurvival]:

      self.setgroup(1)
      res1 = super(Model,self).plotBeta('-Beta1',...)
      self.setgroup(2)
      res2 = super(Model,self).plotBeta('-Beta2',...)
      self.setgroup(0)
      return res1,res2

    [super_plot] is the method of the superclass, which is not in these
    files: it is handed the figure name and the object, and returns its
    result and the object as it left it. *)
Variable super_plot : string -> object V -> outcome (R * object V).

Definition plot_groups (name1 name2 : string) (self : object V)
  : outcome ((R * R) * object V) :=
  and_then (setgroup self 1) (fun self =>
  and_then (super_plot name1 self) (fun r1 =>
  and_then (setgroup (snd r1) 2) (fun self =>
  and_then (super_plot name2 self) (fun r2 =>
  and_then (setgroup (snd r2) 0) (fun self =>
  Done ((fst r1, fst r2), self)))))).

Definition plotBeta := plot_groups "-Beta1" "-Beta2".
Definition plotDoseResponse := plot_groups "-DoseResponse1" "-DoseResponse2".
Definition plotPosterior := plot_groups "-plotPosterior1" "-plotPosterior2".
Definition plotSurvival := plot_groups "-plotSurvival1" "-plotSurvival2".

End Plots.

End TestHom.

(** ** Setting a model up ([initializeModel], [savedModel] and [Model.pickle]
       of timeEst.py) *)

Module Setup.

Local Open Scope string_scope.

(** [s[-1]]: the last character (a string of length one), if there is one. *)
Fixpoint last_char (s : string) : option string :=
  match s with
  | EmptyString => None
  | String c t =>
      match t with
      | EmptyString => Some (String c EmptyString)
      | String _ _ => last_char t
      end
  end.

(** [path+('/' if path[-1]!='/' else '')]; indexing the empty string raises
    [IndexError]. *)
Definition with_slash (path : string) : result string :=
  let* c := of_option IndexError (last_char path) in
  Ok (path +:+ (if decide (c = "/") then "" else "/")).

(** The folders and files that exist, by path. *)
Abbreviation disk := (gset string).

(** Lines 63-87 of [initializeModel]: the name of the model, the folder its
    results go to, and the disk once the folder is made and the data are
    pickled into it.

      name=d.dataName+'_timeEst'
      if savePath==None:
          savePath='./results/'
      path=savePath+('/' if savePath[-1]!='/' else '')+name+'/'
      if not bOverWrite:
          print "changing folder"
          if os.path.exists(m.path):
              ...
      if not os.path.exists(path):
          os.makedirs(path)
      ...
      d.pickle(path+'data.pickle')

    No [m] is bound in [initializeModel] or at the top of the module, so
    evaluating [m.path] raises [NameError].  The argument [resultsName] is
    not used by the function. *)
Definition initializeModel (dataName resultsName : string) (savePath : option string)
    (bOverWrite : bool) (fs : disk) : result (string * string * disk) :=
  let name := dataName +:+ "_timeEst" in
  let savePath := default "./results/" savePath in
  let* base := with_slash savePath in
  let path := base +:+ name +:+ "/" in
  let* path := (if negb bOverWrite then Raise NameError else Ok path) in
  let fs := if decide (path ∈ fs) then fs else {[path]} ∪ fs in
  Ok (name, path, {[path +:+ "data.pickle"]} ∪ fs).

(** [Model.pickle]: [model.pickle] in the model's folder holds the path, the
    prefix [saveTo] and the name. *)
Record Pickled : Type := {
  pickled_path : string;
  pickled_saveTo : string;
  pickled_name : string
}.

(** The end of [Model.__init__]: [self.saveTo=path+name], [self.path=path],
    [self.name=name] and [self.pickle()]. *)
Definition pickle (name path : string) : Pickled :=
  {| pickled_path := path; pickled_saveTo := path +:+ name; pickled_name := name |}.

(** A results folder as [savedModel] reads it: whether [data.pickle] is
    there, what [model.pickle] holds, and which other files exist. *)
Record Folder : Type := {
  data_pickle : bool;
  model_pickle : option Pickled;
  files : disk
}.

(**
      def savedModel(path):
          path+=('/' if path[-1]!='/' else '')
          data=ut.DataFromPickle(path+'data.pickle')
          sys.path.append(path)
          priors=importlib.import_module('prior')
          model=pickle.load(open(path+'model.pickle'))
          mod=Model(data,priors,model['name'], path)
          try:
              traces=pickle.load(open(path+mod.name+'.pickle'))
              for v in mod.parameters:
                  setattr(self,v+'s', saved[v+'s'])
          except IOError:
              pass
          return mod

    [parameters] is [mod.parameters], the list the constructor made.  Opening
    a file that is not there raises [IOError]; neither [self] nor [saved] is
    bound in [savedModel], so the first round of the loop raises
    [NameError], which the handler does not catch.  The result is the name
    and the path the model was rebuilt with. *)
Definition savedModel (path : string) (folder : Folder) (parameters : list string)
  : result (string * string) :=
  let* path := with_slash path in
  let* _ := (if data_pickle folder then Ok tt else Raise IOError) in
  let* model := of_option IOError (model_pickle folder) in
  let name := pickled_name model in
  if decide (path +:+ name +:+ ".pickle" ∈ files folder) then
    let* _ := for_each (fun _ : string => @Raise unit NameError) parameters in
    Ok (name, path)
  else Ok (name, path).

End Setup.

(** ** Reference instances

    Concrete functions and data on which the facts of Part II are
    instantiated.  The three numeric functions agree with the library
    functions they stand for on the special values that the facts rely on;
    they are not approximations of them elsewhere. *)

Module Ref.

Local Open Scope float_scope.

(** A stand-in for [numpy.log]: right at NaN, below zero, at the zeros, at 1
    and at plus infinity; between these it only has the sign of the
    logarithm. *)
Definition log (x : float) : float :=
  if is_nan x then nan
  else if x <? 0 then nan
  else if is_zero x then neg_infinity
  else if x <? 1 then -1
  else if x =? 1 then 0
  else if x =? infinity then infinity
  else 1.

(** A stand-in for [**] with an integer exponent: repeated multiplication,
    the reciprocal for a negative exponent. *)
Definition power (x : float) (n : Z) : float :=
  match n with
  | Z0 => 1
  | Zpos p => Pos.iter (mul x) 1 p
  | Zneg p => 1 / Pos.iter (mul x) 1 p
  end.

(** A stand-in for [st.gamma.cdf(x, a, scale=scale)]: a distribution function
    of [x >= 0] into [0, 1), not the gamma one. *)
Definition cdf (x a scale : float) : float := x / (x + a * scale).

(** Stand-ins for the helpers of lib/utils.py. *)
Definition kpdf (t s tau k : float) : float := k.
Definition kpdfInt (t1 t2 s tau k : float) : float := (t2 - t1) * k.
Definition pi_hom (dose p eps : float) : float := (1 - eps) * p.
Definition pi_het (dose p a b eps : float) : float := (1 - eps) * (p * (a / (a + b))).
Definition confint (M : Np.matrix) : Np.matrix := M.

(** Two doses after a control, two hosts groups. *)
Definition data : Model.Data :=
  {| Model.doses := [0; 10; 100];
     Model.ndoses := 3;
     Model.nhosts1 := [20; 20; 20];
     Model.nhosts2 := [20; 20; 20];
     Model.survivors1 := [18; 5; 0]%Z;
     Model.survivors2 := [19; 0; 3]%Z;
     Model.times := [0; 1; 2; 3; 4; 5; 6; 7; 8; 9; 10];
     Model.tmax := 10;
     Model.iTd1 := [[0; 1]; [0; 0; 1; 2]; [1; 2; 2]]%nat;
     Model.iTd2 := [[2]; [0; 1; 1]; [0; 2]]%nat |}.

(** A draw at which infected hosts die sooner than uninfected ones. *)
Definition state : Model.State :=
  {| Model.latentI := fun _ _ => 10;
     Model.meanU := 30;
     Model.sU := 2;
     Model.meanI1 := 5;
     Model.sI1 := 2;
     Model.meanI2 := 6;
     Model.sI2 := 2;
     Model.probdU := [0.01; 0.02; 0.03];
     Model.probdI1 := [0.1; 0.2; 0.3];
     Model.probdI2 := [0.1; 0.15; 0.2];
     Model.probsU := 0.9;
     Model.probsI1 := 0.2;
     Model.probsI2 := 0.3 |}.

(** Two posterior samples of every parameter of timeEst.py. *)
Definition samples : Posterior.samples :=
  list_to_map
    [("p"%string, [0.01; 0.02]); ("a2"%string, [1; 2]); ("b2"%string, [3; 2]);
     ("eps"%string, [0.1; 0.2]);
     ("meanI1"%string, [5; 6]); ("sI1"%string, [2; 2]);
     ("meanI2"%string, [6; 7]); ("sI2"%string, [2; 3]);
     ("meanU"%string, [30; 28]); ("sU"%string, [2; 4]);
     ("k"%string, [0.001; 0.002])].

(** A trace of one parameter sampled by two chains, and one with a single
    chain of three samples. *)
Definition two_chain_trace : Posterior.trace :=
  {[ "p"%string := {[ 0%nat := [1; 2]; 1%nat := [3; 4] ]} ]}.

Definition short_trace : Posterior.trace :=
  {[ "p"%string := {[ 0%nat := [1; 2; 3] ]} ]}.

(** The eleven parameters of timeEst.py that [__calc__] reads, and a trace
    with one chain that holds the reference samples. *)
Definition parameters : list string := Posterior.read_names.

Definition trace : Posterior.trace :=
  (fun xs : list float => {[ 0%nat := xs ]}) <$> samples.

(** A chain of seven samples. *)
Definition long_trace : Posterior.trace :=
  {[ "p"%string := {[ 0%nat := [1; 2; 3; 4; 5; 6; 7] ]} ]}.

(** Two posterior samples of every parameter of timeTestHom.py that
    [__calc__] reads, and the same with other samples of the group-2
    mortality and shape parameters. *)
Definition hom_samples : Posterior.samples :=
  list_to_map
    [("p1hom"%string, [0.01; 0.02]); ("p1het"%string, [0.02; 0.03]);
     ("a1"%string, [1; 2]); ("b1"%string, [3; 2]);
     ("p2hom"%string, [0.03; 0.04]); ("p2het"%string, [0.04; 0.05]);
     ("a2"%string, [2; 2]); ("b2"%string, [5; 4]);
     ("eps"%string, [0.1; 0.2]);
     ("meanI1"%string, [5; 6]); ("sI1"%string, [2; 2]);
     ("meanI2"%string, [6; 7]); ("sI2"%string, [2; 3]);
     ("meanU"%string, [30; 28]); ("sU"%string, [2; 4]);
     ("k"%string, [0.001; 0.002])].

Definition hom_samples' : Posterior.samples :=
  <["meanI2"%string := [9; 9]]> (<["sI2"%string := [1; 1]]>
    (<["a2"%string := [7; 7]]> (<["b2"%string := [8; 8]]> hom_samples))).

(** A model object of timeTestHom.py after [__calc__], with numbers standing
    for the arrays, and a superclass plot that draws nothing. *)
Definition hom_object : TestHom.object nat :=
  list_to_map
    [("a1s"%string, TestHom.Val 11%nat); ("b1s"%string, TestHom.Val 12%nat);
     ("a2s"%string, TestHom.Val 21%nat); ("b2s"%string, TestHom.Val 22%nat);
     ("pi1hom_ci"%string, TestHom.Val 13%nat); ("pi1het_ci"%string, TestHom.Val 14%nat);
     ("pi2hom_ci"%string, TestHom.Val 23%nat); ("pi2het_ci"%string, TestHom.Val 24%nat);
     ("cdf1hom_ci"%string, TestHom.Val 15%nat); ("cdf1het_ci"%string, TestHom.Val 16%nat);
     ("cdf2hom_ci"%string, TestHom.Val 25%nat); ("cdf2het_ci"%string, TestHom.Val 26%nat)].

Definition no_plot (name : string) (self : TestHom.object nat)
  : TestHom.outcome (unit * TestHom.object nat) :=
  TestHom.Done (tt, self).

(** A draw under which no host can die in any interval. *)
Definition no_death_state : Model.State :=
  {| Model.latentI := fun _ _ => 10;
     Model.meanU := 30;
     Model.sU := 2;
     Model.meanI1 := 5;
     Model.sI1 := 2;
     Model.meanI2 := 6;
     Model.sI2 := 2;
     Model.probdU := [0; 0; 0];
     Model.probdI1 := [0; 0; 0];
     Model.probdI2 := [0; 0; 0];
     Model.probsU := 1;
     Model.probsI1 := 1;
     Model.probsI2 := 1 |}.

(** The reference data without the control: two positive doses. *)
Definition data_no_control : Model.Data :=
  {| Model.doses := [10; 100];
     Model.ndoses := 2;
     Model.nhosts1 := [20; 20];
     Model.nhosts2 := [20; 20];
     Model.survivors1 := [5; 0]%Z;
     Model.survivors2 := [0; 3]%Z;
     Model.times := [0; 1; 2; 3; 4; 5; 6; 7; 8; 9; 10];
     Model.tmax := 10;
     Model.iTd1 := [[0; 0; 1; 2]; [1; 2; 2]]%nat;
     Model.iTd2 := [[0; 1; 1]; [0; 2]]%nat |}.



(** A stand-in for [ut.kpdfInt] that tells the regimes apart by their scale:
    a distribution function of the length of the interval. *)
Definition kpdfInt_scaled (t1 t2 s tau k : float) : float :=
  (t2 - t1) / ((t2 - t1) + tau).

(** A results folder after sampling, with the pickled database of the
    sampler next to the two pickles of the model. *)
Definition folder : Setup.Folder :=
  {| Setup.data_pickle := true;
     Setup.model_pickle := Some (Setup.pickle "flies_timeEst" "./results/flies_timeEst/");
     Setup.files := {[ "./results/flies_timeEst/flies_timeEst.pickle"%string ]} |}.

End Ref.

(** * Part II: facts *)

(** ** binary64 arithmetic

    Derived from the specification of the primitive operations
    ([FloatAxioms]) by case analysis on the IEEE class of the operands. *)

Module F64Facts.

Local Open Scope float_scope.

Lemma SFcompare_antisym a b c :
  SFcompare a b = Some c -> SFcompare b a = Some (CompOpp c).
Proof.
  destruct a as [sa|sa| |sa ma ea], b as [sb|sb| |sb mb eb]; simpl;
    try discriminate; intros H; injection H as <-;
    try (destruct sa); try (destruct sb); try reflexivity.
  - rewrite (Z.compare_antisym ea eb). destruct (ea ?= eb)%Z; simpl; try reflexivity.
    f_equal. rewrite CompOpp_involutive. exact (Pos.compare_cont_antisym mb ma Eq).
  - rewrite (Z.compare_antisym ea eb). destruct (ea ?= eb)%Z; simpl; try reflexivity.
    f_equal. symmetry. exact (Pos.compare_cont_antisym ma mb Eq).
Qed.

Lemma SFcompare_not_nan a b :
  a <> S754_nan -> b <> S754_nan -> exists c, SFcompare a b = Some c.
Proof.
  destruct a, b; simpl; intros Ha Hb; try contradiction; eauto.
Qed.

Lemma is_nan_spec x : is_nan x = true <-> Prim2SF x = S754_nan.
Proof.
  unfold is_nan. rewrite FloatAxioms.eqb_spec. unfold SFeqb.
  destruct (Prim2SF x) as [s|s| |s m e]; simpl.
  - split; discriminate.
  - destruct s; split; discriminate.
  - split; reflexivity.
  - destruct s; rewrite Z.compare_refl, Pos.compare_cont_refl; simpl; split; discriminate.
Qed.

Lemma not_nan_spec x : is_nan x = false <-> Prim2SF x <> S754_nan.
Proof.
  rewrite <- is_nan_spec. destruct (is_nan x); split; congruence.
Qed.

Lemma is_zero_spec x : is_zero x = true <-> exists s, Prim2SF x = S754_zero s.
Proof.
  unfold is_zero. rewrite FloatAxioms.eqb_spec. unfold SFeqb.
  change (Prim2SF zero) with (S754_zero false).
  destruct (Prim2SF x) as [s|s| |s m e]; simpl.
  - split; eauto.
  - destruct s; split; try discriminate; intros [? ?]; discriminate.
  - split; try discriminate; intros [? ?]; discriminate.
  - destruct s; split; try discriminate; intros [? ?]; discriminate.
Qed.

(** *** Order *)

Lemma ltb_leb_false a b : (a <? b) = true -> (b <=? a) = false.
Proof.
  rewrite ltb_spec, leb_spec. unfold SFltb, SFleb.
  destruct (SFcompare (Prim2SF a) (Prim2SF b)) as [[]|] eqn:E; try discriminate.
  intros _. now rewrite (SFcompare_antisym _ _ _ E).
Qed.

Lemma not_ltb_leb a b :
  is_nan a = false -> is_nan b = false -> (a <? b) = false -> (b <=? a) = true.
Proof.
  rewrite !not_nan_spec, FloatAxioms.ltb_spec, FloatAxioms.leb_spec.
  unfold SFltb, SFleb. intros Ha Hb.
  destruct (SFcompare_not_nan _ _ Ha Hb) as [c E]. rewrite E.
  rewrite (SFcompare_antisym _ _ _ E). destruct c; simpl; congruence.
Qed.

Lemma leb_not_nan a b : (a <=? b) = true -> is_nan a = false /\ is_nan b = false.
Proof.
  rewrite leb_spec, !not_nan_spec. unfold SFleb.
  destruct (Prim2SF a), (Prim2SF b); simpl; try discriminate; split; discriminate.
Qed.

Lemma ltb_not_nan a b : (a <? b) = true -> is_nan a = false /\ is_nan b = false.
Proof.
  rewrite ltb_spec, !not_nan_spec. unfold SFltb.
  destruct (Prim2SF a), (Prim2SF b); simpl; try discriminate; split; discriminate.
Qed.

Lemma ltb_asym a b : (a <? b) = true -> (b <? a) = false.
Proof.
  rewrite !ltb_spec. unfold SFltb.
  destruct (SFcompare (Prim2SF a) (Prim2SF b)) as [[]|] eqn:E; try discriminate.
  intros _. now rewrite (SFcompare_antisym _ _ _ E).
Qed.

Lemma ltb_leb a b : (a <? b) = true -> (a <=? b) = true.
Proof.
  rewrite ltb_spec, leb_spec. unfold SFltb, SFleb.
  destruct (SFcompare (Prim2SF a) (Prim2SF b)) as [[]|]; congruence.
Qed.

Lemma leb_cases a b : (a <=? b) = true -> (a <? b) = true \/ (a =? b) = true.
Proof.
  rewrite leb_spec, ltb_spec, FloatAxioms.eqb_spec. unfold SFleb, SFltb, SFeqb.
  destruct (SFcompare (Prim2SF a) (Prim2SF b)) as [[]|]; auto.
Qed.

Lemma eqb_leb a b : (a =? b) = true -> (a <=? b) = true.
Proof.
  rewrite leb_spec, FloatAxioms.eqb_spec. unfold SFleb, SFeqb.
  destruct (SFcompare (Prim2SF a) (Prim2SF b)) as [[]|]; congruence.
Qed.

Lemma leb_antisym a b : (a <=? b) = true -> (b <=? a) = true -> (a =? b) = true.
Proof.
  rewrite !leb_spec, FloatAxioms.eqb_spec. unfold SFleb, SFeqb.
  destruct (SFcompare (Prim2SF a) (Prim2SF b)) as [c|] eqn:E; [|discriminate].
  rewrite (SFcompare_antisym _ _ _ E). destruct c; simpl; congruence.
Qed.

Lemma ltb_eqb_false a b : (a <? b) = true -> (a =? b) = false /\ (b =? a) = false.
Proof.
  rewrite ltb_spec, !FloatAxioms.eqb_spec. unfold SFltb, SFeqb.
  destruct (SFcompare (Prim2SF a) (Prim2SF b)) as [[]|] eqn:E; try discriminate.
  intros _. rewrite (SFcompare_antisym _ _ _ E). split; reflexivity.
Qed.

(** *** The same value, the sign of a zero apart *)

Lemma same_value_refl x : F64.same_value x x.
Proof. now left. Qed.

Lemma same_value_sym x y : F64.same_value x y -> F64.same_value y x.
Proof. intros [->|[? ?]]; [now left|now right]. Qed.

Lemma same_value_trans x y z : F64.same_value x y -> F64.same_value y z -> F64.same_value x z.
Proof.
  intros [->|[Hx Hy]] [->|[Hy' Hz]]; try (now left); try (now right).
Qed.

Lemma same_value_is_nan x y : F64.same_value x y -> is_nan x = is_nan y.
Proof.
  intros [->|[Hx Hy]]; [reflexivity|].
  apply is_zero_spec in Hx as [sx Hx]. apply is_zero_spec in Hy as [sy Hy].
  destruct (is_nan x) eqn:Ex.
  - apply is_nan_spec in Ex. congruence.
  - destruct (is_nan y) eqn:Ey; [|reflexivity]. apply is_nan_spec in Ey. congruence.
Qed.

(** *** Addition *)

Lemma add_zero_r x : F64.same_value (x + 0) x.
Proof.
  destruct (Prim2SF x) as [s|s| |s m e] eqn:E.
  - right. split; apply is_zero_spec.
    + exists false. rewrite add_spec, E.
      change (Prim2SF 0) with (S754_zero false). destruct s; reflexivity.
    + eauto.
  - left. apply Prim2SF_inj. rewrite add_spec, E. reflexivity.
  - left. apply Prim2SF_inj. rewrite add_spec, E. reflexivity.
  - left. apply Prim2SF_inj. rewrite add_spec, E. reflexivity.
Qed.

Lemma add_same_value x y b : F64.same_value x y -> F64.same_value (x + b) (y + b).
Proof.
  intros [->|[Hx Hy]]; [now left|].
  apply is_zero_spec in Hx as [sx Hx]. apply is_zero_spec in Hy as [sy Hy].
  destruct (Prim2SF b) as [s|s| |s m e] eqn:E.
  - right. split; apply is_zero_spec; rewrite add_spec, ?Hx, ?Hy, E.
    + destruct sx, s; simpl; eauto.
    + destruct sy, s; simpl; eauto.
  - left. apply Prim2SF_inj. rewrite !add_spec, Hx, Hy, E. reflexivity.
  - left. apply Prim2SF_inj. rewrite !add_spec, Hx, Hy, E. reflexivity.
  - left. apply Prim2SF_inj. rewrite !add_spec, Hx, Hy, E. reflexivity.
Qed.

Lemma add_neg_infinity_r x : (x <? infinity) = true -> x + neg_infinity = neg_infinity.
Proof.
  intros H. apply Prim2SF_inj. rewrite add_spec.
  rewrite ltb_spec in H. unfold SFltb in H.
  change (Prim2SF infinity) with (S754_infinity false) in H.
  change (Prim2SF neg_infinity) with (S754_infinity true).
  destruct (Prim2SF x) as [s|[]| |s m e]; simpl in *; try discriminate; reflexivity.
Qed.

Lemma add_zero_lt_infinity x : (x <? infinity) = true -> (x + 0 <? infinity) = true.
Proof.
  intros H. destruct (add_zero_r x) as [->|[Hz _]]; [assumption|].
  apply is_zero_spec in Hz as [s Hs]. rewrite ltb_spec, Hs. reflexivity.
Qed.

(** *** Rounding never turns a non-negative mantissa into a NaN *)


Lemma shr_1_nonneg mrs : (0 <= shr_m mrs)%Z -> (0 <= shr_m (shr_1 mrs))%Z.
Proof.
  destruct mrs as [m r s]. simpl. destruct m as [|[p|p|]|[p|p|]]; simpl; lia.
Qed.

Lemma iter_pos_nonneg n mrs :
  (0 <= shr_m mrs)%Z -> (0 <= shr_m (SpecFloat.iter_pos shr_1 n mrs))%Z.
Proof.
  revert mrs. induction n as [n IH|n IH|]; intros mrs H; simpl.
  - apply IH, IH, shr_1_nonneg, H.
  - apply IH, IH, H.
  - apply shr_1_nonneg, H.
Qed.

Lemma shr_fexp_nonneg m e l :
  (0 <= m)%Z -> (0 <= shr_m (fst (shr_fexp prec emax m e l)))%Z.
Proof.
  intros H. unfold shr_fexp, shr.
  assert (H0 : (0 <= shr_m (shr_record_of_loc m l))%Z).
  { destruct l as [|[]]; simpl; exact H. }
  destruct (fexp prec emax (Zdigits2 m + e) - e)%Z; simpl; try exact H0.
  apply iter_pos_nonneg, H0.
Qed.

Lemma round_nearest_even_nonneg m l :
  (0 <= m)%Z -> (0 <= round_nearest_even m l)%Z.
Proof.
  intros H. destruct l as [|[]]; simpl; try lia.
  destruct (Z.even m); lia.
Qed.

Lemma binary_round_aux_sign s m e l :
  (0 <= m)%Z -> F64.has_sign s (binary_round_aux prec emax s m e l).
Proof.
  intros H. unfold binary_round_aux.
  pose proof (shr_fexp_nonneg m e l H) as H1.
  destruct (shr_fexp prec emax m e l) as [mrs' e']. simpl in H1.
  pose proof (round_nearest_even_nonneg _ (loc_of_shr_record mrs') H1) as H2.
  pose proof (shr_fexp_nonneg _ e' loc_Exact H2) as H3.
  destruct (shr_fexp prec emax (round_nearest_even (shr_m mrs') (loc_of_shr_record mrs')) e' loc_Exact)
    as [mrs'' e''].
  simpl in H3. destruct (shr_m mrs''); simpl.
  - reflexivity.
  - match goal with |- context [if ?c then _ else _] => destruct c end; reflexivity.
  - lia.
Qed.

Lemma binary_round_sign s m e : F64.has_sign s (binary_round prec emax s m e).
Proof.
  unfold binary_round.
  destruct (shl_align m e (fexp prec emax (Z.pos (digits2_pos m) + e))) as [mz ez].
  apply binary_round_aux_sign. lia.
Qed.

Lemma has_sign_true_nonpos x : F64.has_sign true x -> F64.nonpos x.
Proof. destruct x as [s|s| |s m e]; simpl; try intros ->; try reflexivity. intros []. Qed.

Lemma SFadd_nonpos a b : F64.nonpos a -> F64.nonpos b -> F64.nonpos (SF64add a b).
Proof.
  unfold F64.nonpos, SF64add.
  destruct a as [sa|[]| |[] ma ea], b as [sb|[]| |[] mb eb]; simpl;
    try discriminate; try reflexivity; intros _ _.
  - destruct sa, sb; reflexivity.
  - apply has_sign_true_nonpos.
    change (F64.has_sign true (binary_round prec emax true
      (fst (shl_align ma ea (Z.min ea eb)) + fst (shl_align mb eb (Z.min ea eb)))%positive
      (Z.min ea eb))).
    apply binary_round_sign.
Qed.

(** The sum of two numbers that are at most zero is a number that is at most
    zero: it is never NaN and never plus infinity. *)
Lemma add_nonpos a b : (a <=? 0) = true -> (b <=? 0) = true -> (a + b <=? 0) = true.
Proof.
  rewrite !leb_spec, add_spec. change (Prim2SF 0) with (S754_zero false).
  apply SFadd_nonpos.
Qed.

Lemma eqb_sym a b : (a =? b) = (b =? a).
Proof.
  rewrite !FloatAxioms.eqb_spec. unfold SFeqb.
  destruct (SFcompare (Prim2SF a) (Prim2SF b)) as [c|] eqn:E.
  - rewrite (SFcompare_antisym _ _ _ E). destruct c; reflexivity.
  - destruct (SFcompare (Prim2SF b) (Prim2SF a)) as [c|] eqn:E'; [|reflexivity].
    rewrite (SFcompare_antisym _ _ _ E') in E. discriminate.
Qed.

(** For numbers, [b <= a] is the negation of [a < b]. *)
Lemma leb_negb_ltb a b :
  is_nan a = false -> is_nan b = false -> (b <=? a) = negb (a <? b).
Proof.
  intros Ha Hb. destruct (a <? b) eqn:E; simpl.
  - apply ltb_leb_false, E.
  - apply not_ltb_leb; assumption.
Qed.

Lemma zero_ltb_leb_trans x y : (0 <? x) = true -> (x <=? y) = true -> (0 <? y) = true.
Proof.
  rewrite !ltb_spec, leb_spec. unfold SFltb, SFleb.
  change (Prim2SF 0) with (S754_zero false).
  destruct (Prim2SF x) as [sx|[]| |[] mx ex], (Prim2SF y) as [sy|[]| |[] my ey];
    simpl; try discriminate; try reflexivity.
Qed.

Lemma zero_leb_cases x : (0 <=? x) = true -> (0 <? x) = true \/ is_zero x = true.
Proof.
  intros H. destruct (leb_cases _ _ H) as [Hl|He]; [now left|right].
  unfold is_zero. now rewrite eqb_sym.
Qed.

Lemma is_zero_not_pos x : is_zero x = true -> (0 <? x) = false.
Proof.
  intros H. destruct (0 <? x) eqn:E; [|reflexivity].
  destruct (ltb_eqb_false _ _ E) as [_ H']. unfold is_zero in H.
  change zero with 0%float in H. congruence.
Qed.

Lemma neg_infinity_add_pot p :
  p = 0 \/ p = neg_infinity -> neg_infinity + p = neg_infinity.
Proof. intros [->| ->]; reflexivity. Qed.

(** *** Signs of products and of converted indices *)

Lemma binary_normalize_nonneg_sign m e :
  (0 <= m)%Z -> F64.has_sign false (binary_normalize prec emax m e false).
Proof.
  destruct m as [|m|m]; simpl; intros H; [reflexivity|apply binary_round_sign|lia].
Qed.

Lemma of_nat_sign (i : nat) : F64.has_sign false (Prim2SF (F64.of_nat i)).
Proof.
  unfold F64.of_nat. rewrite of_uint63_spec.
  apply binary_normalize_nonneg_sign. apply Uint63.to_Z_bounded.
Qed.

Lemma SFmul_sign_finite a sa sb mb eb :
  F64.has_sign sa a -> F64.has_sign (xorb sa sb) (SF64mul a (S754_finite sb mb eb)).
Proof.
  unfold SF64mul. destruct a as [s|s| |s m e]; simpl; intros H; try contradiction;
    subst; try reflexivity.
  apply binary_round_aux_sign. lia.
Qed.

Lemma mul_step_sign (i : nat) : F64.has_sign false (Prim2SF (F64.of_nat i * 0.2)).
Proof.
  rewrite mul_spec.
  change (Prim2SF 0.2) with (S754_finite false 7205759403792794 (-55)).
  apply (SFmul_sign_finite _ false false), of_nat_sign.
Qed.

Lemma zero_add_signed y : F64.has_sign false (Prim2SF y) -> 0 + y = y.
Proof.
  intros H. apply Prim2SF_inj. rewrite add_spec.
  change (Prim2SF 0) with (S754_zero false).
  destruct (Prim2SF y) as [s|s| |s m e]; simpl in *; subst; reflexivity.
Qed.

Lemma signed_nonneg y : F64.has_sign false (Prim2SF y) -> (0 <=? y) = true.
Proof.
  intros H. rewrite leb_spec. change (Prim2SF 0) with (S754_zero false).
  destruct (Prim2SF y) as [s|s| |s m e]; simpl in *; subst; try reflexivity.
  contradiction.
Qed.

End F64Facts.

(** ** Loading the trace *)

Section TraceFacts.

Lemma stride_lookup {A : Type} (k : nat) (xs : list A) :
  (1 <= k)%nat ->
  forall skip j, Np.stride k skip xs !! j = xs !! (skip + j * k)%nat.
Proof.
  intros Hk. induction xs as [|x t IH]; intros skip j; simpl.
  - reflexivity.
  - destruct skip as [|s].
    + destruct j as [|j']; simpl; [reflexivity|].
      rewrite IH. replace (k + j' * k)%nat with (S (k - 1 + j' * k)) by lia.
      reflexivity.
    + rewrite IH. reflexivity.
Qed.

Lemma stride_past_end {A : Type} (k skip : nat) (xs : list A) :
  (length xs <= skip)%nat -> Np.stride k skip xs = [].
Proof.
  revert skip. induction xs as [|x t IH]; intros skip H; simpl in *; [reflexivity|].
  destruct skip as [|s]; [lia|]. apply IH. lia.
Qed.

Lemma slice_from_past_end {A : Type} (xs : list A) (start step : Z) :
  (Z.of_nat (length xs) <= start)%Z -> (0 < step)%Z ->
  Np.slice_from start step xs = Ok [].
Proof.
  intros Hs Hk. unfold Np.slice_from.
  destruct (Z.eqb_spec step 0); [lia|].
  destruct (Z.ltb_spec 0 step); [|lia].
  destruct (Z.ltb_spec start 0); [lia|].
  rewrite Z.min_r by lia. rewrite Nat2Z.id.
  rewrite drop_all. reflexivity.
Qed.

(** Element [j] of a forward slice is element [burnin + j * thinF] of the
    chain: the first [burnin] samples are dropped and every [thinF]-th of the
    rest is kept. *)
Lemma slice_from_lookup {A : Type} (xs : list A) (burnin thinF : nat) :
  (1 <= thinF)%nat ->
  exists vals, Np.slice_from (Z.of_nat burnin) (Z.of_nat thinF) xs = Ok vals /\
    forall j, vals !! j = xs !! (burnin + j * thinF)%nat.
Proof.
  intros Hk. unfold Np.slice_from.
  destruct (Z.eqb_spec (Z.of_nat thinF) 0); [lia|].
  destruct (Z.ltb_spec 0 (Z.of_nat thinF)); [|lia].
  destruct (Z.ltb_spec (Z.of_nat burnin) 0); [lia|].
  eexists; split; [reflexivity|]. intros j.
  rewrite Nat2Z.id, stride_lookup by lia. simpl.
  destruct (Nat.le_gt_cases burnin (length xs)) as [Hle|Hgt].
  - rewrite Z.min_l by lia. rewrite Nat2Z.id, lookup_drop. reflexivity.
  - rewrite Z.min_r by lia. rewrite Nat2Z.id, drop_all.
    symmetry. apply lookup_ge_None_2. lia.
Qed.

(** With exactly one chain the loader returns that chain's slice, which is
    also what the specification's concatenation gives. *)
Lemma load_param_single_chain (M2 : Posterior.trace) (burnin thinF : Z) (p : string)
    (cs : Posterior.chains) (c0 : list float) :
  M2 !! p = Some cs -> cs !! 0%nat = Some c0 -> size cs = 1%nat ->
  Posterior.load_param M2 burnin thinF p = Np.slice_from burnin thinF c0 /\
  Posterior.load_param_spec M2 burnin thinF p = Np.slice_from burnin thinF c0.
Proof.
  intros Hp H0 Hn. unfold Posterior.load_param, Posterior.load_param_spec.
  rewrite Hp. simpl. rewrite Hn. simpl. rewrite H0. simpl.
  destruct (Np.slice_from burnin thinF c0) as [vals|e]; simpl; [|auto].
  rewrite app_nil_r. auto.
Qed.

(** With more than one chain the loader never gets to the second chain. *)
Lemma load_param_many_chains (M2 : Posterior.trace) (burnin thinF : Z) (p : string)
    (cs : Posterior.chains) (c0 : list float) :
  M2 !! p = Some cs -> cs !! 0%nat = Some c0 -> (1 < size cs)%nat ->
  thinF <> 0%Z ->
  Posterior.load_param M2 burnin thinF p = Raise TypeError.
Proof.
  intros Hp H0 Hn Hk. unfold Posterior.load_param. rewrite Hp. simpl. rewrite H0. simpl.
  unfold Np.slice_from. destruct (Z.eqb_spec thinF 0); [contradiction|].
  destruct (0 <? thinF)%Z; simpl;
    (destruct (Nat.ltb_spec 1 (size cs)); [reflexivity|lia]).
Qed.

(** C6 (the code departs from the claim): on a trace with two chains the
    loader raises [TypeError] at [nchains[1:]], where the claim asks for the
    concatenation of the two per-chain slices. *)
Theorem load_param_two_chains_raises :
  Posterior.load_param Ref.two_chain_trace 0 1 "p" = Raise TypeError /\
  Posterior.load_param_spec Ref.two_chain_trace 0 1 "p" = Ok [1; 2; 3; 4]%float.
Proof. split; vm_compute; reflexivity. Qed.

(** C7, as stated, fails: with a burn-in equal to the chain length the
    loader raises nothing and hands back an empty sample array. *)
Lemma load_param_burnin_not_refused :
  is_ok (Posterior.load_param Ref.short_trace 3 1 "p") = true /\
  Posterior.load_param Ref.short_trace 3 1 "p" = Ok [].
Proof. split; vm_compute; reflexivity. Qed.

(** C7 (amended): when the burn-in is at least the length of the only chain
    (thinning factor positive), loading does not fail; the parameter's sample
    array is empty. *)
Theorem load_param_burnin_past_end (M2 : Posterior.trace) (burnin thinF : Z) (p : string)
    (cs : Posterior.chains) (c0 : list float) :
  M2 !! p = Some cs -> cs !! 0%nat = Some c0 -> size cs = 1%nat ->
  (Z.of_nat (length c0) <= burnin)%Z -> (0 < thinF)%Z ->
  Posterior.load_param M2 burnin thinF p = Ok [].
Proof.
  intros Hp H0 Hn Hb Hk.
  destruct (load_param_single_chain M2 burnin thinF p cs c0 Hp H0 Hn) as [-> _].
  apply slice_from_past_end; assumption.
Qed.

(** C7 at the reference trace: three samples, burn-in 5, thinning 2. *)
Lemma load_param_burnin_past_end_witness :
  Posterior.load_param Ref.short_trace 5 2 "p" = Ok [].
Proof.
  apply (load_param_burnin_past_end Ref.short_trace 5 2 "p"
           {[ 0%nat := [1; 2; 3]%float ]} [1; 2; 3]%float).
  - reflexivity.
  - reflexivity.
  - reflexivity.
  - simpl. lia.
  - lia.
Defined.

End TraceFacts.

(** ** The likelihood terms *)

Section LikelihoodFacts.

Local Open Scope float_scope.

Lemma index_array_ok (xs : list float) (value : list nat) :
  Forall (fun j => (j < length xs)%nat) value ->
  Np.index_array xs value = Ok (map (fun j => nth j xs 0) value).
Proof.
  unfold Np.index_array. induction 1 as [|j value Hj _ IH]; simpl; [reflexivity|].
  destruct (lookup_lt_is_Some_2 xs j Hj) as [x Hx]. rewrite Hx. simpl.
  rewrite IH. simpl. f_equal. f_equal.
  symmetry. apply nth_lookup_Some with (d := 0%float) in Hx. exact Hx.
Qed.

(** [if any(res<0): res[res<0]=0] replaces the negative entries by zero,
    whether or not there are any. *)
Lemma masked_floor (res : list float) :
  (if existsb id (map (fun x => x <? 0) res)
   then map (fun x => if x <? 0 then 0 else x) res
   else res) = map (fun x => if x <? 0 then 0 else x) res.
Proof.
  destruct (existsb id (map (fun x => x <? 0) res)) eqn:E; [reflexivity|].
  induction res as [|x t IH]; simpl in *; [reflexivity|].
  apply orb_false_iff in E as [Ex Et]. unfold id in Ex. rewrite Ex.
  f_equal. apply IH, Et.
Qed.

Lemma mixture_rows (nf I : float) (probdI probdU : list float) (value : list nat) :
  zip_with add (map (mul (I / nf)) (map (fun j => nth j probdI 0) value))
               (map (mul (1 - I / nf)) (map (fun j => nth j probdU 0) value))
  = map (Likelihood.mixture_at nf I probdI probdU) value.
Proof.
  induction value as [|j t IH]; simpl; [reflexivity|]. now rewrite IH.
Qed.

Variable np_log : float -> float.

(** Flooring what is negative and flooring what is [<= 0] differ on the zeros
    only, where the logarithm is minus infinity either way. *)
Lemma log_floor_neg_nonpos (x : float) :
  Likelihood.log_of_zero np_log ->
  np_log (if x <? 0 then 0 else x) = Likelihood.floored_log np_log x.
Proof.
  intros Hlog0. unfold Likelihood.floored_log.
  destruct (x <? 0) eqn:Elt.
  - now rewrite (F64Facts.ltb_leb _ _ Elt).
  - destruct (x <=? 0) eqn:Ele; [|reflexivity].
    destruct (F64Facts.leb_cases _ _ Ele) as [H|H]; [congruence|].
    rewrite (Hlog0 x H). symmetry. apply Hlog0. reflexivity.
Qed.

Lemma floored_log_nonpos (x : float) :
  Likelihood.log_of_zero np_log -> (x <=? 0) = true -> Likelihood.floored_log np_log x = neg_infinity.
Proof.
  intros Hlog0 H. unfold Likelihood.floored_log. rewrite H. apply Hlog0. reflexivity.
Qed.

Lemma floored_log_le_zero (x : float) :
  Likelihood.log_of_zero np_log -> Likelihood.log_of_probability np_log ->
  (x <=? 1) = true -> (Likelihood.floored_log np_log x <=? 0) = true.
Proof.
  intros Hlog0 Hlog1 H1. unfold Likelihood.floored_log.
  destruct (x <=? 0) eqn:E0.
  - rewrite Hlog0 by reflexivity. reflexivity.
  - apply Hlog1; [|exact H1].
    destruct (F64Facts.leb_not_nan _ _ H1) as [Hx _].
    destruct (0 <? x) eqn:Epos; [reflexivity|].
    assert (Hz : is_nan 0 = false) by reflexivity.
    pose proof (F64Facts.not_ltb_leb 0 x Hz Hx Epos). congruence.
Qed.

Lemma fold_add_nonpos (xs : list float) (a : float) :
  (a <=? 0) = true -> Forall (fun x => (x <=? 0) = true) xs ->
  (fold_left add xs a <=? 0) = true.
Proof.
  intros Ha H. revert a Ha.
  induction H as [|x t Hx _ IH]; intros a Ha; simpl; [exact Ha|].
  apply IH. apply F64Facts.add_nonpos; assumption.
Qed.

Lemma np_sum_nonpos (xs : list float) :
  Forall (fun x => (x <=? 0) = true) xs -> (Np.sum xs <=? 0) = true.
Proof. apply fold_add_nonpos. reflexivity. Qed.

(** The death term is the sum of the floored logarithms of the mixtures. *)
Lemma likelihood_deaths_sum (value : list nat) (nf I : float)
    (probdI probdU : list float) :
  Likelihood.log_of_zero np_log ->
  Forall (fun j => (j < length probdI)%nat /\ (j < length probdU)%nat) value ->
  Likelihood.likelihood_deaths np_log value nf I probdI probdU
  = Ok (Np.sum (map (fun j => Likelihood.floored_log np_log
                                (Likelihood.mixture_at nf I probdI probdU j)) value)).
Proof.
  intros Hlog0 Hidx. unfold Likelihood.likelihood_deaths.
  rewrite (index_array_ok probdI value), (index_array_ok probdU value).
  2: { eapply Forall_impl; [exact Hidx|]. simpl. tauto. }
  2: { eapply Forall_impl; [exact Hidx|]. simpl. tauto. }
  simpl. rewrite masked_floor, mixture_rows, !map_map.
  do 2 f_equal. apply map_ext. intros j. apply log_floor_neg_nonpos, Hlog0.
Qed.

(** C3, as stated, fails: a mixture value that is NaN is not negative, so it
    is not floored, and the function returns NaN.  This holds for any
    logarithm that maps NaN to NaN, as [numpy.log] does. *)
Lemma likelihood_deaths_nan_mixture :
  ~ exists (log : float -> float) (r : float),
      log nan = nan /\
      Likelihood.likelihood_deaths log [0%nat] 20 10 [nan] [0.5] = Ok r /\
      is_nan r = false.
Proof.
  intros (log & r & Hnan & Hr & Hnot).
  unfold Likelihood.likelihood_deaths in Hr. simpl in Hr.
  change (10 / 20 * nan + (1 - 10 / 20) * 0.5) with nan in Hr.
  change (nan <? 0) with false in Hr. simpl in Hr.
  unfold Np.sum in Hr. simpl in Hr. injection Hr as <-.
  change (is_nan (0 + log nan) = false) in Hnot.
  rewrite Hnan in Hnot. discriminate.
Qed.

(** C3 (amended): the death log-likelihood is the sum over the observed
    intervals of the logarithm of the mixture (I/n)*probDeathInfected +
    (1 - I/n)*probDeathUninfected with every mixture value [<= 0] floored to
    0 before the logarithm; such an interval contributes minus infinity; and
    the result is not NaN when every mixture value is a number that is at
    most 1 (a NaN mixture value is not floored). *)
Theorem likelihood_deaths_floored (value : list nat) (nf I : float)
    (probdI probdU : list float) :
  Likelihood.log_of_zero np_log ->
  Forall (fun j => (j < length probdI)%nat /\ (j < length probdU)%nat) value ->
  let mix := Likelihood.mixture_at nf I probdI probdU in
  let term := fun j => Likelihood.floored_log np_log (mix j) in
  Likelihood.likelihood_deaths np_log value nf I probdI probdU
    = Ok (Np.sum (map term value)) /\
  (forall j, In j value -> (mix j <=? 0) = true -> term j = neg_infinity) /\
  (Likelihood.log_of_probability np_log ->
   Forall (fun j => (mix j <=? 1) = true) value ->
   forall r, Likelihood.likelihood_deaths np_log value nf I probdI probdU = Ok r ->
             is_nan r = false).
Proof.
  intros Hlog0 Hidx mix term.
  pose proof (likelihood_deaths_sum value nf I probdI probdU Hlog0 Hidx) as Heq.
  split; [exact Heq|]. split.
  - intros j _ Hj. apply floored_log_nonpos; assumption.
  - intros Hlog1 Hprob r Hr. rewrite Heq in Hr. injection Hr as <-.
    apply (F64Facts.leb_not_nan _ 0). apply np_sum_nonpos.
    apply Forall_map. eapply Forall_impl; [exact Hprob|]. simpl.
    intros j Hj. apply floored_log_le_zero; assumption.
Qed.

Variable np_power : float -> Z -> float.

(** C4 (the code departs from the claim): the floor is applied to the power,
    not to the mixture.  For a negative mixture, with a logarithm that is
    minus infinity at 0 and a power that is 0 at 0, the claim's term is minus
    infinity, and so is the death term of the same mixture, which floors it
    before the logarithm.  The survivor term is minus infinity when the power
    is negative, as for an odd survivor count; when the power is positive,
    as for an even survivor count, it is the logarithm of that power, which
    is not the claim's term. *)
Theorem likelihood_survivors_negative_mixture (v : Z) (nf I probsI probsU : float) :
  let m := Likelihood.mixture nf I probsI probsU in
  (m <? 0) = true ->
  np_power 0 v = 0 ->
  np_log 0 = neg_infinity ->
  Likelihood.likelihood_survivors_spec np_log np_power v nf I probsI probsU
  = neg_infinity /\
  Likelihood.likelihood_deaths np_log [0%nat] nf I [probsI] [probsU]
  = Ok (Np.sum [neg_infinity]) /\
  ((np_power m v <? 0) = true ->
   Likelihood.likelihood_survivors np_log np_power v nf I probsI probsU
   = neg_infinity) /\
  ((0 <? np_power m v) = true ->
   np_log (np_power m v) <> neg_infinity ->
   Likelihood.likelihood_survivors np_log np_power v nf I probsI probsU
   = np_log (np_power m v) /\
   Likelihood.likelihood_survivors np_log np_power v nf I probsI probsU
   <> Likelihood.likelihood_survivors_spec np_log np_power v nf I probsI probsU).
Proof.
  intros m Hm Hp0 Hl0.
  assert (Hspec : Likelihood.likelihood_survivors_spec np_log np_power v nf I
                    probsI probsU = neg_infinity).
  { unfold Likelihood.likelihood_survivors_spec. fold m. now rewrite Hm, Hp0. }
  split; [exact Hspec|]. split; [|split].
  - unfold Likelihood.likelihood_deaths, Np.index_array. simpl.
    fold (Likelihood.mixture nf I probsI probsU). fold m. rewrite Hm. simpl.
    now rewrite Hl0.
  - intros Hneg. unfold Likelihood.likelihood_survivors. fold m. now rewrite Hneg.
  - intros Hpos Hfin.
    assert (Hcode : Likelihood.likelihood_survivors np_log np_power v nf I
                      probsI probsU = np_log (np_power m v)).
    { unfold Likelihood.likelihood_survivors. fold m.
      now rewrite (F64Facts.ltb_asym _ _ Hpos). }
    split; [exact Hcode|]. rewrite Hcode, Hspec. exact Hfin.
Qed.

End LikelihoodFacts.

(** ** The target distribution *)

Section ModelFacts.

Local Open Scope float_scope.

(** *** Loops *)

Lemma for_each_map {A B : Type} (f : A -> result B) (g : A -> B) (xs : list A) :
  (forall x, In x xs -> f x = Ok (g x)) -> for_each f xs = Ok (map g xs).
Proof.
  induction xs as [|x t IH]; intros H; simpl; [reflexivity|].
  rewrite (H x) by (now left). simpl.
  rewrite IH by (intros y Hy; apply H; now right). reflexivity.
Qed.

(** *** Which dose indices the likelihood loops over *)

Lemma count_zero_cons (x : float) (ds : list float) :
  Model.count_zero (x :: ds)
  = ((if is_zero x then 1 else 0) + Model.count_zero ds)%nat.
Proof.
  unfold Model.count_zero, is_zero. change zero with 0%float.
  rewrite filter_cons. destruct (x =? 0) eqn:E.
  - rewrite decide_True by reflexivity. reflexivity.
  - rewrite decide_False by discriminate. reflexivity.
Qed.

Lemma count_zero_none (ds : list float) :
  Forall (fun y => (0 <? y) = true) ds -> Model.count_zero ds = 0%nat.
Proof.
  induction 1 as [|y t Hy _ IH]; [reflexivity|].
  rewrite count_zero_cons, IH.
  destruct (is_zero y) eqn:E; [|reflexivity].
  rewrite (F64Facts.is_zero_not_pos _ E) in Hy. discriminate.
Qed.

Lemma ascending_tail (x : float) (ds : list float) :
  Model.ascending (x :: ds) -> Model.ascending ds.
Proof.
  intros H i j a b Hij Ha Hb. apply (H (S i) (S j) a b); [lia|exact Ha|exact Hb].
Qed.

(** In ascending non-negative doses the zero doses come first: a dose is
    positive exactly when its index is at least the number of zero doses. *)
Lemma positive_dose_index (ds : list float) :
  Model.non_negative ds -> Model.ascending ds ->
  forall i x, ds !! i = Some x ->
              ((0 <? x) = true <-> (Model.count_zero ds <= i)%nat).
Proof.
  induction ds as [|x0 t IH]; intros Hnn Hasc i x Hi; [discriminate|].
  rewrite count_zero_cons.
  pose proof (Forall_inv Hnn) as Hx0. pose proof (Forall_inv_tail Hnn) as Hnn'.
  pose proof (ascending_tail _ _ Hasc) as Hasc'.
  destruct (is_zero x0) eqn:Ez.
  - destruct i as [|i']; simpl in Hi.
    + injection Hi as <-. rewrite (F64Facts.is_zero_not_pos _ Ez).
      split; [discriminate|lia].
    + rewrite (IH Hnn' Hasc' i' x Hi). simpl. lia.
  - assert (Hpos0 : (0 <? x0) = true).
    { destruct (F64Facts.zero_leb_cases _ Hx0) as [H|H]; [exact H|congruence]. }
    assert (Hall : Forall (fun y => (0 <? y) = true) (x0 :: t)).
    { apply Forall_lookup. intros j y Hj.
      apply (F64Facts.zero_ltb_leb_trans x0 y Hpos0).
      apply (Hasc 0%nat j x0 y); [lia|reflexivity|exact Hj]. }
    rewrite (count_zero_none t (Forall_inv_tail Hall)). simpl.
    split; [lia|]. intros _.
    exact (proj1 (Forall_lookup _ _) Hall i x Hi).
Qed.

Lemma count_zero_le_length (ds : list float) :
  (Model.count_zero ds <= length ds)%nat.
Proof.
  induction ds as [|x t IH]; [reflexivity|].
  rewrite count_zero_cons. simpl. destruct (is_zero x); lia.
Qed.

Lemma in_dose_range (d : Model.Data) (i : nat) :
  In i (Model.dose_range d)
  <-> (Model.count_zero (Model.doses d) <= i < length (Model.doses d))%nat.
Proof.
  unfold Model.dose_range. rewrite in_seq.
  pose proof (count_zero_le_length (Model.doses d)). lia.
Qed.

(** With well-formed data the loop runs over the doses that are positive. *)
Lemma dose_range_positive (d : Model.Data) (i : nat) (dose : float) :
  Model.well_formed d -> Model.doses d !! i = Some dose ->
  (In i (Model.dose_range d) <-> (0 <? dose) = true).
Proof.
  intros Hwf Hi. rewrite in_dose_range.
  rewrite (positive_dose_index _ (Model.wf_non_negative d Hwf)
             (Model.wf_ascending d Hwf) i dose Hi).
  pose proof (lookup_lt_Some _ _ _ Hi). lia.
Qed.

(** *** The list of likelihood terms *)

Lemma block_ok (d : Model.Data) (l : Model.latent) (i : nat) :
  (i < length (Model.survivors d (Model.group_of l)))%nat ->
  Model.block d l i = Ok (Model.blk d l i).
Proof.
  intros Hi. unfold Model.block, Model.blk.
  destruct (lookup_lt_is_Some_2 _ _ Hi) as [s Hs]. rewrite Hs. simpl.
  now rewrite (nth_lookup_Some _ _ 0%Z _ Hs).
Qed.

Lemma block_in_range (d : Model.Data) (l : Model.latent) (i : nat) :
  Model.well_formed d -> In i (Model.dose_range d) ->
  Model.block d l i = Ok (Model.blk d l i).
Proof.
  intros Hwf Hi. apply block_ok. rewrite (Model.wf_survivors d Hwf).
  apply in_dose_range in Hi. lia.
Qed.

Lemma timeEst_liks_ok (d : Model.Data) :
  Model.well_formed d ->
  Model.timeEst_liks d
  = Ok (flat_map (fun i => Model.blk d Model.Ig1d i ++ Model.blk d Model.Ig2d i)
                 (Model.dose_range d)).
Proof.
  intros Hwf. unfold Model.timeEst_liks.
  rewrite (for_each_map _ (fun i => Model.blk d Model.Ig1d i ++ Model.blk d Model.Ig2d i)).
  - simpl. now rewrite flat_map_concat_map.
  - intros i Hi. now rewrite !(block_in_range d _ i Hwf Hi).
Qed.

Lemma submodel_liks_ok (d : Model.Data) (l : Model.latent) :
  Model.well_formed d ->
  Model.submodel_liks d l = Ok (flat_map (Model.blk d l) (Model.dose_range d)).
Proof.
  intros Hwf. unfold Model.submodel_liks.
  rewrite (for_each_map _ (Model.blk d l)).
  - simpl. now rewrite flat_map_concat_map.
  - intros i Hi. exact (block_in_range d l i Hwf Hi).
Qed.

Lemma timeTestHom_liks_ok (d : Model.Data) :
  Model.well_formed d ->
  Model.timeTestHom_liks d
  = Ok (flat_map (Model.blk d Model.I1hom) (Model.dose_range d)
        ++ flat_map (Model.blk d Model.I2hom) (Model.dose_range d)
        ++ flat_map (Model.blk d Model.I1het) (Model.dose_range d)
        ++ flat_map (Model.blk d Model.I2het) (Model.dose_range d)).
Proof.
  intros Hwf. unfold Model.timeTestHom_liks.
  now rewrite !(submodel_liks_ok d _ Hwf).
Qed.

(** What a block holds. *)
Lemma in_blk (d : Model.Data) (l : Model.latent) (i : nat) (n : Model.node) :
  In n (Model.blk d l i)
  <-> n = Model.LD l i
      \/ (n = Model.LS l i /\ (0 < nth i (Model.survivors d (Model.group_of l)) 0%Z)%Z).
Proof.
  unfold Model.blk.
  destruct (Z.ltb_spec 0 (nth i (Model.survivors d (Model.group_of l)) 0%Z)) as [H|H]; simpl.
  - split.
    + intros [<-|[<-|[]]]; auto.
    + intros [->|[-> _]]; auto.
  - split.
    + intros [<-|[]]; auto.
    + intros [->|[-> H']]; [auto|lia].
Qed.

Lemma timeEst_made_of_blocks (d : Model.Data) :
  Model.made_of_blocks d Model.timeEst_families
    (flat_map (fun i => Model.blk d Model.Ig1d i ++ Model.blk d Model.Ig2d i)
              (Model.dose_range d)).
Proof.
  intros n. rewrite in_flat_map. split.
  - intros (i & Hi & Hn). apply in_app_or in Hn as [Hn|Hn].
    + exists Model.Ig1d, i. simpl. auto.
    + exists Model.Ig2d, i. simpl. auto.
  - intros (l & i & Hl & Hi & Hn). exists i. split; [exact Hi|].
    apply in_or_app. simpl in Hl. destruct Hl as [<-|[<-|[]]]; auto.
Qed.

Lemma timeTestHom_made_of_blocks (d : Model.Data) :
  Model.made_of_blocks d Model.timeTestHom_families
    (flat_map (Model.blk d Model.I1hom) (Model.dose_range d)
     ++ flat_map (Model.blk d Model.I2hom) (Model.dose_range d)
     ++ flat_map (Model.blk d Model.I1het) (Model.dose_range d)
     ++ flat_map (Model.blk d Model.I2het) (Model.dose_range d)).
Proof.
  intros n. rewrite !in_app_iff, !in_flat_map. split.
  - intros [H|[H|[H|H]]]; destruct H as (i & Hi & Hn).
    + exists Model.I1hom, i. simpl. auto.
    + exists Model.I2hom, i. simpl. auto.
    + exists Model.I1het, i. simpl. auto 6.
    + exists Model.I2het, i. simpl. auto 6.
  - intros (l & i & Hl & Hi & Hn). simpl in Hl.
    destruct Hl as [<-|[<-|[<-|[<-|[]]]]]; eauto 7.
Qed.

(** In such a list, every positive dose has the death term of every family,
    and the survivor term of a family exactly when that group's survivor
    count at the dose is positive. *)
Lemma terms_of_positive_dose (d : Model.Data) (ls : list Model.latent)
    (liks : list Model.node) (l : Model.latent) (i : nat) (dose : float) :
  Model.well_formed d -> Model.made_of_blocks d ls liks -> In l ls ->
  Model.doses d !! i = Some dose -> (0 <? dose) = true ->
  In (Model.LD l i) liks /\
  (In (Model.LS l i) liks
   <-> exists s, Model.survivors d (Model.group_of l) !! i = Some s /\ (0 < s)%Z).
Proof.
  intros Hwf Hliks Hl Hi Hpos.
  pose proof (proj2 (dose_range_positive d i dose Hwf Hi) Hpos) as Hr.
  assert (Hlt : (i < length (Model.survivors d (Model.group_of l)))%nat).
  { rewrite (Model.wf_survivors d Hwf). apply in_dose_range in Hr. lia. }
  destruct (lookup_lt_is_Some_2 _ _ Hlt) as [s Hs].
  pose proof (nth_lookup_Some _ _ 0%Z _ Hs) as Hnth.
  split.
  - apply Hliks. exists l, i. repeat split; try assumption.
    apply in_blk. now left.
  - rewrite (Hliks (Model.LS l i)). split.
    + intros (l' & i' & _ & _ & Hn). apply in_blk in Hn as [Hn|[Hn Hn']]; [discriminate|].
      injection Hn as <- <-. exists s. split; [exact Hs|lia].
    + intros (s' & Hs' & Hpos'). exists l, i. repeat split; try assumption.
      apply in_blk. right. split; [reflexivity|]. rewrite Hs in Hs'.
      injection Hs' as <-. lia.
Qed.

(** *** Leaving out the survivor terms of an empty survivor count *)

Lemma omits_refl {A : Type} (P : A -> Prop) (xs : list A) : Model.omits P xs xs.
Proof. induction xs; constructor; assumption. Qed.

Lemma omits_app {A : Type} (P : A -> Prop) (xs xs' ys ys' : list A) :
  Model.omits P xs ys -> Model.omits P xs' ys' -> Model.omits P (xs ++ xs') (ys ++ ys').
Proof.
  induction 1; intros H'; simpl; [exact H'| |]; constructor; auto.
Qed.

Lemma omits_flat_map {A B : Type} (P : B -> Prop) (f g : A -> list B) (xs : list A) :
  (forall x, In x xs -> Model.omits P (f x) (g x)) ->
  Model.omits P (flat_map f xs) (flat_map g xs).
Proof.
  induction xs as [|x t IH]; intros H; simpl; [constructor|].
  apply omits_app; [apply H; now left|]. apply IH. intros y Hy. apply H. now right.
Qed.

Lemma blk_omits (d : Model.Data) (l : Model.latent) (i : nat) :
  Model.well_formed d -> In i (Model.dose_range d) ->
  Model.omits (Model.zero_survivor_term d) (Model.blk d l i) (Model.full_block l i).
Proof.
  intros Hwf Hi. unfold Model.blk, Model.full_block.
  assert (Hlt : (i < length (Model.survivors d (Model.group_of l)))%nat).
  { rewrite (Model.wf_survivors d Hwf). apply in_dose_range in Hi. lia. }
  destruct (lookup_lt_is_Some_2 _ _ Hlt) as [s Hs].
  rewrite (nth_lookup_Some _ _ 0%Z _ Hs).
  constructor. destruct (Z.ltb_spec 0 s) as [H|H].
  - apply omits_refl.
  - constructor; [|constructor]. exists l, i. split; [reflexivity|].
    pose proof (proj1 (Forall_lookup _ _) (Model.wf_counts d Hwf (Model.group_of l)) i s Hs).
    simpl in *. replace s with 0%Z in Hs by lia. exact Hs.
Qed.

Lemma timeEst_omits (d : Model.Data) :
  Model.well_formed d ->
  Model.omits (Model.zero_survivor_term d)
    (flat_map (fun i => Model.blk d Model.Ig1d i ++ Model.blk d Model.Ig2d i)
              (Model.dose_range d))
    (Model.timeEst_liks_full d).
Proof.
  intros Hwf. unfold Model.timeEst_liks_full. apply omits_flat_map.
  intros i Hi. apply omits_app; apply blk_omits; assumption.
Qed.

Lemma timeTestHom_omits (d : Model.Data) :
  Model.well_formed d ->
  Model.omits (Model.zero_survivor_term d)
    (flat_map (Model.blk d Model.I1hom) (Model.dose_range d)
     ++ flat_map (Model.blk d Model.I2hom) (Model.dose_range d)
     ++ flat_map (Model.blk d Model.I1het) (Model.dose_range d)
     ++ flat_map (Model.blk d Model.I2het) (Model.dose_range d))
    (Model.timeTestHom_liks_full d).
Proof.
  intros Hwf. unfold Model.timeTestHom_liks_full.
  repeat apply omits_app; apply omits_flat_map; intros i Hi; apply blk_omits; assumption.
Qed.

Variable np_log : float -> float.
Variable np_power : float -> Z -> float.

(** The survivor term of a zero count is [log(mixture ** 0) = log 1 = 0]. *)
Lemma likelihood_survivors_zero_count (nf I probsI probsU : float) :
  (forall x, np_power x 0%Z = 1) -> np_log 1 = 0 ->
  Likelihood.likelihood_survivors np_log np_power 0%Z nf I probsI probsU = 0.
Proof.
  intros Hpow Hlog. unfold Likelihood.likelihood_survivors.
  rewrite Hpow. change (1 <? 0) with false. exact Hlog.
Qed.

Lemma zero_survivor_term_logp (d : Model.Data) (st : Model.State) (n : Model.node) :
  Model.well_formed d ->
  (forall x, np_power x 0%Z = 1) -> np_log 1 = 0 ->
  Model.zero_survivor_term d n ->
  Model.node_logp np_log np_power d st n = Ok 0.
Proof.
  intros Hwf Hpow Hlog (l & i & -> & Hs). simpl.
  assert (Hlt : (i < length (Model.nhosts d (Model.group_of l)))%nat).
  { rewrite (Model.wf_nhosts d Hwf), <- (Model.wf_survivors d Hwf (Model.group_of l)).
    exact (lookup_lt_Some _ _ _ Hs). }
  destruct (lookup_lt_is_Some_2 _ _ Hlt) as [nf Hnf]. rewrite Hnf, Hs. simpl.
  f_equal. apply likelihood_survivors_zero_count; assumption.
Qed.

(** Summing a list of terms and the same list with zero-valued terms left out
    gives the same outcome. *)
Lemma sum_omits {A : Type} (f : A -> result float) (code full : list A) :
  Model.omits (fun n => f n = Ok 0) code full ->
  forall a b, F64.same_value a b ->
    F64.same_result
      (let* terms := for_each f code in Ok (fold_left add terms a))
      (let* terms := for_each f full in Ok (fold_left add terms b)).
Proof.
  induction 1 as [|x xs ys _ IH|y xs ys Hy _ IH]; intros a b Hab; simpl.
  - exact Hab.
  - destruct (f x) as [v|e]; simpl; [|reflexivity].
    specialize (IH (a + v) (b + v) (F64Facts.add_same_value a b v Hab)).
    destruct (for_each f xs), (for_each f ys); simpl in *; exact IH.
  - rewrite Hy. simpl.
    assert (Hab' : F64.same_value a (b + 0)).
    { eapply F64Facts.same_value_trans; [exact Hab|].
      apply F64Facts.same_value_sym, F64Facts.add_zero_r. }
    specialize (IH a (b + 0) Hab').
    destruct (for_each f xs), (for_each f ys); simpl in *; exact IH.
Qed.

Lemma omits_weaken {A : Type} (P Q : A -> Prop) (xs ys : list A) :
  (forall x, P x -> Q x) -> Model.omits P xs ys -> Model.omits Q xs ys.
Proof. intros HPQ. induction 1; constructor; auto. Qed.

Lemma total_loglik_omits (d : Model.Data) (st : Model.State)
    (code full : list Model.node) :
  Model.well_formed d ->
  (forall x, np_power x 0%Z = 1) -> np_log 1 = 0 ->
  Model.omits (Model.zero_survivor_term d) code full ->
  F64.same_result (Model.total_loglik np_log np_power d st code)
                  (Model.total_loglik np_log np_power d st full).
Proof.
  intros Hwf Hpow Hlog Hom. unfold Model.total_loglik, Py.sum.
  apply sum_omits; [|apply F64Facts.same_value_refl].
  eapply omits_weaken; [|exact Hom].
  intros n Hn. apply zero_survivor_term_logp; assumption.
Qed.

(** C10: at every positive dose the list of likelihood terms (of timeEst.py
    and of timeTestHom.py) holds the death term of each group, and holds a
    group's survivor term exactly when that group's survivor count at the
    dose is positive; a survivor term of a zero count is worth
    [log(mixture ** 0) = log 1 = 0], and the total log-likelihood is the one
    of the list with every survivor term kept. *)
Theorem survivor_term_only_when_positive (d : Model.Data) (st : Model.State) :
  Model.well_formed d ->
  (forall x, np_power x 0%Z = 1) -> np_log 1 = 0 ->
  exists est hom,
    Model.timeEst_liks d = Ok est /\
    Model.timeTestHom_liks d = Ok hom /\
    (forall i dose, Model.doses d !! i = Some dose -> (0 <? dose) = true ->
       forall l,
         let counted := exists s, Model.survivors d (Model.group_of l) !! i = Some s
                                  /\ (0 < s)%Z in
         (In l Model.timeEst_families ->
            In (Model.LD l i) est /\ (In (Model.LS l i) est <-> counted)) /\
         (In l Model.timeTestHom_families ->
            In (Model.LD l i) hom /\ (In (Model.LS l i) hom <-> counted))) /\
    (forall l i, Model.survivors d (Model.group_of l) !! i = Some 0%Z ->
       Model.node_logp np_log np_power d st (Model.LS l i) = Ok 0) /\
    F64.same_result (Model.total_loglik np_log np_power d st est)
      (Model.total_loglik np_log np_power d st (Model.timeEst_liks_full d)) /\
    F64.same_result (Model.total_loglik np_log np_power d st hom)
      (Model.total_loglik np_log np_power d st (Model.timeTestHom_liks_full d)).
Proof.
  intros Hwf Hpow Hlog.
  eexists. eexists.
  split; [exact (timeEst_liks_ok d Hwf)|].
  split; [exact (timeTestHom_liks_ok d Hwf)|].
  split; [|split; [|split]].
  - intros i dose Hi Hpos l counted. split; intros Hl.
    + exact (terms_of_positive_dose d _ _ l i dose Hwf
               (timeEst_made_of_blocks d) Hl Hi Hpos).
    + exact (terms_of_positive_dose d _ _ l i dose Hwf
               (timeTestHom_made_of_blocks d) Hl Hi Hpos).
  - intros l i Hs. apply zero_survivor_term_logp; try assumption.
    exists l, i. split; [reflexivity|exact Hs].
  - apply total_loglik_omits; try assumption. apply timeEst_omits, Hwf.
  - apply total_loglik_omits; try assumption. apply timeTestHom_omits, Hwf.
Qed.

(** *** The monotonicity potentials *)

Variable gamma_cdf : float -> float -> float -> float.

Lemma potIdeaths_value (d : Model.Data) (tend sI tauI sU tauU : float) :
  Py.max (Model.times d) = Ok tend ->
  is_nan (gamma_cdf tend sI tauI) = false ->
  is_nan (gamma_cdf tend sU tauU) = false ->
  Model.potIdeaths gamma_cdf d sI tauI sU tauU
  = Ok (if gamma_cdf tend sI tauI <? gamma_cdf tend sU tauU then neg_infinity else 0).
Proof.
  intros Hmax HI HU. unfold Model.potIdeaths. rewrite Hmax. simpl.
  rewrite (F64Facts.leb_negb_ltb _ _ HI HU).
  destruct (gamma_cdf tend sI tauI <? gamma_cdf tend sU tauU); reflexivity.
Qed.

Lemma joint_rejected (L p1 p2 : float) :
  (L <? infinity) = true ->
  (p1 = 0 \/ p1 = neg_infinity) -> (p2 = 0 \/ p2 = neg_infinity) ->
  p1 = neg_infinity \/ p2 = neg_infinity ->
  L + p1 + p2 = neg_infinity.
Proof.
  intros HL [->| ->] H2 Hneg.
  - destruct Hneg as [Hneg| ->]; [discriminate|].
    apply F64Facts.add_neg_infinity_r, F64Facts.add_zero_lt_infinity, HL.
  - rewrite (F64Facts.add_neg_infinity_r L HL).
    apply F64Facts.neg_infinity_add_pot, H2.
Qed.

Lemma joint_unchanged (L : float) : F64.same_value (L + 0 + 0) L.
Proof.
  eapply F64Facts.same_value_trans; apply F64Facts.add_zero_r.
Qed.

(** C1: for either group, when the infected cumulative death probability at
    the end of the study is below the uninfected one, the potential of that
    group is minus infinity and so is the log-probability of the draw;
    otherwise both potentials are exactly 0 and the log-probability is the
    log-likelihood.  (The cumulative probabilities are numbers, and the
    log-likelihood is a number below plus infinity.) *)
Theorem monotonicity_gate (d : Model.Data) (st : Model.State)
    (liks : list Model.node) (tend L : float) :
  Py.max (Model.times d) = Ok tend ->
  Model.total_loglik np_log np_power d st liks = Ok L ->
  (L <? infinity) = true ->
  let cU := gamma_cdf tend (Model.sU st) (Model.tauU st) in
  let cI1 := gamma_cdf tend (Model.sI1 st) (Model.tauI1 st) in
  let cI2 := gamma_cdf tend (Model.sI2 st) (Model.tauI2 st) in
  is_nan cU = false -> is_nan cI1 = false -> is_nan cI2 = false ->
  Model.potIdeaths1 gamma_cdf d st = Ok (if cI1 <? cU then neg_infinity else 0) /\
  Model.potIdeaths2 gamma_cdf d st = Ok (if cI2 <? cU then neg_infinity else 0) /\
  ((cI1 <? cU) = true \/ (cI2 <? cU) = true ->
   Model.joint_logp np_log np_power gamma_cdf d st liks = Ok neg_infinity) /\
  ((cI1 <? cU) = false -> (cI2 <? cU) = false ->
   exists J, Model.joint_logp np_log np_power gamma_cdf d st liks = Ok J
             /\ F64.same_value J L).
Proof.
  intros Hmax HL Hfin cU cI1 cI2 HU H1 H2.
  pose proof (potIdeaths_value d tend _ _ _ _ Hmax H1 HU) as Hp1.
  pose proof (potIdeaths_value d tend _ _ _ _ Hmax H2 HU) as Hp2.
  fold cU cI1 in Hp1. fold cU cI2 in Hp2.
  split; [exact Hp1|]. split; [exact Hp2|].
  unfold Model.joint_logp, Model.potIdeaths1, Model.potIdeaths2.
  rewrite HL, Hp1, Hp2. simpl. split.
  - intros Hlt. f_equal. apply joint_rejected; [exact Hfin| | |].
    + destruct (cI1 <? cU); auto.
    + destruct (cI2 <? cU); auto.
    + destruct Hlt as [-> | ->]; auto.
  - intros -> ->. eexists. split; [reflexivity|]. apply joint_unchanged.
Qed.

End ModelFacts.

(** ** The posterior summarizer *)

Section MatrixFacts.

Local Open Scope float_scope.

Lemma lookup_map {A B : Type} (f : A -> B) (l : list A) (i : nat) :
  map f l !! i = option_map f (l !! i).
Proof.
  revert i. induction l as [|x t IH]; intros [|i]; simpl; auto.
Qed.

Lemma zip_with_cons_map {A : Type} (v : list A) (g : A -> list A) :
  zip_with cons v (map g v) = map (fun x => x :: g x) v.
Proof. induction v as [|x t IH]; simpl; [reflexivity|]. now rewrite IH. Qed.

Lemma transpose_replicate (n : nat) (v : list float) :
  (1 <= n)%nat -> Np.transpose (replicate n v) = map (replicate n) v.
Proof.
  destruct n as [|n]; [lia|]. intros _. induction n as [|n IH].
  - reflexivity.
  - change (replicate (S (S n)) v) with (v :: replicate (S n) v).
    change (Np.transpose (v :: replicate (S n) v))
      with (zip_with cons v (Np.transpose (replicate (S n) v))).
    rewrite IH. apply zip_with_cons_map.
Qed.

(** With at least one grid point, [np.array([v.tolist()]*n).T] has one row
    per element of [v]. *)
Lemma tile_T_rows (pis : list float) (n : nat) :
  (1 <= n)%nat -> Np.tile_T pis n = map (replicate n) pis.
Proof.
  intros Hn. destruct n as [|n]; [lia|]. unfold Np.tile_T.
  apply transpose_replicate. lia.
Qed.

Lemma entry_rows (pis : list float) (n i t : nat) (p : float) :
  pis !! i = Some p -> (t < n)%nat ->
  Np.entry (map (replicate n) pis) i t = Some p.
Proof.
  intros Hp Ht. unfold Np.entry. rewrite lookup_map, Hp. simpl.
  apply lookup_replicate_2, Ht.
Qed.

Lemma entry_scalar_sub (c : float) (M : Np.matrix) (i t : nat) (x : float) :
  Np.entry M i t = Some x -> Np.entry (Np.scalar_sub c M) i t = Some (c - x).
Proof.
  unfold Np.entry, Np.scalar_sub. rewrite lookup_map.
  destruct (M !! i) as [row|]; simpl; [|discriminate].
  rewrite lookup_map. intros ->. reflexivity.
Qed.

Lemma entry_zip2 (f : float -> float -> float) (A B : Np.matrix)
    (i t : nat) (a b : float) :
  Np.entry A i t = Some a -> Np.entry B i t = Some b ->
  Np.entry (Np.zip2 f A B) i t = Some (f a b).
Proof.
  unfold Np.entry, Np.zip2. rewrite lookup_zip_with.
  destruct (A !! i) as [ra|]; simpl; [|discriminate].
  destruct (B !! i) as [rb|]; simpl; [|discriminate].
  intros Ha Hb. rewrite lookup_zip_with, Ha, Hb. reflexivity.
Qed.

Lemma entry_diff_columns (M : Np.matrix) (i t : nat) (a b : float) :
  Np.entry M i t = Some a -> Np.entry M i (S t) = Some b ->
  Np.entry (Np.diff_columns M) i t = Some (b - a).
Proof.
  unfold Np.entry, Np.diff_columns. rewrite lookup_map.
  destruct (M !! i) as [row|]; simpl; [|discriminate].
  intros Ha Hb. rewrite lookup_zip_with, lookup_drop. simpl. rewrite Hb. simpl.
  rewrite lookup_take_lt, Ha; [reflexivity|].
  pose proof (lookup_lt_Some _ _ _ Hb). lia.
Qed.

Lemma diff_columns_row_length (M : Np.matrix) (i : nat) (row : list float) :
  M !! i = Some row ->
  exists row', Np.diff_columns M !! i = Some row'
               /\ length row' = (length row - 1)%nat.
Proof.
  intros Hrow. unfold Np.diff_columns. rewrite lookup_map, Hrow. simpl.
  eexists. split; [reflexivity|].
  rewrite length_zip_with, length_drop, length_take. lia.
Qed.

(** *** Loops *)

Lemma for_each_lookup {A B : Type} (f : A -> result B) (xs : list A) (ys : list B)
    (j : nat) (x : A) :
  for_each f xs = Ok ys -> xs !! j = Some x ->
  exists y, ys !! j = Some y /\ f x = Ok y.
Proof.
  revert ys j. induction xs as [|x0 t IH]; intros ys j Hok Hj; [discriminate|].
  simpl in Hok. destruct (f x0) as [y0|] eqn:E0; simpl in Hok; [|discriminate].
  destruct (for_each f t) as [ys'|] eqn:Et; simpl in Hok; [|discriminate].
  injection Hok as <-. destruct j as [|j]; simpl in *.
  - injection Hj as <-. eauto.
  - eapply IH; [reflexivity|exact Hj].
Qed.

Lemma for_each_raise {A B : Type} (f : A -> result B) (xs : list A) (e : exn) :
  for_each f xs = Raise e -> exists x, In x xs /\ f x = Raise e.
Proof.
  induction xs as [|x t IH]; simpl; [discriminate|].
  destruct (f x) as [y|e'] eqn:E; simpl.
  - destruct (for_each f t) as [ys|e'']; simpl; [discriminate|].
    intros [= ->]. destruct (IH eq_refl) as (x' & Hin & Hx'). eauto.
  - intros [= ->]. eauto.
Qed.

Lemma for_each_length {A B : Type} (f : A -> result B) (xs : list A) (ys : list B) :
  for_each f xs = Ok ys -> length ys = length xs.
Proof.
  revert ys. induction xs as [|x t IH]; intros ys; simpl.
  - intros [= <-]. reflexivity.
  - destruct (f x) as [y|]; simpl; [|discriminate].
    destruct (for_each f t) as [ys'|]; simpl; [|discriminate].
    intros [= <-]. simpl. now rewrite (IH ys').
Qed.

Lemma for_each_Forall {A B : Type} (f : A -> result B) (P : B -> Prop)
    (xs : list A) (ys : list B) :
  for_each f xs = Ok ys -> (forall x y, In x xs -> f x = Ok y -> P y) -> Forall P ys.
Proof.
  revert ys. induction xs as [|x t IH]; intros ys; simpl.
  - intros [= <-] _. constructor.
  - destruct (f x) as [y|] eqn:E; simpl; [|discriminate].
    destruct (for_each f t) as [ys'|]; simpl; [|discriminate].
    intros [= <-] H. constructor; [apply (H x); auto|].
    apply IH; [reflexivity|]. intros x' y' Hin. apply H. now right.
Qed.


Lemma for_each_map_ok {A B C : Type} (f : A -> result B) (g : A -> result C)
    (h : B -> C) (xs : list A) (ys : list B) :
  for_each f xs = Ok ys ->
  (forall x y, In x xs -> f x = Ok y -> g x = Ok (h y)) ->
  for_each g xs = Ok (map h ys).
Proof.
  revert ys. induction xs as [|x t IH]; intros ys; simpl.
  - intros [= <-] _. reflexivity.
  - destruct (f x) as [y|] eqn:E; simpl; [|discriminate].
    destruct (for_each f t) as [ys'|]; simpl; [|discriminate].
    intros [= <-] H. rewrite (H x y (or_introl eq_refl) E). simpl.
    rewrite (IH ys' eq_refl); [reflexivity|]. intros x' y' Hin. apply H. now right.
Qed.

Lemma for_each_ext {A B : Type} (f g : A -> result B) (xs : list A) :
  (forall x, In x xs -> f x = g x) -> for_each f xs = for_each g xs.
Proof.
  induction xs as [|x t IH]; intros H; simpl; [reflexivity|].
  rewrite (H x (or_introl eq_refl)), IH; [reflexivity|].
  intros x' Hin. apply H. now right.
Qed.

Lemma for_each_returned {A : Type} (rows : list A) :
  for_each (fun r : result A => r) (map Ok rows) = Ok rows.
Proof. induction rows as [|r t IH]; simpl; [reflexivity|]. now rewrite IH. Qed.

(** *** Shapes *)

Lemma scalar_sub_shape (c : float) (M : Np.matrix) (n g : nat) :
  Np.has_shape M n g -> Np.has_shape (Np.scalar_sub c M) n g.
Proof.
  intros [Hn Hg]. unfold Np.scalar_sub. split.
  - now rewrite length_map.
  - apply Forall_map. eapply Forall_impl; [exact Hg|].
    simpl. intros row Hrow. now rewrite length_map.
Qed.

Lemma zip2_shape (f : float -> float -> float) (A B : Np.matrix) (n g : nat) :
  Np.has_shape A n g -> Np.has_shape B n g ->
  Np.has_shape (Np.zip2 f A B) n g.
Proof.
  intros [HAn HAg] [HBn HBg]. unfold Np.zip2. split.
  - rewrite length_zip_with. lia.
  - apply Forall_lookup. intros i row. rewrite lookup_zip_with.
    destruct (A !! i) as [ra|] eqn:Ea; simpl; [|discriminate].
    destruct (B !! i) as [rb|] eqn:Eb; simpl; [|discriminate].
    intros [= <-]. rewrite length_zip_with.
    rewrite (proj1 (Forall_lookup _ _) HAg i ra Ea).
    rewrite (proj1 (Forall_lookup _ _) HBg i rb Eb). lia.
Qed.

Lemma rows_shape (pis : list float) (n nts : nat) :
  length pis = n -> Np.has_shape (map (replicate nts) pis) n nts.
Proof.
  intros Hn. split.
  - now rewrite length_map.
  - apply Forall_map, Forall_forall. intros x _. apply length_replicate.
Qed.

Lemma diff_columns_shape (M : Np.matrix) (n g : nat) :
  Np.has_shape M n g -> Np.has_shape (Np.diff_columns M) n (g - 1).
Proof.
  intros [Hn Hg]. unfold Np.diff_columns. split.
  - now rewrite length_map.
  - apply Forall_map. eapply Forall_impl; [exact Hg|]. simpl.
    intros row Hrow. rewrite length_zip_with, length_drop, length_take. lia.
Qed.

(** An array of [n] rows without columns is [n] empty rows. *)
Lemma shape_no_columns (M : Np.matrix) (n : nat) :
  Np.has_shape M n 0 -> M = replicate n [].
Proof.
  intros [Hn Hg]. subst n. induction Hg as [|row M Hrow HM IH]; [reflexivity|].
  simpl. destruct row; [|discriminate]. now rewrite <- IH.
Qed.

(** *** Broadcasting *)

Lemma broadcast_aligned {A B C : Type} (f : A -> B -> C) (xs : list A) (ys : list B) :
  length xs = length ys -> Np.broadcast f xs ys = Ok (zip_with f xs ys).
Proof. intros H. unfold Np.broadcast. now rewrite H, Nat.eqb_refl. Qed.

Lemma broadcast_raises {A B C : Type} (f : A -> B -> C) (xs : list A) (ys : list B)
    (e : exn) :
  Np.broadcast f xs ys = Raise e -> e = ValueError.
Proof.
  unfold Np.broadcast. destruct (length xs =? length ys)%nat; [discriminate|].
  destruct xs as [|x [|x' xs]]; destruct ys as [|y [|y' ys]]; simpl; congruence.
Qed.

(** Where both arrays have an element at an index, the result has the
    operation of the two there. *)
Lemma broadcast_lookup {A B C : Type} (f : A -> B -> C) (xs : list A) (ys : list B)
    (zs : list C) (i : nat) (x : A) (y : B) :
  Np.broadcast f xs ys = Ok zs -> xs !! i = Some x -> ys !! i = Some y ->
  zs !! i = Some (f x y).
Proof.
  unfold Np.broadcast. intros H Hx Hy.
  destruct (length xs =? length ys)%nat.
  - injection H as <-. now rewrite lookup_zip_with, Hx, Hy.
  - destruct xs as [|x0 [|x1 xs]]; [discriminate| |].
    + destruct i as [|i]; [|discriminate]. injection Hx as ->.
      injection H as <-. now rewrite lookup_map, Hy.
    + destruct ys as [|y0 [|y1 ys]]; [discriminate| |discriminate].
      destruct i as [|i]; [|discriminate]. injection Hy as ->.
      injection H as <-. simpl in Hx. injection Hx as ->. reflexivity.
Qed.

Lemma broadcast_elements {A B C : Type} (f : A -> B -> C) (xs : list A) (ys : list B)
    (zs : list C) (z : C) :
  Np.broadcast f xs ys = Ok zs -> In z zs -> exists x y, z = f x y.
Proof.
  unfold Np.broadcast. intros H Hz.
  destruct (length xs =? length ys)%nat.
  - injection H as <-. apply list_elem_of_In, elem_of_lookup_zip_with in Hz
      as (i & x & y & -> & _). eauto.
  - destruct xs as [|x0 [|x1 xs]].
    + destruct ys as [|y0 [|y1 ys]]; [discriminate| |discriminate].
      injection H as <-. destruct Hz.
    + injection H as <-. apply in_map_iff in Hz as (y & <- & _). eauto.
    + destruct ys as [|y0 [|y1 ys]]; [discriminate| |discriminate].
      injection H as <-.
      change (In z (map (fun x => f x y0) (x0 :: x1 :: xs))) in Hz.
      apply in_map_iff in Hz as (x & <- & _). eauto.
Qed.

Lemma broadcast2_aligned (f : float -> float -> float) (A B : Np.matrix) (n g : nat) :
  Np.has_shape A n g -> Np.has_shape B n g ->
  Np.broadcast2 f A B = Ok (Np.zip2 f A B).
Proof.
  intros [HAn HAg] [HBn HBg]. unfold Np.broadcast2.
  rewrite broadcast_aligned by lia. simpl.
  replace (zip_with (Np.broadcast f) A B) with (map Ok (Np.zip2 f A B));
    [apply for_each_returned|].
  unfold Np.zip2. clear HAn HBn. revert B HBg.
  induction HAg as [|ra A Hra HA IH]; intros B HBg; [reflexivity|].
  destruct HBg as [|rb B Hrb HB]; [reflexivity|]. simpl.
  rewrite broadcast_aligned by lia. f_equal. apply IH, HB.
Qed.

Lemma broadcast2_raises (f : float -> float -> float) (A B : Np.matrix) (e : exn) :
  Np.broadcast2 f A B = Raise e -> e = ValueError.
Proof.
  unfold Np.broadcast2.
  destruct (Np.broadcast (Np.broadcast f) A B) as [rows|e'] eqn:E; simpl.
  - intros H. apply for_each_raise in H as (row & Hin & Hrow).
    destruct (broadcast_elements _ _ _ _ _ E Hin) as (ra & rb & ->).
    exact (broadcast_raises _ _ _ _ Hrow).
  - intros [= <-]. exact (broadcast_raises _ _ _ _ E).
Qed.

Lemma empty_rows_returned (f : float -> float -> float) (n : nat) :
  for_each (fun r : result (list float) => r)
    (map (Np.broadcast f []) (replicate n [])) = Ok (replicate n []).
Proof. induction n as [|n IH]; simpl; [reflexivity|]. now rewrite IH. Qed.

(** A single row without elements against [n] rows without elements: the
    shapes [(0,)] and [(n,0)] give [(n,0)]. *)
Lemma broadcast2_no_columns (f : float -> float -> float) (B : Np.matrix) (n : nat) :
  Np.has_shape B n 0 -> Np.broadcast2 f [[]] B = Ok B.
Proof.
  intros HB. rewrite (shape_no_columns B n HB). unfold Np.broadcast2, Np.broadcast.
  destruct n as [|[|n]]; [reflexivity|reflexivity|].
  rewrite length_replicate. simpl Nat.eqb. cbv iota. simpl bind.
  apply (empty_rows_returned f (S (S n))).
Qed.

End MatrixFacts.

Section CalcFacts.

Local Open Scope float_scope.

Variable kpdf : float -> float -> float -> float -> float.
Variable kpdfInt : float -> float -> float -> float -> float -> float.
Variable pi_hom : float -> float -> float -> float.
Variable pi_het : float -> float -> float -> float -> float -> float.
Variable confint : Np.matrix -> Np.matrix.

Lemma get_arr (S : Posterior.samples) (name : string) (xs : list float) :
  Posterior.get S name = Ok xs -> Posterior.arr S name = xs.
Proof.
  unfold Posterior.get, Posterior.arr. destruct (S !! name); simpl; congruence.
Qed.

Lemma get_is_ok (S : Posterior.samples) (name : string) :
  is_ok (Posterior.get S name) = true <-> is_Some (S !! name).
Proof.
  unfold Posterior.get. destruct (S !! name); simpl.
  - split; eauto.
  - split; [discriminate|]. intros [x Hx]. discriminate.
Qed.


Lemma get_raises (S : Posterior.samples) (name : string) (e : exn) :
  Posterior.get S name = Raise e -> e = NameError.
Proof.
  unfold Posterior.get. destruct (S !! name); simpl; congruence.
Qed.

Lemma callArray_row (f : float -> float -> float -> float -> float)
    (grid ss taus ks : list float) (i : nat) (s tau k : float) :
  ss !! i = Some s -> taus !! i = Some tau -> ks !! i = Some k ->
  Posterior.callArray f grid ss taus ks !! i = Some (map (fun t => f t s tau k) grid).
Proof.
  intros Hs Htau Hk. unfold Posterior.callArray.
  rewrite lookup_zip_with, Hs. simpl.
  rewrite (proj2 (lookup_zip_Some taus ks i tau k) (conj Htau Hk)). reflexivity.
Qed.

Lemma callArray_row_length (f : float -> float -> float -> float -> float)
    (grid ss taus ks : list float) (i : nat) (row : list float) :
  Posterior.callArray f grid ss taus ks !! i = Some row -> length row = length grid.
Proof.
  unfold Posterior.callArray. rewrite lookup_zip_with.
  destruct (ss !! i); simpl; [|discriminate].
  destruct (zip taus ks !! i); simpl; [|discriminate].
  intros [= <-]. apply length_map.
Qed.

(** Entry [(i, t)] of a kernel array is the kernel at grid point [t] with the
    parameters of sample [i]. *)
Lemma entry_callArray (f : float -> float -> float -> float -> float)
    (grid ss taus ks : list float) (i t : nat) (x s tau k : float) :
  ss !! i = Some s -> taus !! i = Some tau -> ks !! i = Some k ->
  grid !! t = Some x ->
  Np.entry (Posterior.callArray f grid ss taus ks) i t = Some (f x s tau k).
Proof.
  intros Hs Htau Hk Hx. unfold Np.entry.
  rewrite (callArray_row f grid ss taus ks i s tau k Hs Htau Hk).
  rewrite lookup_map, Hx. reflexivity.
Qed.

Lemma callArray_shape (f : float -> float -> float -> float -> float)
    (grid ss taus ks : list float) (n : nat) :
  length ss = n -> length taus = n -> length ks = n ->
  Np.has_shape (Posterior.callArray f grid ss taus ks) n (length grid).
Proof.
  intros Hs Ht Hk. split.
  - unfold Posterior.callArray. rewrite length_zip_with, length_zip. lia.
  - apply Forall_lookup. intros i row Hrow.
    exact (callArray_row_length _ _ _ _ _ _ _ Hrow).
Qed.

Lemma scales_lookup (means shapes : list float) (i : nat) (m s : float) :
  means !! i = Some m -> shapes !! i = Some s ->
  zip_with div means shapes !! i = Some (m / s).
Proof. intros Hm Hs. now rewrite lookup_zip_with, Hm, Hs. Qed.

Lemma divide_aligned (means shapes : list float) :
  length means = length shapes ->
  Posterior.divide means shapes = Ok (zip_with div means shapes).
Proof. apply broadcast_aligned. Qed.

Lemma cumulative_shape (S : Posterior.samples) (grid : list float)
    (mean shape : string) (n : nat) :
  length (Posterior.arr S mean) = n -> length (Posterior.arr S shape) = n ->
  length (Posterior.arr S "k") = n ->
  Np.has_shape (Posterior.cumulative kpdfInt S grid mean shape) n (length grid).
Proof.
  intros Hm Hs Hk. apply callArray_shape; [assumption| |assumption].
  rewrite length_zip_with. lia.
Qed.

(** Entry [(i, t)] of a cumulative curve: the integrated kernel from 0 to
    grid point [t], at the parameters of sample [i]. *)
Lemma entry_cumulative (S : Posterior.samples) (grid : list float)
    (mean shape : string) (i t : nat) (x m s k : float) :
  grid !! t = Some x ->
  Posterior.arr S mean !! i = Some m -> Posterior.arr S shape !! i = Some s ->
  Posterior.arr S "k" !! i = Some k ->
  Np.entry (Posterior.cumulative kpdfInt S grid mean shape) i t
  = Some (kpdfInt 0 x s (m / s) k).
Proof.
  intros Hx Hm Hs Hk. unfold Posterior.cumulative.
  apply entry_callArray; try assumption. apply scales_lookup; assumption.
Qed.

(** *** The survival curves *)

Lemma control_curve_entry (cdfU_s : Np.matrix) (i t : nat) (u : float) :
  Np.entry cdfU_s i t = Some u ->
  Np.entry (Posterior.control_curve cdfU_s) i t = Some (1 - u).
Proof. apply entry_scalar_sub. Qed.

Lemma convex_curve_entry (pis : list float) (nts : nat) (cdfI_s cdfU_s : Np.matrix)
    (i t : nat) (p a u : float) :
  pis !! i = Some p -> (t < nts)%nat ->
  Np.entry cdfI_s i t = Some a -> Np.entry cdfU_s i t = Some u ->
  Np.entry (Posterior.convex_curve pis nts cdfI_s cdfU_s) i t
  = Some (1 - p * a - (1 - p) * u).
Proof.
  intros Hp Ht Ha Hu. unfold Posterior.convex_curve.
  pose proof (entry_rows pis nts i t p Hp Ht) as Htile.
  apply (entry_zip2 PrimFloat.sub).
  - apply entry_scalar_sub. apply (entry_zip2 PrimFloat.mul); assumption.
  - apply (entry_zip2 PrimFloat.mul); [|assumption].
    apply entry_scalar_sub, Htile.
Qed.

Lemma convex_curve_shape (pis : list float) (nts n : nat) (cdfI_s cdfU_s : Np.matrix) :
  length pis = n ->
  Np.has_shape cdfI_s n nts -> Np.has_shape cdfU_s n nts ->
  Np.has_shape (Posterior.convex_curve pis nts cdfI_s cdfU_s) n nts.
Proof.
  intros Hn HI HU. unfold Posterior.convex_curve.
  pose proof (rows_shape pis n nts Hn) as HT.
  apply zip2_shape.
  - apply scalar_sub_shape, zip2_shape; assumption.
  - apply zip2_shape; [|assumption]. apply scalar_sub_shape, HT.
Qed.

(** When the shapes fit, the products and the difference of a dose curve go
    through, and give the convex combination entry by entry. *)
Lemma dose_curve_aligned (pis : list float) (nts n : nat) (cdfI_s cdfU_s : Np.matrix) :
  length pis = n ->
  Np.has_shape cdfI_s n nts -> Np.has_shape cdfU_s n nts ->
  Posterior.dose_curve pis nts cdfI_s cdfU_s
  = Ok (Posterior.convex_curve pis nts cdfI_s cdfU_s).
Proof.
  intros Hn HI HU.
  pose proof (convex_curve_shape pis nts n cdfI_s cdfU_s Hn HI HU) as HC.
  unfold Posterior.dose_curve, Np.mul, Np.sub.
  destruct nts as [|g].
  - cbn [Np.tile_T]. change (Np.scalar_sub 1 [[]]) with ([[]] : Np.matrix).
    rewrite (broadcast2_no_columns _ cdfI_s n HI). simpl.
    rewrite (broadcast2_no_columns _ cdfU_s n HU). simpl.
    rewrite (broadcast2_aligned _ _ _ n 0);
      [|apply scalar_sub_shape, HI|exact HU].
    f_equal. rewrite (shape_no_columns _ n HC). apply shape_no_columns.
    apply zip2_shape; [apply scalar_sub_shape, HI|exact HU].
  - rewrite tile_T_rows by lia.
    pose proof (rows_shape pis n (S g) Hn) as HT.
    rewrite (broadcast2_aligned _ _ _ n (S g) HT HI). simpl.
    rewrite (broadcast2_aligned _ _ _ n (S g) (scalar_sub_shape 1 _ _ _ HT) HU). simpl.
    rewrite (broadcast2_aligned _ _ _ n (S g)); [reflexivity| |].
    + apply scalar_sub_shape, zip2_shape; assumption.
    + apply zip2_shape; [apply scalar_sub_shape, HT|exact HU].
Qed.

Lemma dose_curve_raises (pis : list float) (nts : nat) (cdfI_s cdfU_s : Np.matrix)
    (e : exn) :
  Posterior.dose_curve pis nts cdfI_s cdfU_s = Raise e -> e = ValueError.
Proof.
  unfold Posterior.dose_curve, Np.mul, Np.sub.
  destruct (Np.broadcast2 PrimFloat.mul (Np.tile_T pis nts) cdfI_s) as [A|e1] eqn:E1;
    simpl; [|intros [= <-]; exact (broadcast2_raises _ _ _ _ E1)].
  destruct (Np.broadcast2 PrimFloat.mul (Np.scalar_sub 1 (Np.tile_T pis nts)) cdfU_s)
    as [B|e2] eqn:E2; simpl; [|intros [= <-]; exact (broadcast2_raises _ _ _ _ E2)].
  apply broadcast2_raises.
Qed.

Lemma pi_homs_lookup (dose : float) (ps epss : list float) (i : nat) (p e : float) :
  ps !! i = Some p -> epss !! i = Some e ->
  Posterior.pi_homs pi_hom dose ps epss !! i = Some (pi_hom dose p e).
Proof.
  intros Hp He. unfold Posterior.pi_homs. now rewrite lookup_zip_with, Hp, He.
Qed.

Lemma pi_hets_lookup (dose : float) (ps a2s b2s epss : list float) (i : nat)
    (p a b e : float) :
  ps !! i = Some p -> a2s !! i = Some a -> b2s !! i = Some b -> epss !! i = Some e ->
  Posterior.pi_hets pi_het dose ps a2s b2s epss !! i = Some (pi_het dose p a b e).
Proof.
  intros Hp Ha Hb He. unfold Posterior.pi_hets. rewrite lookup_zip_with.
  rewrite (proj2 (lookup_zip_Some ps a2s i p a) (conj Hp Ha)). simpl.
  rewrite (proj2 (lookup_zip_Some b2s epss i b e) (conj Hb He)). reflexivity.
Qed.

Lemma pi_homs_length (dose : float) (ps epss : list float) (n : nat) :
  length ps = n -> length epss = n ->
  length (Posterior.pi_homs pi_hom dose ps epss) = n.
Proof. intros Hp He. unfold Posterior.pi_homs. rewrite length_zip_with. lia. Qed.

Lemma pi_hets_length (dose : float) (ps a2s b2s epss : list float) (n : nat) :
  length ps = n -> length a2s = n -> length b2s = n -> length epss = n ->
  length (Posterior.pi_hets pi_het dose ps a2s b2s epss) = n.
Proof.
  intros Hp Ha Hb He. unfold Posterior.pi_hets.
  rewrite length_zip_with, !length_zip. lia.
Qed.

(** Index 0 holds the control curve; every index from 1 on holds the convex
    combination for the dose at that index. *)
Lemma survival_curves_lookup (d : Model.Data) (pis_at : float -> list float)
    (nts : nat) (cdfI_s cdfU_s : Np.matrix) (cs : list Np.matrix) :
  Posterior.survival_curves d pis_at nts cdfI_s cdfU_s = Ok cs ->
  length cs = Model.ndoses d /\
  cs !! 0%nat = Some (Posterior.control_curve cdfU_s) /\
  forall di, (1 <= di < Model.ndoses d)%nat ->
    exists dose, Model.doses d !! di = Some dose /\
      cs !! di = Some (Posterior.convex_curve (pis_at dose) nts cdfI_s cdfU_s).
Proof.
  unfold Posterior.survival_curves.
  destruct (Nat.eqb_spec (Model.ndoses d) 0) as [|Hnd]; [discriminate|].
  match goal with |- context [for_each ?f ?xs] =>
    destruct (for_each f xs) as [rest|] eqn:E end; simpl; [|discriminate].
  intros [= <-]. split.
  { simpl. rewrite (for_each_length _ _ _ E), length_seq. lia. }
  split; [reflexivity|].
  intros di Hdi. destruct di as [|di]; [lia|]. simpl.
  assert (Hseq : seq 1 (Model.ndoses d - 1) !! di = Some (S di)).
  { apply lookup_seq. lia. }
  destruct (for_each_lookup _ _ _ _ _ E Hseq) as (y & Hy & Hf).
  destruct (Model.doses d !! S di) as [dose|]; simpl in Hf; [|discriminate].
  injection Hf as <-. eauto.
Qed.

(** One round of the loop over the dose indices: what it read, and what it
    returned. *)
Lemma dose_step_inv (d : Model.Data) (S : Posterior.samples) (nts : nat)
    (cdfI1_s cdfI2_s cdfU_s : Np.matrix) (di : nat) (y : Np.matrix * Np.matrix) :
  Posterior.dose_step pi_hom pi_het d S nts cdfI1_s cdfI2_s cdfU_s di = Ok y ->
  exists dose,
    Model.doses d !! di = Some dose /\
    (forall name, In name Posterior.dose_names -> is_Some (S !! name)) /\
    Posterior.dose_curve
      (Posterior.pi_homs pi_hom dose (Posterior.arr S "p") (Posterior.arr S "eps"))
      nts cdfI1_s cdfU_s = Ok (fst y) /\
    Posterior.dose_curve
      (Posterior.pi_hets pi_het dose (Posterior.arr S "p") (Posterior.arr S "a2")
         (Posterior.arr S "b2") (Posterior.arr S "eps"))
      nts cdfI2_s cdfU_s = Ok (snd y).
Proof.
  unfold Posterior.dose_step.
  destruct (Model.doses d !! di) as [dose|]; simpl; [|discriminate].
  destruct (Posterior.get S "p") as [ps|] eqn:E1; simpl; [|discriminate].
  destruct (Posterior.get S "eps") as [epss|] eqn:E2; simpl; [|discriminate].
  destruct (Posterior.get S "a2") as [a2s|] eqn:E3; simpl; [|discriminate].
  destruct (Posterior.get S "b2") as [b2s|] eqn:E4; simpl; [|discriminate].
  rewrite (get_arr _ _ _ E1), (get_arr _ _ _ E2), (get_arr _ _ _ E3), (get_arr _ _ _ E4).
  destruct (Posterior.dose_curve (Posterior.pi_homs pi_hom dose ps epss) nts
              cdfI1_s cdfU_s) as [c1|] eqn:C1; simpl; [|discriminate].
  destruct (Posterior.dose_curve (Posterior.pi_hets pi_het dose ps a2s b2s epss) nts
              cdfI2_s cdfU_s) as [c2|] eqn:C2; simpl; [|discriminate].
  intros [= <-]. exists dose. split; [reflexivity|].
  split; [|split; [exact C1|exact C2]].
  intros name Hin. apply get_is_ok. unfold Posterior.dose_names in Hin. simpl in Hin.
  repeat (destruct Hin as [<-|Hin]; [rewrite ?E1, ?E2, ?E3, ?E4; reflexivity|]).
  contradiction.
Qed.


(** What a run of [__calc__] that returned has computed. *)
Lemma summarize_inv (d : Model.Data) (S : Posterior.samples) (v : Posterior.Summary) :
  Posterior.summarize kpdf kpdfInt pi_hom pi_het confint d S = Ok v ->
  exists tauUs tauI1s tauI2s rest,
    (forall name, In name Posterior.base_names -> is_Some (S !! name)) /\
    Posterior.divide (Posterior.arr S "meanU") (Posterior.arr S "sU") = Ok tauUs /\
    Posterior.divide (Posterior.arr S "meanI1") (Posterior.arr S "sI1") = Ok tauI1s /\
    Posterior.divide (Posterior.arr S "meanI2") (Posterior.arr S "sI2") = Ok tauI2s /\
    Posterior.time_grid d = Ok (Posterior.ts v) /\
    let grid := Posterior.ts v in
    let ks := Posterior.arr S "k" in
    let cU := Posterior.callArray (kpdfInt 0) grid (Posterior.arr S "sU") tauUs ks in
    let cI1 := Posterior.callArray (kpdfInt 0) grid (Posterior.arr S "sI1") tauI1s ks in
    let cI2 := Posterior.callArray (kpdfInt 0) grid (Posterior.arr S "sI2") tauI2s ks in
    (1 <= Model.ndoses d)%nat /\
    for_each (Posterior.dose_step pi_hom pi_het d S (length grid) cI1 cI2 cU)
      (seq 1 (Model.ndoses d - 1)) = Ok rest /\
    Posterior.cdf1_samples v = Posterior.control_curve cU :: map fst rest /\
    Posterior.cdf2_samples v = Posterior.control_curve cU :: map snd rest /\
    Posterior.pdfU_samples v = Np.diff_columns cU /\
    Posterior.pdfI1_samples v
    = Posterior.callArray kpdf grid (Posterior.arr S "sI1") tauI1s ks /\
    Posterior.pdfI2_samples v
    = Posterior.callArray kpdf grid (Posterior.arr S "sI2") tauI2s ks /\
    Posterior.cdf1_ci v = map confint (Posterior.cdf1_samples v) /\
    Posterior.cdf2_ci v = map confint (Posterior.cdf2_samples v) /\
    Posterior.pdfU v = confint (Posterior.pdfU_samples v) /\
    Posterior.cdfU v = confint cU /\
    Posterior.pdfI1 v = confint (Posterior.pdfI1_samples v) /\
    Posterior.pdfI2 v = confint (Posterior.pdfI2_samples v).
Proof.
  unfold Posterior.summarize.
  destruct (Posterior.get S "meanU") as [meanUs|] eqn:E1; simpl; [|discriminate].
  destruct (Posterior.get S "sU") as [sUs|] eqn:E2; simpl; [|discriminate].
  destruct (Posterior.divide meanUs sUs) as [tauUs|] eqn:D1; simpl; [|discriminate].
  destruct (Posterior.get S "meanI1") as [meanI1s|] eqn:E3; simpl; [|discriminate].
  destruct (Posterior.get S "sI1") as [sI1s|] eqn:E4; simpl; [|discriminate].
  destruct (Posterior.divide meanI1s sI1s) as [tauI1s|] eqn:D2; simpl; [|discriminate].
  destruct (Posterior.get S "meanI2") as [meanI2s|] eqn:E5; simpl; [|discriminate].
  destruct (Posterior.get S "sI2") as [sI2s|] eqn:E6; simpl; [|discriminate].
  destruct (Posterior.divide meanI2s sI2s) as [tauI2s|] eqn:D3; simpl; [|discriminate].
  destruct (Posterior.time_grid d) as [grid|] eqn:E7; simpl; [|discriminate].
  destruct (Posterior.get S "k") as [ks|] eqn:E8; simpl; [|discriminate].
  destruct (Nat.eqb_spec (Model.ndoses d) 0) as [|Hnd]; simpl; [discriminate|].
  match goal with |- context [for_each ?f ?xs] =>
    destruct (for_each f xs) as [rest|] eqn:EL end; simpl; [|discriminate].
  intros [= <-]. simpl.
  rewrite (get_arr _ _ _ E1), (get_arr _ _ _ E2), (get_arr _ _ _ E3),
    (get_arr _ _ _ E4), (get_arr _ _ _ E5), (get_arr _ _ _ E6), (get_arr _ _ _ E8).
  exists tauUs, tauI1s, tauI2s, rest.
  split.
  { intros name Hin. apply get_is_ok. unfold Posterior.base_names in Hin.
    simpl in Hin.
    repeat (destruct Hin as [<-|Hin];
            [rewrite ?E1, ?E2, ?E3, ?E4, ?E5, ?E6, ?E8; reflexivity|]).
    contradiction. }
  split; [exact D1|]. split; [exact D2|]. split; [exact D3|].
  split; [reflexivity|]. split; [lia|]. split; [exact EL|].
  repeat split; reflexivity.
Qed.

Lemma in_read_names (P : string -> Prop) :
  (forall name, In name Posterior.read_names -> P name) ->
  P "meanU" /\ P "sU" /\ P "meanI1" /\ P "sI1" /\ P "meanI2" /\ P "sI2" /\
  P "k" /\ P "p" /\ P "eps" /\ P "a2" /\ P "b2".
Proof.
  intros H. repeat split; apply H; unfold Posterior.read_names; simpl; auto 12.
Qed.

(** With as many samples of every parameter: the scales are the quotients
    sample by sample, and the survival curves are the control curve followed
    by the convex combinations. *)
Lemma summarize_aligned (d : Model.Data) (S : Posterior.samples)
    (v : Posterior.Summary) (n : nat) :
  Posterior.summarize kpdf kpdfInt pi_hom pi_het confint d S = Ok v ->
  (forall name, In name Posterior.read_names -> length (Posterior.arr S name) = n) ->
  let grid := Posterior.ts v in
  let cU := Posterior.cumulative kpdfInt S grid "meanU" "sU" in
  let cI1 := Posterior.cumulative kpdfInt S grid "meanI1" "sI1" in
  let cI2 := Posterior.cumulative kpdfInt S grid "meanI2" "sI2" in
  Posterior.time_grid d = Ok grid /\
  Posterior.survival_curves d
    (fun dose => Posterior.pi_homs pi_hom dose (Posterior.arr S "p") (Posterior.arr S "eps"))
    (length grid) cI1 cU = Ok (Posterior.cdf1_samples v) /\
  Posterior.survival_curves d
    (fun dose => Posterior.pi_hets pi_het dose (Posterior.arr S "p") (Posterior.arr S "a2")
                   (Posterior.arr S "b2") (Posterior.arr S "eps"))
    (length grid) cI2 cU = Ok (Posterior.cdf2_samples v) /\
  Posterior.pdfU_samples v = Np.diff_columns cU /\
  Posterior.pdfI1_samples v = Posterior.density kpdf S grid "meanI1" "sI1" /\
  Posterior.pdfI2_samples v = Posterior.density kpdf S grid "meanI2" "sI2" /\
  Posterior.cdf1_ci v = map confint (Posterior.cdf1_samples v) /\
  Posterior.cdf2_ci v = map confint (Posterior.cdf2_samples v) /\
  Posterior.pdfU v = confint (Posterior.pdfU_samples v) /\
  Posterior.cdfU v = confint cU /\
  Posterior.pdfI1 v = confint (Posterior.pdfI1_samples v) /\
  Posterior.pdfI2 v = confint (Posterior.pdfI2_samples v).
Proof.
  intros Hv Hlen grid cU cI1 cI2.
  destruct (summarize_inv d S v Hv)
    as (tauUs & tauI1s & tauI2s & rest & _ & D1 & D2 & D3 & Hg & Hnd & HL
        & Hc1 & Hc2 & HU & HI1 & HI2 & Hci1 & Hci2 & HpU & HcU & HpI1 & HpI2).
  destruct (in_read_names _ Hlen)
    as (LmU & LsU & LmI1 & LsI1 & LmI2 & LsI2 & Lk & Lp & Le & La & Lb).
  rewrite divide_aligned in D1, D2, D3 by lia.
  injection D1 as <-. injection D2 as <-. injection D3 as <-.
  fold (Posterior.cumulative kpdfInt S (Posterior.ts v) "meanU" "sU") in *.
  fold (Posterior.cumulative kpdfInt S (Posterior.ts v) "meanI1" "sI1") in *.
  fold (Posterior.cumulative kpdfInt S (Posterior.ts v) "meanI2" "sI2") in *.
  fold (Posterior.density kpdf S (Posterior.ts v) "meanI1" "sI1") in *.
  fold (Posterior.density kpdf S (Posterior.ts v) "meanI2" "sI2") in *.
  fold grid in Hg, HL, Hc1, Hc2, HU, HI1, HI2, HcU.
  fold cU in HL, Hc1, Hc2, HU, HcU. fold cI1 cI2 in HL.
  assert (SU : Np.has_shape cU n (length grid)) by (apply cumulative_shape; assumption).
  assert (SI1 : Np.has_shape cI1 n (length grid)) by (apply cumulative_shape; assumption).
  assert (SI2 : Np.has_shape cI2 n (length grid)) by (apply cumulative_shape; assumption).
  assert (Hstep : forall di y,
             Posterior.dose_step pi_hom pi_het d S (length grid) cI1 cI2 cU di = Ok y ->
             exists dose, Model.doses d !! di = Some dose /\
               fst y = Posterior.convex_curve
                         (Posterior.pi_homs pi_hom dose (Posterior.arr S "p")
                            (Posterior.arr S "eps")) (length grid) cI1 cU /\
               snd y = Posterior.convex_curve
                         (Posterior.pi_hets pi_het dose (Posterior.arr S "p")
                            (Posterior.arr S "a2") (Posterior.arr S "b2")
                            (Posterior.arr S "eps")) (length grid) cI2 cU).
  { intros di y Hy. destruct (dose_step_inv _ _ _ _ _ _ _ _ Hy)
      as (dose & Hdose & _ & C1 & C2).
    exists dose. split; [exact Hdose|].
    rewrite (dose_curve_aligned _ _ n) in C1; try assumption;
      [|apply pi_homs_length; assumption].
    rewrite (dose_curve_aligned _ _ n) in C2; try assumption;
      [|apply pi_hets_length; assumption].
    split; congruence. }
  split; [exact Hg|].
  split.
  { unfold Posterior.survival_curves.
    destruct (Nat.eqb_spec (Model.ndoses d) 0) as [|_]; [lia|].
    rewrite (for_each_map_ok _ _ fst _ _ HL); [simpl; now rewrite Hc1|].
    intros di y _ Hy. destruct (Hstep di y Hy) as (dose & -> & -> & _). reflexivity. }
  split.
  { unfold Posterior.survival_curves.
    destruct (Nat.eqb_spec (Model.ndoses d) 0) as [|_]; [lia|].
    rewrite (for_each_map_ok _ _ snd _ _ HL); [simpl; now rewrite Hc2|].
    intros di y _ Hy. destruct (Hstep di y Hy) as (dose & -> & _ & ->). reflexivity. }
  repeat split; assumption.
Qed.

(** With one control, in ascending non-negative doses: the control is dose
    index 0 and the positive doses are the indices from 1 on. *)
Lemma control_is_first (d : Model.Data) (di : nat) (dose : float) :
  Model.well_formed d -> Model.count_zero (Model.doses d) = 1%nat ->
  Model.doses d !! di = Some dose ->
  ((0 <? dose) = true <-> (1 <= di)%nat) /\ (is_zero dose = true <-> di = 0%nat).
Proof.
  intros Hwf H1 Hd.
  pose proof (positive_dose_index _ (Model.wf_non_negative d Hwf)
                (Model.wf_ascending d Hwf) di dose Hd) as Hpos.
  rewrite H1 in Hpos. split; [exact Hpos|].
  pose proof (proj1 (Forall_lookup _ _) (Model.wf_non_negative d Hwf) di dose Hd) as Hnn.
  simpl in Hnn. split.
  - intros Hz. pose proof (F64Facts.is_zero_not_pos _ Hz) as Hn.
    destruct di; [reflexivity|]. assert ((0 <? dose) = true) by (apply Hpos; lia).
    congruence.
  - intros ->. destruct (F64Facts.zero_leb_cases _ Hnn) as [H|H]; [|exact H].
    apply Hpos in H. lia.
Qed.

Lemma survival_curves_shape (d : Model.Data) (pis_at : float -> list float)
    (nts n : nat) (cdfI_s cdfU_s : Np.matrix) (cs : list Np.matrix) :
  Posterior.survival_curves d pis_at nts cdfI_s cdfU_s = Ok cs ->
  (forall dose, length (pis_at dose) = n) ->
  Np.has_shape cdfI_s n nts -> Np.has_shape cdfU_s n nts ->
  Forall (fun c => Np.has_shape c n nts) cs.
Proof.
  unfold Posterior.survival_curves.
  destruct (Nat.eqb_spec (Model.ndoses d) 0) as [|Hnd]; [discriminate|].
  match goal with |- context [for_each ?f ?xs] =>
    destruct (for_each f xs) as [rest|] eqn:E end; simpl; [|discriminate].
  intros [= <-] Hpis HI HU. constructor.
  - apply scalar_sub_shape, HU.
  - eapply for_each_Forall; [exact E|]. simpl. intros di c _.
    destruct (Model.doses d !! di) as [dose|]; simpl; [|discriminate].
    intros [= <-]. apply convex_curve_shape; auto.
Qed.

(** Entry [(i, t)] of a convex combination of two cumulative curves, from the
    parameters of sample [i] and grid point [t]. *)
Lemma convex_cumulative_entry (S : Posterior.samples) (grid pis : list float)
    (mean shape : string) (i t : nat) (x p mU sU mI sI k : float) :
  grid !! t = Some x -> pis !! i = Some p ->
  Posterior.arr S "meanU" !! i = Some mU -> Posterior.arr S "sU" !! i = Some sU ->
  Posterior.arr S mean !! i = Some mI -> Posterior.arr S shape !! i = Some sI ->
  Posterior.arr S "k" !! i = Some k ->
  Np.entry (Posterior.convex_curve pis (length grid)
              (Posterior.cumulative kpdfInt S grid mean shape)
              (Posterior.cumulative kpdfInt S grid "meanU" "sU")) i t
  = Some (1 - p * kpdfInt 0 x sI (mI / sI) k - (1 - p) * kpdfInt 0 x sU (mU / sU) k).
Proof.
  intros Hx Hp HmU HsU HmI HsI Hk.
  apply convex_curve_entry; [exact Hp|exact (lookup_lt_Some _ _ _ Hx)| |];
    apply entry_cumulative; assumption.
Qed.

(** C5 (the code departs from the claim): the survival curve of a dose is
    chosen by the index of the dose, not by the dose.  In a posterior
    summary with [n] samples of every parameter, over the time grid of the
    data, each group has one array of [n] rows and one column per grid
    point for each dose index, and the credible-interval reduction is
    applied to these arrays.  The array of dose index 0 is
    [1 - cdfUninfected], whatever the dose at index 0 is; the array of a
    dose index from 1 on is
    [1 - pi*cdfInfected - (1 - pi)*cdfUninfected] with [pi] the infection
    probability of the sample at the dose of that index (homogeneous model
    and the group-1 cumulative curve for group 1, heterogeneous model and
    the group-2 curve for group 2).  For data without a control, where the
    dose at index 0 is positive, the claim gives that dose the convex
    combination; the code gives it [1 - cdfUninfected].  For data with one
    control, in ascending non-negative doses, index 0 is the control and the
    indices from 1 on are the positive doses, and the code's curves are the
    claim's. *)
Theorem survival_curve_by_index (d : Model.Data) (S : Posterior.samples)
    (v : Posterior.Summary) (n : nat) :
  Posterior.summarize kpdf kpdfInt pi_hom pi_het confint d S = Ok v ->
  (forall name, In name Posterior.read_names -> length (Posterior.arr S name) = n) ->
  let grid := Posterior.ts v in
  let g := length grid in
  let cU := Posterior.cumulative kpdfInt S grid "meanU" "sU" in
  let cI1 := Posterior.cumulative kpdfInt S grid "meanI1" "sI1" in
  let cI2 := Posterior.cumulative kpdfInt S grid "meanI2" "sI2" in
  let pi1s := fun dose =>
    Posterior.pi_homs pi_hom dose (Posterior.arr S "p") (Posterior.arr S "eps") in
  let pi2s := fun dose =>
    Posterior.pi_hets pi_het dose (Posterior.arr S "p") (Posterior.arr S "a2")
      (Posterior.arr S "b2") (Posterior.arr S "eps") in
  (Posterior.time_grid d = Ok grid /\
   Posterior.cdf1_ci v = map confint (Posterior.cdf1_samples v) /\
   Posterior.cdf2_ci v = map confint (Posterior.cdf2_samples v) /\
   length (Posterior.cdf1_samples v) = Model.ndoses d /\
   length (Posterior.cdf2_samples v) = Model.ndoses d /\
   Forall (fun c => Np.has_shape c n g) (Posterior.cdf1_samples v) /\
   Forall (fun c => Np.has_shape c n g) (Posterior.cdf2_samples v)) /\
  (exists c1 c2,
     Posterior.cdf1_samples v !! 0%nat = Some c1 /\
     Posterior.cdf2_samples v !! 0%nat = Some c2 /\
     forall i t x mU sU k,
       grid !! t = Some x ->
       Posterior.arr S "meanU" !! i = Some mU -> Posterior.arr S "sU" !! i = Some sU ->
       Posterior.arr S "k" !! i = Some k ->
       let u := kpdfInt 0 x sU (mU / sU) k in
       Np.entry c1 i t = Some (1 - u) /\ Np.entry c2 i t = Some (1 - u)) /\
  (forall di, (1 <= di < Model.ndoses d)%nat ->
     exists dose c1 c2,
       Model.doses d !! di = Some dose /\
       Posterior.cdf1_samples v !! di = Some c1 /\
       Posterior.cdf2_samples v !! di = Some c2 /\
       forall i t x mU sU mI1 sI1 mI2 sI2 k p e a2 b2,
         grid !! t = Some x ->
         Posterior.arr S "meanU" !! i = Some mU -> Posterior.arr S "sU" !! i = Some sU ->
         Posterior.arr S "meanI1" !! i = Some mI1 ->
         Posterior.arr S "sI1" !! i = Some sI1 ->
         Posterior.arr S "meanI2" !! i = Some mI2 ->
         Posterior.arr S "sI2" !! i = Some sI2 ->
         Posterior.arr S "k" !! i = Some k ->
         Posterior.arr S "p" !! i = Some p -> Posterior.arr S "eps" !! i = Some e ->
         Posterior.arr S "a2" !! i = Some a2 -> Posterior.arr S "b2" !! i = Some b2 ->
         let u := kpdfInt 0 x sU (mU / sU) k in
         let i1 := kpdfInt 0 x sI1 (mI1 / sI1) k in
         let i2 := kpdfInt 0 x sI2 (mI2 / sI2) k in
         Np.entry c1 i t
         = Some (1 - pi_hom dose p e * i1 - (1 - pi_hom dose p e) * u) /\
         Np.entry c2 i t
         = Some (1 - pi_het dose p a2 b2 e * i2 - (1 - pi_het dose p a2 b2 e) * u)) /\
  (forall dose, Model.doses d !! 0%nat = Some dose -> (0 <? dose) = true ->
     exists s1 s2,
       Posterior.survival_curve_spec dose (pi1s dose) g cI1 cU = Ok s1 /\
       Posterior.survival_curve_spec dose (pi2s dose) g cI2 cU = Ok s2 /\
       forall i t x mU sU mI1 sI1 mI2 sI2 k p e a2 b2,
         grid !! t = Some x ->
         Posterior.arr S "meanU" !! i = Some mU -> Posterior.arr S "sU" !! i = Some sU ->
         Posterior.arr S "meanI1" !! i = Some mI1 ->
         Posterior.arr S "sI1" !! i = Some sI1 ->
         Posterior.arr S "meanI2" !! i = Some mI2 ->
         Posterior.arr S "sI2" !! i = Some sI2 ->
         Posterior.arr S "k" !! i = Some k ->
         Posterior.arr S "p" !! i = Some p -> Posterior.arr S "eps" !! i = Some e ->
         Posterior.arr S "a2" !! i = Some a2 -> Posterior.arr S "b2" !! i = Some b2 ->
         let u := kpdfInt 0 x sU (mU / sU) k in
         let i1 := kpdfInt 0 x sI1 (mI1 / sI1) k in
         let i2 := kpdfInt 0 x sI2 (mI2 / sI2) k in
         Np.entry s1 i t
         = Some (1 - pi_hom dose p e * i1 - (1 - pi_hom dose p e) * u) /\
         Np.entry s2 i t
         = Some (1 - pi_het dose p a2 b2 e * i2 - (1 - pi_het dose p a2 b2 e) * u)) /\
  (Model.well_formed d -> Model.count_zero (Model.doses d) = 1%nat ->
   forall di dose, Model.doses d !! di = Some dose ->
     ((0 <? dose) = true <-> (1 <= di)%nat) /\ (is_zero dose = true <-> di = 0%nat)).
Proof.
  intros Hv Hlen grid g cU cI1 cI2 pi1s pi2s.
  destruct (summarize_aligned d S v n Hv Hlen)
    as (Hg & Hc1 & Hc2 & _ & _ & _ & Hci1 & Hci2 & _).
  fold grid in Hg, Hc1, Hc2. fold g cU cI1 in Hc1. fold g cU cI2 in Hc2.
  destruct (in_read_names _ Hlen)
    as (LmU & LsU & LmI1 & LsI1 & LmI2 & LsI2 & Lk & Lp & Le & La & Lb).
  assert (SU : Np.has_shape cU n g) by (apply cumulative_shape; assumption).
  assert (SI1 : Np.has_shape cI1 n g) by (apply cumulative_shape; assumption).
  assert (SI2 : Np.has_shape cI2 n g) by (apply cumulative_shape; assumption).
  assert (P1 : forall dose, length (pi1s dose) = n).
  { intros dose. apply pi_homs_length; assumption. }
  assert (P2 : forall dose, length (pi2s dose) = n).
  { intros dose. apply pi_hets_length; assumption. }
  destruct (survival_curves_lookup _ _ _ _ _ _ Hc1) as (L1 & H10 & H1n).
  destruct (survival_curves_lookup _ _ _ _ _ _ Hc2) as (L2 & H20 & H2n).
  pose proof (survival_curves_shape _ _ _ n _ _ _ Hc1 P1 SI1 SU) as F1.
  pose proof (survival_curves_shape _ _ _ n _ _ _ Hc2 P2 SI2 SU) as F2.
  split.
  { split; [exact Hg|]. split; [exact Hci1|]. split; [exact Hci2|].
    split; [exact L1|]. split; [exact L2|]. split; [exact F1|exact F2]. }
  split.
  { exists (Posterior.control_curve cU), (Posterior.control_curve cU).
    split; [exact H10|]. split; [exact H20|].
    intros i t x mU sU k Hx HmU HsU Hk u.
    split; apply control_curve_entry, entry_cumulative; assumption. }
  split.
  { intros di Hdi.
    destruct (H1n di Hdi) as (dose & Hdose & E1).
    destruct (H2n di Hdi) as (dose' & Hdose' & E2).
    assert (dose' = dose) by congruence. subst dose'.
    exists dose. eexists. eexists.
    split; [exact Hdose|]. split; [exact E1|]. split; [exact E2|].
    intros i t x mU sU mI1 sI1 mI2 sI2 k p e a2 b2
      Hx HmU HsU HmI1 HsI1 HmI2 HsI2 Hk Hp He Ha2 Hb2 u i1 i2.
    split; apply convex_cumulative_entry; try assumption.
    - apply pi_homs_lookup; assumption.
    - apply pi_hets_lookup; assumption. }
  split.
  { intros dose Hdose Hpos. unfold Posterior.survival_curve_spec. rewrite Hpos.
    exists (Posterior.convex_curve (pi1s dose) g cI1 cU),
           (Posterior.convex_curve (pi2s dose) g cI2 cU).
    split; [apply (dose_curve_aligned _ _ n); auto|].
    split; [apply (dose_curve_aligned _ _ n); auto|].
    intros i t x mU sU mI1 sI1 mI2 sI2 k p e a2 b2
      Hx HmU HsU HmI1 HsI1 HmI2 HsI2 Hk Hp He Ha2 Hb2. cbv zeta.
    split; apply convex_cumulative_entry; try assumption.
    - apply pi_homs_lookup; assumption.
    - apply pi_hets_lookup; assumption. }
  intros Hwf Hone di dose Hd. exact (control_is_first d di dose Hwf Hone Hd).
Qed.

(** *** The density curves *)

Lemma in_base_names (P : string -> Prop) :
  (forall name, In name Posterior.base_names -> P name) ->
  P "meanU" /\ P "sU" /\ P "meanI1" /\ P "sI1" /\ P "meanI2" /\ P "sI2" /\ P "k".
Proof.
  intros H. repeat split; apply H; unfold Posterior.base_names; simpl; auto 8.
Qed.

(** C8 (amended): of the density curves only [pdfU] is derived from a
    cumulative curve, by differencing the values of [cdfU] at neighbouring
    points of the time grid; [pdfI1] and [pdfI2] are the hazard-kernel
    density [ut.kpdf] itself, evaluated at every grid point for every
    sample.  With [n] samples of every parameter and [g] grid points, the
    array behind [pdfU] has [n] rows and [g - 1] columns, one column less
    than the arrays behind [pdfI1] and [pdfI2]. *)
Theorem density_curves_sources (d : Model.Data) (S : Posterior.samples)
    (v : Posterior.Summary) :
  Posterior.summarize kpdf kpdfInt pi_hom pi_het confint d S = Ok v ->
  let grid := Posterior.ts v in
  let g := length grid in
  Posterior.time_grid d = Ok grid /\
  (Posterior.pdfU v = confint (Posterior.pdfU_samples v) /\
   Posterior.pdfI1 v = confint (Posterior.pdfI1_samples v) /\
   Posterior.pdfI2 v = confint (Posterior.pdfI2_samples v)) /\
  (forall i t x y m s k,
     grid !! t = Some x -> grid !! Datatypes.S t = Some y ->
     Posterior.arr S "meanU" !! i = Some m -> Posterior.arr S "sU" !! i = Some s ->
     Posterior.arr S "k" !! i = Some k ->
     Np.entry (Posterior.pdfU_samples v) i t
     = Some (kpdfInt 0 y s (m / s) k - kpdfInt 0 x s (m / s) k)) /\
  (forall i t x m s k,
     grid !! t = Some x -> Posterior.arr S "k" !! i = Some k ->
     (Posterior.arr S "meanI1" !! i = Some m -> Posterior.arr S "sI1" !! i = Some s ->
      Np.entry (Posterior.pdfI1_samples v) i t = Some (kpdf x s (m / s) k)) /\
     (Posterior.arr S "meanI2" !! i = Some m -> Posterior.arr S "sI2" !! i = Some s ->
      Np.entry (Posterior.pdfI2_samples v) i t = Some (kpdf x s (m / s) k))) /\
  (forall n,
     (forall name, In name Posterior.base_names ->
        length (Posterior.arr S name) = n) ->
     Np.has_shape (Posterior.pdfU_samples v) n (g - 1) /\
     Np.has_shape (Posterior.pdfI1_samples v) n g /\
     Np.has_shape (Posterior.pdfI2_samples v) n g).
Proof.
  intros Hv grid g.
  destruct (summarize_inv d S v Hv)
    as (tauUs & tauI1s & tauI2s & rest & _ & D1 & D2 & D3 & Hg & _ & _
        & _ & _ & HU & HI1 & HI2 & _ & _ & HpU & _ & HpI1 & HpI2).
  fold grid in Hg, HU, HI1, HI2.
  split; [exact Hg|]. split; [auto|]. split; [|split].
  - intros i t x y m s k Hx Hy Hm Hs Hk. rewrite HU.
    pose proof (broadcast_lookup _ _ _ _ _ _ _ D1 Hm Hs) as Htau.
    apply entry_diff_columns; apply entry_callArray; assumption.
  - intros i t x m s k Hx Hk. split; intros Hm Hs.
    + rewrite HI1. apply entry_callArray; try assumption.
      exact (broadcast_lookup _ _ _ _ _ _ _ D2 Hm Hs).
    + rewrite HI2. apply entry_callArray; try assumption.
      exact (broadcast_lookup _ _ _ _ _ _ _ D3 Hm Hs).
  - intros n Hlen.
    destruct (in_base_names _ Hlen) as (LmU & LsU & LmI1 & LsI1 & LmI2 & LsI2 & Lk).
    rewrite divide_aligned in D1, D2, D3 by lia.
    injection D1 as <-. injection D2 as <-. injection D3 as <-.
    rewrite HU, HI1, HI2.
    split; [apply diff_columns_shape|split];
      (apply callArray_shape; [assumption| |assumption]); rewrite length_zip_with; lia.
Qed.

(** *** The time grid *)

Lemma arange_from_zero_lookup (stop : float) (grid : list float) :
  Np.arange 0 stop 0.2 = Ok grid ->
  exists n, F64.ceil ((stop - 0) / 0.2) = Ok n /\
            length grid = Z.to_nat n /\
            forall i t, grid !! i = Some t -> t = F64.of_nat i * 0.2.
Proof.
  unfold Np.arange.
  destruct (F64.ceil ((stop - 0) / 0.2)) as [n|] eqn:En; simpl; [|discriminate].
  intros [= <-]. exists n. split; [reflexivity|]. split.
  - now rewrite length_map, length_seq.
  - intros i t. rewrite lookup_map.
    destruct (seq 0 (Z.to_nat n) !! i) as [j|] eqn:Ej; simpl; [|discriminate].
    apply lookup_seq in Ej as [-> _]. simpl. intros [= <-].
    destruct i as [|[|i]].
    + reflexivity.
    + reflexivity.
    + change (0 + 0.2 - 0) with 0.2.
      apply F64Facts.zero_add_signed, F64Facts.mul_step_sign.
Qed.

(** C9 (amended): the time grid is the points [i * 0.2] for
    [i = 0, ..., N-1], where [N] is the ceiling of [(d.times[-1] + 1) / 0.2]:
    it starts at 0, every point is at least 0, and it runs up to one time unit
    past the last observed time, not up to that time. *)
Theorem time_grid_points (d : Model.Data) (grid : list float) :
  Posterior.time_grid d = Ok grid ->
  exists tlast n,
    last (Model.times d) = Some tlast /\
    F64.ceil ((tlast + 1 - 0) / 0.2) = Ok n /\
    length grid = Z.to_nat n /\
    forall i t, grid !! i = Some t ->
                t = F64.of_nat i * 0.2 /\ (0 <=? t) = true.
Proof.
  unfold Posterior.time_grid.
  destruct (last (Model.times d)) as [tlast|]; simpl; [|discriminate].
  intros Hg. destruct (arange_from_zero_lookup _ _ Hg) as (n & Hn & Hlen & Hpts).
  exists tlast, n. split; [reflexivity|]. split; [exact Hn|]. split; [exact Hlen|].
  intros i t Hi. split; [exact (Hpts i t Hi)|].
  rewrite (Hpts i t Hi). apply F64Facts.signed_nonneg, F64Facts.mul_step_sign.
Qed.

(** *** Reusing a stored summary *)

(** A stored summary is reused when its burn-in and thinning factor are the
    requested ones. *)
Lemma calcPosterior_reuses (d : Model.Data) (parameters : list string)
    (self : Posterior.Object) (fs : Posterior.Files) (saved : Posterior.Postcalc)
    (burnin thinF : Z) :
  Posterior.postcalc_pickle fs = Some saved ->
  Posterior.saved_burnin saved = burnin -> Posterior.saved_thinF saved = thinF ->
  Posterior.calcPosterior kpdf kpdfInt pi_hom pi_het confint d parameters self fs
    burnin thinF false
  = Ok ({| Posterior.vals := Some (Posterior.saved_vals saved);
           Posterior.param_samples := Some (Posterior.saved_samples saved) |}, fs).
Proof.
  intros Hs <- <-. unfold Posterior.calcPosterior. rewrite Hs, !Z.eqb_refl. reflexivity.
Qed.

(** A stored summary with another burn-in or thinning factor is neither
    reused nor replaced: the call changes nothing. *)
Lemma calcPosterior_stale (d : Model.Data) (parameters : list string)
    (self : Posterior.Object) (fs : Posterior.Files) (saved : Posterior.Postcalc)
    (burnin thinF : Z) :
  Posterior.postcalc_pickle fs = Some saved ->
  Posterior.saved_burnin saved <> burnin \/ Posterior.saved_thinF saved <> thinF ->
  Posterior.calcPosterior kpdf kpdfInt pi_hom pi_het confint d parameters self fs
    burnin thinF false
  = Ok (self, fs).
Proof.
  intros Hs Hne. unfold Posterior.calcPosterior. rewrite Hs.
  destruct (Z.eqb_spec (Posterior.saved_burnin saved) burnin);
    destruct (Z.eqb_spec (Posterior.saved_thinF saved) thinF); simpl;
    try reflexivity.
  destruct Hne; contradiction.
Qed.

(** Without a stored summary the trace is loaded and summarized. *)
Lemma calcPosterior_missing (d : Model.Data) (parameters : list string)
    (self : Posterior.Object) (fs : Posterior.Files) (M2 : Posterior.trace)
    (burnin thinF : Z) :
  Posterior.postcalc_pickle fs = None -> Posterior.mcmc_pickle fs = Some M2 ->
  Posterior.calcPosterior kpdf kpdfInt pi_hom pi_het confint d parameters self fs
    burnin thinF false
  = Posterior.calc kpdf kpdfInt pi_hom pi_het confint d parameters fs M2 burnin thinF.
Proof.
  intros Hs Hm. unfold Posterior.calcPosterior. rewrite Hs, Hm. reflexivity.
Qed.

(** C2 (the code departs from the claim): with a summary stored for burn-in 0
    and thinning 1, a request for burn-in 100 returns with the model and the
    files as they were: the model stays without a summary, where the claim
    (and [calcPosterior_spec]) recompute it from the trace. *)
Theorem calcPosterior_stale_not_recomputed (d : Model.Data) (parameters : list string)
    (M2 : Posterior.trace) (v0 : Posterior.Summary) (S0 : Posterior.samples) :
  let fs := {| Posterior.mcmc_pickle := Some M2;
               Posterior.postcalc_pickle :=
                 Some {| Posterior.saved_burnin := 0; Posterior.saved_thinF := 1;
                         Posterior.saved_vals := v0; Posterior.saved_samples := S0 |} |} in
  let self := {| Posterior.vals := None; Posterior.param_samples := None |} in
  Posterior.calcPosterior kpdf kpdfInt pi_hom pi_het confint d parameters self fs
    100 1 false = Ok (self, fs) /\
  Posterior.calcPosterior_spec kpdf kpdfInt pi_hom pi_het confint d parameters self fs
    100 1
  = Posterior.calc kpdf kpdfInt pi_hom pi_het confint d parameters fs M2 100 1.
Proof. split; reflexivity. Qed.

End CalcFacts.

(** ** The facts at the reference instances *)

Section Instances.

Local Open Scope float_scope.

Lemma ref_log_of_zero : Likelihood.log_of_zero Ref.log.
Proof.
  intros z Hz. unfold Ref.log.
  assert (Hn : is_nan z = false).
  { apply F64Facts.not_nan_spec. apply F64Facts.is_zero_spec in Hz as [s Hs].
    rewrite Hs. discriminate. }
  assert (Hl : (z <? 0) = false).
  { rewrite ltb_spec. apply F64Facts.is_zero_spec in Hz as [s Hs]. now rewrite Hs. }
  now rewrite Hn, Hl, Hz.
Qed.

Lemma ref_log_of_probability : Likelihood.log_of_probability Ref.log.
Proof.
  intros z Hpos Hle. unfold Ref.log.
  destruct (F64Facts.ltb_not_nan _ _ Hpos) as [_ Hn].
  rewrite Hn, (F64Facts.ltb_asym _ _ Hpos).
  destruct (F64Facts.ltb_eqb_false _ _ Hpos) as [_ Hz].
  unfold is_zero. change zero with 0. rewrite Hz.
  destruct (z <? 1) eqn:E1; [reflexivity|].
  destruct (F64Facts.leb_cases _ _ Hle) as [H|H]; [congruence|].
  now rewrite H.
Qed.

Lemma ref_log_one : Ref.log 1 = 0.
Proof. reflexivity. Qed.

Lemma ref_power_zero (x : float) : Ref.power x 0%Z = 1.
Proof. reflexivity. Qed.

Lemma ref_data_well_formed : Model.well_formed Ref.data.
Proof.
  constructor.
  - intros i j x y Hij Hi Hj.
    destruct i as [|[|[|i]]], j as [|[|[|j]]]; simpl in Hi, Hj;
      try discriminate; try lia;
      injection Hi as <-; injection Hj as <-; reflexivity.
  - repeat constructor.
  - intros [|]; reflexivity.
  - intros [|]; reflexivity.
  - intros [|]; simpl; repeat constructor; lia.
Qed.

(** C3 at the reference probabilities, with four observed deaths. *)
Lemma likelihood_deaths_floored_witness :
  Likelihood.likelihood_deaths Ref.log [0; 0; 1; 2]%nat 20 10
    [0.1; 0.2; 0.3] [0.01; 0.02; 0.03]
  = Ok (Np.sum (map (fun j => Likelihood.floored_log Ref.log
                                (Likelihood.mixture_at 20 10 [0.1; 0.2; 0.3]
                                   [0.01; 0.02; 0.03] j))
                    [0; 0; 1; 2]%nat)) /\
  is_nan (Np.sum (map (fun j => Likelihood.floored_log Ref.log
                                  (Likelihood.mixture_at 20 10 [0.1; 0.2; 0.3]
                                     [0.01; 0.02; 0.03] j))
                      [0; 0; 1; 2]%nat)) = false.
Proof.
  destruct (likelihood_deaths_floored Ref.log [0; 0; 1; 2]%nat 20 10
              [0.1; 0.2; 0.3] [0.01; 0.02; 0.03] ref_log_of_zero)
    as (Heq & _ & Hnan).
  - repeat constructor; simpl; lia.
  - split; [exact Heq|].
    apply (Hnan ref_log_of_probability); [repeat constructor|exact Heq].
Defined.

(** C10 at the reference data, where each group has one dose without
    survivors. *)
Lemma survivor_term_only_when_positive_witness :
  exists est,
    Model.timeEst_liks Ref.data = Ok est /\
    F64.same_result
      (Model.total_loglik Ref.log Ref.power Ref.data Ref.state est)
      (Model.total_loglik Ref.log Ref.power Ref.data Ref.state
         (Model.timeEst_liks_full Ref.data)).
Proof.
  destruct (survivor_term_only_when_positive Ref.log Ref.power Ref.data Ref.state
              ref_data_well_formed ref_power_zero ref_log_one)
    as (est & hom & Hest & _ & _ & _ & Hsame & _).
  exists est. split; [exact Hest|exact Hsame].
Defined.

(** C1 at the reference draw: infected hosts die sooner in both groups, so
    both potentials are 0. *)
Lemma monotonicity_gate_witness :
  Model.potIdeaths1 Ref.cdf Ref.data Ref.state = Ok 0 /\
  Model.potIdeaths2 Ref.cdf Ref.data Ref.state = Ok 0.
Proof.
  destruct (Model.total_loglik Ref.log Ref.power Ref.data Ref.state
              [Model.LD Model.Ig1d 1; Model.LS Model.Ig1d 1]) as [L|e] eqn:HL;
    [|vm_compute in HL; discriminate].
  assert (Hfin : (L <? infinity) = true).
  { vm_compute in HL. injection HL as <-. reflexivity. }
  destruct (monotonicity_gate Ref.log Ref.power Ref.cdf Ref.data Ref.state
              [Model.LD Model.Ig1d 1; Model.LS Model.Ig1d 1] 10 L)
    as (H1 & H2 & _); try reflexivity; try assumption.
  split; [exact H1|exact H2].
Defined.

Lemma ref_samples_lengths (name : string) :
  In name Posterior.read_names -> length (Posterior.arr Ref.samples name) = 2%nat.
Proof.
  intros Hin. unfold Posterior.read_names in Hin. simpl in Hin.
  repeat (destruct Hin as [<-|Hin]; [reflexivity|]). contradiction.
Qed.

(** C4 at a mixture a rounding error below zero: with two survivors the
    survivor term is a number where the claim's term is minus infinity; with
    three survivors both are minus infinity. *)
Lemma likelihood_survivors_negative_mixture_witness :
  Likelihood.mixture 20 20 (-1e-16) 0.5 = (-1e-16) /\
  Likelihood.likelihood_survivors Ref.log Ref.power 2 20 20 (-1e-16) 0.5 = (-1) /\
  Likelihood.likelihood_survivors_spec Ref.log Ref.power 2 20 20 (-1e-16) 0.5
  = neg_infinity /\
  Likelihood.likelihood_survivors Ref.log Ref.power 3 20 20 (-1e-16) 0.5
  = neg_infinity /\
  Likelihood.likelihood_survivors_spec Ref.log Ref.power 3 20 20 (-1e-16) 0.5
  = neg_infinity.
Proof.
  destruct (likelihood_survivors_negative_mixture Ref.log Ref.power 2 20 20
              (-1e-16) 0.5 eq_refl eq_refl eq_refl) as (Hspec2 & _ & _ & Heven).
  destruct (likelihood_survivors_negative_mixture Ref.log Ref.power 3 20 20
              (-1e-16) 0.5 eq_refl eq_refl eq_refl) as (Hspec3 & _ & Hodd & _).
  destruct Heven as [Hcode _]; [reflexivity|discriminate|].
  split; [reflexivity|]. split; [rewrite Hcode; reflexivity|].
  split; [exact Hspec2|]. split; [exact (Hodd eq_refl)|exact Hspec3].
Defined.

(** C5 at the reference data without the control, where dose index 0 is the
    dose 10: at the first sample and the sixth grid point the code's curve
    of that dose and the curve the claim gives it differ. *)
Lemma survival_curve_by_index_witness :
  exists v c1 s1 x y,
    Posterior.summarize Ref.kpdf Ref.kpdfInt_scaled Ref.pi_hom Ref.pi_het Ref.confint
      Ref.data_no_control Ref.samples = Ok v /\
    Model.doses Ref.data_no_control !! 0%nat = Some 10 /\
    (0 <? 10) = true /\
    Posterior.cdf1_samples v !! 0%nat = Some c1 /\
    Posterior.survival_curve_spec 10
      (Posterior.pi_homs Ref.pi_hom 10 (Posterior.arr Ref.samples "p")
         (Posterior.arr Ref.samples "eps"))
      (length (Posterior.ts v))
      (Posterior.cumulative Ref.kpdfInt_scaled Ref.samples (Posterior.ts v)
         "meanI1" "sI1")
      (Posterior.cumulative Ref.kpdfInt_scaled Ref.samples (Posterior.ts v)
         "meanU" "sU") = Ok s1 /\
    Np.entry c1 0 5 = Some x /\
    Np.entry s1 0 5 = Some y /\
    (x =? y) = false.
Proof.
  destruct (Posterior.summarize Ref.kpdf Ref.kpdfInt_scaled Ref.pi_hom Ref.pi_het
              Ref.confint Ref.data_no_control Ref.samples) as [v|e] eqn:Hv;
    [|vm_compute in Hv; discriminate].
  destruct (survival_curve_by_index Ref.kpdf Ref.kpdfInt_scaled Ref.pi_hom Ref.pi_het
              Ref.confint Ref.data_no_control Ref.samples v 2 Hv ref_samples_lengths)
    as ((Hg & _) & (c1 & c2 & H1 & _ & Hcode) & _ & Hclaim & _).
  destruct (Hclaim 10 eq_refl eq_refl) as (s1 & s2 & Hs1 & _ & Hspec).
  assert (Hx : Posterior.ts v !! 5%nat = Some (F64.of_nat 5 * 0.2)).
  { destruct (Posterior.time_grid Ref.data_no_control) as [g0|] eqn:Eg; [|discriminate].
    injection Hg as <-. vm_compute in Eg. injection Eg as <-. reflexivity. }
  destruct (Hcode 0%nat 5%nat _ 30 2 0.001 Hx eq_refl eq_refl eq_refl) as [Hc _].
  destruct (Hspec 0%nat 5%nat _ 30 2 5 2 6 2 0.001 0.01 0.1 1 3 Hx
              eq_refl eq_refl eq_refl eq_refl eq_refl eq_refl eq_refl eq_refl eq_refl
              eq_refl eq_refl) as [Hs _].
  exists v, c1, s1. eexists. eexists.
  split; [reflexivity|]. split; [reflexivity|]. split; [reflexivity|].
  split; [exact H1|]. split; [exact Hs1|]. split; [exact Hc|]. split; [exact Hs|].
  reflexivity.
Defined.

(** C8 at the reference data and samples: 55 grid points, two samples. *)
Lemma density_curves_sources_witness :
  exists v,
    Posterior.summarize Ref.kpdf Ref.kpdfInt Ref.pi_hom Ref.pi_het Ref.confint
      Ref.data Ref.samples = Ok v /\
    Posterior.time_grid Ref.data = Ok (Posterior.ts v) /\
    length (Posterior.ts v) = 55%nat /\
    Np.has_shape (Posterior.pdfU_samples v) 2 54 /\
    Np.has_shape (Posterior.pdfI1_samples v) 2 55 /\
    Np.entry (Posterior.pdfI1_samples v) 0 5
    = Some (Ref.kpdf (F64.of_nat 5 * 0.2) 2 (5 / 2) 0.001) /\
    Np.entry (Posterior.pdfU_samples v) 0 5
    = Some (Ref.kpdfInt 0 (F64.of_nat 6 * 0.2) 2 (30 / 2) 0.001
            - Ref.kpdfInt 0 (F64.of_nat 5 * 0.2) 2 (30 / 2) 0.001).
Proof.
  destruct (Posterior.summarize Ref.kpdf Ref.kpdfInt Ref.pi_hom Ref.pi_het Ref.confint
              Ref.data Ref.samples) as [v|e] eqn:Hv;
    [|vm_compute in Hv; discriminate].
  destruct (density_curves_sources Ref.kpdf Ref.kpdfInt Ref.pi_hom Ref.pi_het
              Ref.confint Ref.data Ref.samples v Hv)
    as (Hg & _ & HU & HI & Hshape).
  assert (Hts : Posterior.ts v = map (fun i => F64.of_nat i * 0.2) (seq 0 55)).
  { destruct (Posterior.time_grid Ref.data) as [g0|] eqn:Eg; [|discriminate].
    injection Hg as <-. vm_compute in Eg. injection Eg as <-. reflexivity. }
  assert (Hlen : length (Posterior.ts v) = 55%nat) by now rewrite Hts.
  destruct (Hshape 2%nat) as (SU & SI1 & _).
  { intros name Hin. unfold Posterior.base_names in Hin. simpl in Hin.
    repeat (destruct Hin as [<-|Hin]; [reflexivity|]). contradiction. }
  rewrite Hlen in SU, SI1.
  exists v. split; [reflexivity|]. split; [exact Hg|]. split; [exact Hlen|].
  split; [exact SU|]. split; [exact SI1|]. split.
  - apply (HI 0%nat 5%nat); try reflexivity. now rewrite Hts.
  - apply (HU 0%nat 5%nat); try reflexivity; now rewrite Hts.
Defined.

(** C8, as stated, fails: whatever the kernel functions are, the array that is
    reduced to [pdfI1] has one column per grid point, while differencing the
    cumulative curve of group 1 leaves one column less; so the density
    curves are not all differenced cumulative curves. *)
Lemma pdfI_not_differenced :
  ~ exists kpdf kpdfInt pi_hom pi_het confint v,
      Posterior.summarize kpdf kpdfInt pi_hom pi_het confint Ref.data Ref.samples
      = Ok v /\
      Posterior.pdfU_samples v
      = Np.diff_columns (Posterior.cumulative kpdfInt Ref.samples (Posterior.ts v)
                           "meanU" "sU") /\
      Posterior.pdfI1_samples v
      = Np.diff_columns (Posterior.cumulative kpdfInt Ref.samples (Posterior.ts v)
                           "meanI1" "sI1") /\
      Posterior.pdfI2_samples v
      = Np.diff_columns (Posterior.cumulative kpdfInt Ref.samples (Posterior.ts v)
                           "meanI2" "sI2").
Proof.
  intros (kpdf & kpdfInt & pi_hom & pi_het & confint & v & Hv & _ & H1 & _).
  destruct (summarize_aligned kpdf kpdfInt pi_hom pi_het confint Ref.data Ref.samples
              v 2 Hv ref_samples_lengths)
    as (Hgrid & _ & _ & _ & HI1 & _).
  rewrite HI1 in H1.
  assert (Hrow : forall f, Posterior.callArray f (Posterior.ts v)
                   (Posterior.arr Ref.samples "sI1")
                   (zip_with div (Posterior.arr Ref.samples "meanI1")
                                 (Posterior.arr Ref.samples "sI1"))
                   (Posterior.arr Ref.samples "k") !! 0%nat
                 = Some (map (fun t => f t 2 (5 / 2) 0.001) (Posterior.ts v))).
  { intros f. apply callArray_row; reflexivity. }
  assert (Hlen : length (Posterior.ts v) = 55%nat).
  { destruct (Posterior.time_grid Ref.data) as [g|] eqn:Eg; [|discriminate].
    injection Hgrid as <-. vm_compute in Eg. injection Eg as <-. reflexivity. }
  pose proof (Hrow kpdf) as Hd.
  destruct (diff_columns_row_length _ _ _ (Hrow (kpdfInt 0))) as (row' & Hrow' & Hlen').
  unfold Posterior.density in H1. unfold Posterior.cumulative in H1.
  rewrite H1, Hrow' in Hd. injection Hd as ->.
  rewrite !length_map, Hlen in Hlen'. discriminate.
Qed.

(** C9 at the reference data: last time 10, 55 grid points. *)
Lemma time_grid_points_witness :
  exists grid tlast n,
    Posterior.time_grid Ref.data = Ok grid /\
    last (Model.times Ref.data) = Some tlast /\
    F64.ceil ((tlast + 1 - 0) / 0.2) = Ok n /\
    length grid = Z.to_nat n.
Proof.
  destruct (Posterior.time_grid Ref.data) as [grid|e] eqn:Hg;
    [|vm_compute in Hg; discriminate].
  destruct (time_grid_points Ref.data grid Hg) as (tlast & n & H1 & H2 & H3 & _).
  exists grid, tlast, n. repeat split; assumption.
Defined.

(** C9, as stated, fails: the last observed time of the reference data is 10
    (it is also the greatest), and the grid goes on to 10.8. *)
Lemma time_grid_runs_past_last_time :
  exists grid t,
    Posterior.time_grid Ref.data = Ok grid /\
    last (Model.times Ref.data) = Some 10 /\
    Py.max (Model.times Ref.data) = Ok 10 /\
    grid !! 54%nat = Some t /\
    (10 <? t) = true.
Proof.
  eexists. exists (F64.of_nat 54 * 0.2).
  split; [reflexivity|]. repeat split.
Qed.

End Instances.

(** ** Further facts: thinning a chain *)

Section ThinningFacts.

Lemma div_step (n k : nat) :
  (1 <= k)%nat -> ((S n + (k - 1)) / k = S ((n - (k - 1) + (k - 1)) / k))%nat.
Proof.
  intros Hk. destruct (Nat.le_gt_cases (k - 1) n) as [Hle|Hgt].
  - replace (S n + (k - 1))%nat with ((n - (k - 1) + (k - 1)) + 1 * k)%nat by lia.
    rewrite Nat.div_add by lia. lia.
  - replace (n - (k - 1))%nat with 0%nat by lia.
    rewrite (Nat.div_small (0 + (k - 1))) by lia.
    replace (S n + (k - 1))%nat with (n + 1 * k)%nat by lia.
    rewrite Nat.div_add by lia. rewrite Nat.div_small by lia. reflexivity.
Qed.

Lemma stride_length {A : Type} (k : nat) (xs : list A) :
  (1 <= k)%nat ->
  forall skip, length (Np.stride k skip xs) = ((length xs - skip + (k - 1)) / k)%nat.
Proof.
  intros Hk. induction xs as [|x t IH]; intros skip.
  - simpl. rewrite Nat.div_small by lia. reflexivity.
  - destruct skip as [|s].
    + change (Np.stride k 0 (x :: t)) with (x :: Np.stride k (k - 1) t).
      change (length (x :: Np.stride k (k - 1) t))
        with (S (length (Np.stride k (k - 1) t))).
      rewrite IH. change (length (x :: t)) with (S (length t)).
      rewrite Nat.sub_0_r. symmetry. apply div_step, Hk.
    + change (Np.stride k (S s) (x :: t)) with (Np.stride k s t).
      rewrite IH. reflexivity.
Qed.

Lemma slice_from_length {A : Type} (xs : list A) (burnin thinF : nat) :
  (1 <= thinF)%nat ->
  exists vals, Np.slice_from (Z.of_nat burnin) (Z.of_nat thinF) xs = Ok vals /\
    length vals = ((length xs - burnin + (thinF - 1)) / thinF)%nat.
Proof.
  intros Hk. unfold Np.slice_from.
  destruct (Z.eqb_spec (Z.of_nat thinF) 0); [lia|].
  destruct (Z.ltb_spec 0 (Z.of_nat thinF)); [|lia].
  destruct (Z.ltb_spec (Z.of_nat burnin) 0); [lia|].
  eexists; split; [reflexivity|].
  rewrite Nat2Z.id, stride_length by lia. rewrite length_drop.
  destruct (Nat.le_gt_cases burnin (length xs)) as [Hle|Hgt].
  - rewrite Z.min_l by lia. rewrite Nat2Z.id. f_equal. lia.
  - rewrite Z.min_r by lia. rewrite Nat2Z.id. f_equal. lia.
Qed.

(** A negative start counts from the end, and stops at the first element. *)
Lemma slice_from_negative {A : Type} (xs : list A) (k : nat) (thinF : Z) :
  (1 <= k)%nat -> (0 < thinF)%Z ->
  Np.slice_from (- Z.of_nat k) thinF xs
  = Np.slice_from (Z.of_nat (length xs - k)) thinF xs.
Proof.
  intros Hk Ht. unfold Np.slice_from.
  destruct (Z.eqb_spec thinF 0); [reflexivity|].
  destruct (Z.ltb_spec 0 thinF); [|lia].
  destruct (Z.ltb_spec (- Z.of_nat k) 0); [|lia].
  destruct (Z.ltb_spec (Z.of_nat (length xs - k)) 0); [lia|].
  replace (Z.to_nat (Z.max (- Z.of_nat k + Z.of_nat (length xs)) 0))
    with (Z.to_nat (Z.min (Z.of_nat (length xs - k)) (Z.of_nat (length xs)))) by lia.
  reflexivity.
Qed.

(** X1: with a single chain, a burn-in [b >= 0] and a thinning factor
    [k >= 1], the loaded sample array holds the samples
    [b, b + k, b + 2k, ...] of the chain, in this order:
    [ceil((n - b) / k)] of them for a chain of [n >= b] samples, none for a
    shorter chain. *)
Theorem load_param_thinned (M2 : Posterior.trace) (p : string)
    (cs : Posterior.chains) (c0 : list float) (burnin thinF : nat) :
  M2 !! p = Some cs -> cs !! 0%nat = Some c0 -> size cs = 1%nat ->
  (1 <= thinF)%nat ->
  exists vals,
    Posterior.load_param M2 (Z.of_nat burnin) (Z.of_nat thinF) p = Ok vals /\
    (forall j, vals !! j = c0 !! (burnin + j * thinF)%nat) /\
    length vals = ((length c0 - burnin + (thinF - 1)) / thinF)%nat.
Proof.
  intros Hp H0 Hn Hk.
  destruct (load_param_single_chain M2 (Z.of_nat burnin) (Z.of_nat thinF) p cs c0
              Hp H0 Hn) as [-> _].
  destruct (slice_from_lookup c0 burnin thinF Hk) as (vals & Hv & Hj).
  destruct (slice_from_length c0 burnin thinF Hk) as (vals' & Hv' & Hl).
  rewrite Hv in Hv'. injection Hv' as <-.
  exists vals. auto.
Qed.

(** X1 at a chain of seven samples, burn-in 2, thinning 3: samples 2 and 5. *)
Lemma load_param_thinned_witness :
  exists vals,
    Posterior.load_param Ref.long_trace 2 3 "p" = Ok vals /\
    vals !! 1%nat = Some 6%float /\ length vals = 2%nat.
Proof.
  destruct (load_param_thinned Ref.long_trace "p"
              {[ 0%nat := [1; 2; 3; 4; 5; 6; 7]%float ]} [1; 2; 3; 4; 5; 6; 7]%float
              2 3) as (vals & Hv & Hj & Hl);
    [reflexivity|reflexivity|reflexivity|lia|].
  exists vals. split; [exact Hv|]. split; [rewrite Hj; reflexivity|exact Hl].
Defined.

(** X2: a negative burn-in is not refused.  With a single chain and a
    positive thinning factor, a burn-in of [-k] loads what a burn-in of
    [n - k] loads, [n] being the length of the chain: the last [k] samples
    are kept (thinned from there), and all of them when [k] exceeds [n]. *)
Theorem load_param_negative_burnin (M2 : Posterior.trace) (p : string)
    (cs : Posterior.chains) (c0 : list float) (k : nat) (thinF : Z) :
  M2 !! p = Some cs -> cs !! 0%nat = Some c0 -> size cs = 1%nat ->
  (1 <= k)%nat -> (0 < thinF)%Z ->
  Posterior.load_param M2 (- Z.of_nat k) thinF p
  = Posterior.load_param M2 (Z.of_nat (length c0 - k)) thinF p.
Proof.
  intros Hp H0 Hn Hk Ht.
  destruct (load_param_single_chain M2 (- Z.of_nat k) thinF p cs c0 Hp H0 Hn) as [-> _].
  destruct (load_param_single_chain M2 (Z.of_nat (length c0 - k)) thinF p cs c0
              Hp H0 Hn) as [-> _].
  apply slice_from_negative; assumption.
Qed.

(** X2 at the chain of seven samples: a burn-in of -3 keeps the last three. *)
Lemma load_param_negative_burnin_witness :
  Posterior.load_param Ref.long_trace (-3) 1 "p" = Ok [5; 6; 7]%float.
Proof.
  pose proof (load_param_negative_burnin Ref.long_trace "p"
                {[ 0%nat := [1; 2; 3; 4; 5; 6; 7]%float ]} [1; 2; 3; 4; 5; 6; 7]%float
                3 1 eq_refl eq_refl eq_refl) as H.
  etransitivity; [apply H; lia|reflexivity].
Defined.

Lemma load_param_ok_inv (M2 : Posterior.trace) (burnin thinF : Z) (p : string)
    (vals : list float) :
  Posterior.load_param M2 burnin thinF p = Ok vals ->
  thinF <> 0%Z /\
  exists cs c0, M2 !! p = Some cs /\ cs !! 0%nat = Some c0 /\ size cs = 1%nat /\
                Np.slice_from burnin thinF c0 = Ok vals.
Proof.
  unfold Posterior.load_param.
  destruct (M2 !! p) as [cs|]; simpl; [|discriminate].
  destruct (cs !! 0%nat) as [c0|] eqn:E0; simpl; [|discriminate].
  destruct (Np.slice_from burnin thinF c0) as [vs|] eqn:Es; simpl; [|discriminate].
  destruct (Nat.ltb_spec 1 (size cs)) as [Hlt|Hle]; [discriminate|].
  intros [= <-]. split.
  - intros ->. discriminate.
  - assert (size cs <> 0%nat).
    { intros Hz. apply map_size_empty_iff in Hz. subst cs.
      rewrite lookup_empty in E0. discriminate. }
    exists cs, c0. split; [reflexivity|]. split; [exact E0|].
    split; [lia|exact Es].
Qed.

(** X3: when the loading loop succeeds, the loaded arrays are those of
    [self.parameters], one per name and in its order, and every parameter
    had exactly one chain in the trace, numbered 0, whose slice is the loaded
    array; the thinning factor was not zero if there was a parameter at
    all. *)
Theorem load_trace_success (M2 : Posterior.trace) (parameters : list string)
    (burnin thinF : Z) (loaded : list (string * list float)) :
  Posterior.load_trace M2 parameters burnin thinF = Ok loaded ->
  map fst loaded = parameters /\
  forall j p, parameters !! j = Some p ->
    thinF <> 0%Z /\
    exists cs c0 vals,
      M2 !! p = Some cs /\ cs !! 0%nat = Some c0 /\ size cs = 1%nat /\
      Np.slice_from burnin thinF c0 = Ok vals /\ loaded !! j = Some (p, vals).
Proof.
  unfold Posterior.load_trace. revert loaded.
  induction parameters as [|p0 ps IH]; intros loaded H; simpl in H.
  - injection H as <-. split; [reflexivity|]. intros j p Hj. discriminate.
  - destruct (Posterior.load_param M2 burnin thinF p0) as [v0|] eqn:E0; simpl in H;
      [|discriminate].
    match type of H with context [for_each ?f ps] =>
      destruct (for_each f ps) as [rest|] eqn:Er end; simpl in H; [|discriminate].
    injection H as <-. destruct (IH rest eq_refl) as [Hn Hall].
    split; [simpl; now rewrite Hn|].
    intros [|j] p Hj; simpl in Hj.
    + injection Hj as <-.
      destruct (load_param_ok_inv _ _ _ _ _ E0) as (Hk & cs & c0 & H1 & H2 & H3 & H4).
      split; [exact Hk|]. exists cs, c0, v0. auto.
    + exact (Hall j p Hj).
Qed.

(** X3 at the single-chain reference trace of the eleven parameters. *)
Lemma load_trace_success_witness :
  exists loaded,
    Posterior.load_trace Ref.trace Ref.parameters 0 1 = Ok loaded /\
    map fst loaded = Ref.parameters.
Proof.
  destruct (Posterior.load_trace Ref.trace Ref.parameters 0 1) as [loaded|e] eqn:H;
    [|vm_compute in H; discriminate].
  exists loaded. split; [reflexivity|].
  exact (proj1 (load_trace_success Ref.trace Ref.parameters 0 1 loaded H)).
Defined.

End ThinningFacts.
(** ** Further facts: the posterior summarizer *)

Section SummaryFacts.

Local Open Scope float_scope.

Variable kpdf : float -> float -> float -> float -> float.
Variable kpdfInt : float -> float -> float -> float -> float -> float.
Variable pi_hom : float -> float -> float -> float.
Variable pi_het : float -> float -> float -> float -> float -> float.
Variable confint : Np.matrix -> Np.matrix.

(** *** Shapes *)

(** X4: the arrays of a posterior summary have the shapes the plots rely on.
    With [n] samples of every parameter and a grid of [g >= 1] points, each
    group has one survival-curve array per dose index, [d.ndoses] in all,
    each with one row per sample and one column per grid point; the array
    behind [pdfU] has [g - 1] columns, those behind [pdfI1] and [pdfI2] have
    [g]. *)
Theorem summary_shapes (d : Model.Data) (S : Posterior.samples)
    (v : Posterior.Summary) (n : nat) :
  Posterior.summarize kpdf kpdfInt pi_hom pi_het confint d S = Ok v ->
  (forall name, In name Posterior.read_names -> length (Posterior.arr S name) = n) ->
  (1 <= length (Posterior.ts v))%nat ->
  let g := length (Posterior.ts v) in
  length (Posterior.cdf1_samples v) = Model.ndoses d /\
  length (Posterior.cdf2_samples v) = Model.ndoses d /\
  Forall (fun c => Np.has_shape c n g) (Posterior.cdf1_samples v) /\
  Forall (fun c => Np.has_shape c n g) (Posterior.cdf2_samples v) /\
  Np.has_shape (Posterior.pdfU_samples v) n (g - 1) /\
  Np.has_shape (Posterior.pdfI1_samples v) n g /\
  Np.has_shape (Posterior.pdfI2_samples v) n g.
Proof.
  intros Hv Hlen Hg g.
  destruct (summarize_aligned kpdf kpdfInt pi_hom pi_het confint d S v n Hv Hlen)
    as (_ & Hc1 & Hc2 & HU & HI1 & HI2 & _).
  fold g in Hc1, Hc2.
  destruct (in_read_names _ Hlen)
    as (LmU & LsU & LmI1 & LsI1 & LmI2 & LsI2 & Lk & Lp & Le & La & Lb).
  assert (SU : Np.has_shape (Posterior.cumulative kpdfInt S (Posterior.ts v) "meanU" "sU")
                 n g) by (apply cumulative_shape; assumption).
  assert (SI1 : Np.has_shape
                  (Posterior.cumulative kpdfInt S (Posterior.ts v) "meanI1" "sI1") n g)
    by (apply cumulative_shape; assumption).
  assert (SI2 : Np.has_shape
                  (Posterior.cumulative kpdfInt S (Posterior.ts v) "meanI2" "sI2") n g)
    by (apply cumulative_shape; assumption).
  destruct (survival_curves_lookup _ _ _ _ _ _ Hc1) as (L1 & _).
  destruct (survival_curves_lookup _ _ _ _ _ _ Hc2) as (L2 & _).
  assert (F1 : Forall (fun c => Np.has_shape c n g) (Posterior.cdf1_samples v)).
  { apply (survival_curves_shape _ _ _ n _ _ _ Hc1); try assumption.
    intros dose. apply pi_homs_length; assumption. }
  assert (F2 : Forall (fun c => Np.has_shape c n g) (Posterior.cdf2_samples v)).
  { apply (survival_curves_shape _ _ _ n _ _ _ Hc2); try assumption.
    intros dose. apply pi_hets_length; assumption. }
  split; [exact L1|]. split; [exact L2|]. split; [exact F1|]. split; [exact F2|].
  split; [rewrite HU; apply diff_columns_shape, SU|].
  split; [rewrite HI1|rewrite HI2]; unfold Posterior.density;
    (apply callArray_shape; [assumption| |assumption]); rewrite length_zip_with; lia.
Qed.

(** *** When [__calc__] succeeds *)

Lemma summarize_ok_needs (d : Model.Data) (S : Posterior.samples) :
  is_ok (Posterior.summarize kpdf kpdfInt pi_hom pi_het confint d S) = true ->
  (forall name, In name Posterior.base_names -> is_Some (S !! name)) /\
  is_ok (Posterior.time_grid d) = true /\
  (1 <= Model.ndoses d)%nat /\
  ((2 <= Model.ndoses d)%nat ->
   forall name, In name Posterior.dose_names -> is_Some (S !! name)) /\
  (forall di, (1 <= di < Model.ndoses d)%nat -> is_Some (Model.doses d !! di)).
Proof.
  destruct (Posterior.summarize kpdf kpdfInt pi_hom pi_het confint d S) as [v|] eqn:Hv;
    [intros _|discriminate].
  destruct (summarize_inv kpdf kpdfInt pi_hom pi_het confint d S v Hv)
    as (tauUs & tauI1s & tauI2s & rest & Hbase & _ & _ & _ & Hg & Hnd & HL & _).
  assert (Hstep : forall di, (1 <= di < Model.ndoses d)%nat ->
             is_Some (Model.doses d !! di) /\
             forall name, In name Posterior.dose_names -> is_Some (S !! name)).
  { intros di Hdi.
    assert (Hseq : seq 1 (Model.ndoses d - 1) !! (di - 1)%nat = Some di).
    { apply lookup_seq. lia. }
    destruct (for_each_lookup _ _ _ _ _ HL Hseq) as (y & _ & Hy).
    destruct (dose_step_inv _ _ _ _ _ _ _ _ _ _ Hy) as (dose & Hdose & Hnames & _).
    split; [eauto|exact Hnames]. }
  split; [exact Hbase|]. split; [now rewrite Hg|]. split; [exact Hnd|]. split.
  - intros H2. apply (Hstep 1%nat). lia.
  - intros di Hdi. apply (Hstep di Hdi).
Qed.



(** *** Computing a summary, then asking for it again *)

Lemma calc_inv (d : Model.Data) (parameters : list string) (fs : Posterior.Files)
    (M2 : Posterior.trace) (burnin thinF : Z) (obj : Posterior.Object)
    (fs' : Posterior.Files) :
  Posterior.calc kpdf kpdfInt pi_hom pi_het confint d parameters fs M2 burnin thinF
  = Ok (obj, fs') ->
  exists v S,
    obj = {| Posterior.vals := Some v; Posterior.param_samples := Some S |} /\
    fs' = {| Posterior.mcmc_pickle := Posterior.mcmc_pickle fs;
             Posterior.postcalc_pickle :=
               Some {| Posterior.saved_burnin := burnin; Posterior.saved_thinF := thinF;
                       Posterior.saved_vals := v; Posterior.saved_samples := S |} |}.
Proof.
  unfold Posterior.calc.
  destruct (Posterior.load_trace M2 parameters burnin thinF) as [loaded|];
    simpl; [|discriminate].
  destruct (Posterior.summarize kpdf kpdfInt pi_hom pi_het confint d
              (list_to_map loaded)) as [v|]; simpl; [|discriminate].
  intros [= <- <-]. eauto.
Qed.

(** X6: a call of [calcPosterior] that computes (because [bOverWrite] is set,
    or because no summary is stored) and returns leaves a stored summary
    with the requested burn-in and thinning factor and the values it set on
    the model, and leaves the MCMC pickle as it was; asking again with the
    same burn-in and thinning factor, on whatever model object, brings back
    these same values without recomputing, and changes no file. *)
Theorem calcPosterior_then_reused (d : Model.Data) (parameters : list string)
    (self : Posterior.Object) (fs : Posterior.Files) (burnin thinF : Z)
    (bOverWrite : bool) (obj : Posterior.Object) (fs' : Posterior.Files) :
  bOverWrite = true \/ Posterior.postcalc_pickle fs = None ->
  Posterior.calcPosterior kpdf kpdfInt pi_hom pi_het confint d parameters self fs
    burnin thinF bOverWrite = Ok (obj, fs') ->
  (exists v S,
     Posterior.vals obj = Some v /\ Posterior.param_samples obj = Some S /\
     Posterior.postcalc_pickle fs'
     = Some {| Posterior.saved_burnin := burnin; Posterior.saved_thinF := thinF;
               Posterior.saved_vals := v; Posterior.saved_samples := S |}) /\
  Posterior.mcmc_pickle fs' = Posterior.mcmc_pickle fs /\
  forall self',
    Posterior.calcPosterior kpdf kpdfInt pi_hom pi_het confint d parameters self' fs'
      burnin thinF false = Ok (obj, fs').
Proof.
  intros Hcomp Hcall.
  assert (Hcalc : exists M2,
             Posterior.calc kpdf kpdfInt pi_hom pi_het confint d parameters fs M2
               burnin thinF = Ok (obj, fs')).
  { unfold Posterior.calcPosterior in Hcall.
    destruct Hcomp as [-> | Hnone].
    - destruct (Posterior.mcmc_pickle fs) as [M2|]; simpl in Hcall; [eauto|discriminate].
    - destruct bOverWrite.
      + destruct (Posterior.mcmc_pickle fs) as [M2|]; simpl in Hcall;
          [eauto|discriminate].
      + rewrite Hnone in Hcall.
        destruct (Posterior.mcmc_pickle fs) as [M2|]; simpl in Hcall;
          [eauto|discriminate]. }
  destruct Hcalc as [M2 Hcalc].
  destruct (calc_inv _ _ _ _ _ _ _ _ Hcalc) as (v & S & -> & ->).
  split; [exists v, S; auto|]. split; [reflexivity|].
  intros self'. unfold Posterior.calcPosterior. simpl.
  rewrite !Z.eqb_refl. reflexivity.
Qed.

(** *** Which exceptions the summarizer raises *)

Lemma slice_from_raises {A : Type} (start step : Z) (xs : list A) (e : exn) :
  Np.slice_from start step xs = Raise e -> e = ValueError.
Proof.
  unfold Np.slice_from. destruct (step =? 0)%Z; [congruence|].
  destruct (0 <? step)%Z; discriminate.
Qed.

Lemma load_param_raises (M2 : Posterior.trace) (burnin thinF : Z) (p : string)
    (e : exn) :
  Posterior.load_param M2 burnin thinF p = Raise e ->
  e = KeyError \/ e = ValueError \/ e = TypeError.
Proof.
  unfold Posterior.load_param.
  destruct (M2 !! p) as [cs|]; simpl; [|intros [= <-]; auto].
  destruct (cs !! 0%nat) as [c0|]; simpl; [|intros [= <-]; auto].
  destruct (Np.slice_from burnin thinF c0) as [vs|e'] eqn:Es; simpl.
  - destruct (1 <? size cs)%nat; [intros [= <-]; auto|discriminate].
  - intros [= <-]. right. left. exact (slice_from_raises _ _ _ _ Es).
Qed.

Lemma load_trace_raises (M2 : Posterior.trace) (parameters : list string)
    (burnin thinF : Z) (e : exn) :
  Posterior.load_trace M2 parameters burnin thinF = Raise e ->
  e = KeyError \/ e = ValueError \/ e = TypeError.
Proof.
  unfold Posterior.load_trace. intros H.
  apply for_each_raise in H as (p & _ & Hp).
  destruct (Posterior.load_param M2 burnin thinF p) as [vals|e'] eqn:E; simpl in Hp;
    [discriminate|].
  injection Hp as <-. exact (load_param_raises _ _ _ _ _ E).
Qed.

Lemma time_grid_raises (d : Model.Data) (e : exn) :
  Posterior.time_grid d = Raise e -> e = IndexError \/ e = ValueError.
Proof.
  unfold Posterior.time_grid.
  destruct (last (Model.times d)) as [tlast|]; simpl; [|intros [= <-]; auto].
  unfold Np.arange, F64.ceil.
  destruct (Prim2SF ((tlast + 1 - 0) / 0.2)); simpl; try discriminate;
    intros [= <-]; auto.
Qed.

Lemma dose_step_raises (d : Model.Data) (S : Posterior.samples) (nts : nat)
    (cdfI1_s cdfI2_s cdfU_s : Np.matrix) (di : nat) (e : exn) :
  Posterior.dose_step pi_hom pi_het d S nts cdfI1_s cdfI2_s cdfU_s di = Raise e ->
  e = NameError \/ e = IndexError \/ e = ValueError.
Proof.
  unfold Posterior.dose_step.
  destruct (Model.doses d !! di) as [dose|]; simpl; [|intros [= <-]; auto].
  repeat match goal with
  | |- context [Posterior.get S ?name] =>
      let E := fresh "E" in
      destruct (Posterior.get S name) eqn:E; simpl;
      [|intros [= <-]; left; exact (get_raises _ _ _ E)]
  end.
  repeat match goal with
  | |- context [bind (Posterior.dose_curve ?p ?n ?a ?b) _] =>
      let E := fresh "E" in
      destruct (Posterior.dose_curve p n a b) eqn:E; simpl;
      [|intros [= <-]; right; right; exact (dose_curve_raises _ _ _ _ _ E)]
  end.
  discriminate.
Qed.

Lemma summarize_raises (d : Model.Data) (S : Posterior.samples) (e : exn) :
  Posterior.summarize kpdf kpdfInt pi_hom pi_het confint d S = Raise e ->
  e = NameError \/ e = IndexError \/ e = ValueError.
Proof.
  unfold Posterior.summarize.
  repeat match goal with
  | |- context [bind (Posterior.get S ?name) _] =>
      let E := fresh "E" in
      destruct (Posterior.get S name) eqn:E; simpl;
      [|intros [= <-]; left; exact (get_raises _ _ _ E)]
  | |- context [bind (Posterior.divide ?a ?b) _] =>
      let E := fresh "E" in
      destruct (Posterior.divide a b) eqn:E; simpl;
      [|intros [= <-]; right; right; exact (broadcast_raises _ _ _ _ E)]
  | |- context [bind (Posterior.time_grid d) _] =>
      let E := fresh "E" in
      destruct (Posterior.time_grid d) eqn:E; simpl;
      [|intros [= <-]; right; exact (time_grid_raises _ _ E)]
  end.
  destruct (Model.ndoses d =? 0)%nat; simpl; [intros [= <-]; auto|].
  match goal with |- context [for_each ?f ?xs] =>
    destruct (for_each f xs) as [rest|e'] eqn:EL end; simpl; [discriminate|].
  intros [= <-]. apply for_each_raise in EL as (di & _ & Hdi).
  exact (dose_step_raises _ _ _ _ _ _ _ _ Hdi).
Qed.

Lemma calc_raises (d : Model.Data) (parameters : list string) (fs : Posterior.Files)
    (M2 : Posterior.trace) (burnin thinF : Z) (e : exn) :
  Posterior.calc kpdf kpdfInt pi_hom pi_het confint d parameters fs M2 burnin thinF
  = Raise e -> e <> IOError.
Proof.
  unfold Posterior.calc.
  destruct (Posterior.load_trace M2 parameters burnin thinF) as [loaded|e'] eqn:El;
    simpl.
  - destruct (Posterior.summarize kpdf kpdfInt pi_hom pi_het confint d
                (list_to_map loaded)) as [v|e'] eqn:Es; simpl; [discriminate|].
    intros [= <-]. destruct (summarize_raises _ _ _ Es) as [->|[->| ->]]; discriminate.
  - intros [= <-]. destruct (load_trace_raises _ _ _ _ _ El) as [->|[->| ->]];
      discriminate.
Qed.

(** X7: [calcPosterior] raises [IOError] exactly when the MCMC pickle is
    missing and had to be read, that is when [bOverWrite] is set or no
    summary is stored; loading the trace and summarizing it never fail with
    an [IOError] (writing the pickle is taken to succeed), and with a stored
    summary and [bOverWrite] unset the MCMC pickle is not needed. *)
Theorem calcPosterior_IOError_iff (d : Model.Data) (parameters : list string)
    (self : Posterior.Object) (fs : Posterior.Files) (burnin thinF : Z)
    (bOverWrite : bool) :
  Posterior.calcPosterior kpdf kpdfInt pi_hom pi_het confint d parameters self fs
    burnin thinF bOverWrite = Raise IOError
  <-> Posterior.mcmc_pickle fs = None /\
      (bOverWrite = true \/ Posterior.postcalc_pickle fs = None).
Proof.
  unfold Posterior.calcPosterior. split.
  - destruct bOverWrite.
    + destruct (Posterior.mcmc_pickle fs) as [M2|]; simpl; [|auto].
      intros H. exfalso. exact (calc_raises _ _ _ _ _ _ _ H eq_refl).
    + destruct (Posterior.postcalc_pickle fs) as [saved|].
      * destruct ((Posterior.saved_burnin saved =? burnin)%Z
                  && (Posterior.saved_thinF saved =? thinF)%Z); discriminate.
      * destruct (Posterior.mcmc_pickle fs) as [M2|]; simpl; [|auto].
        intros H. exfalso. exact (calc_raises _ _ _ _ _ _ _ H eq_refl).
  - intros [Hm [-> | Hp]].
    + rewrite Hm. reflexivity.
    + rewrite Hm, Hp. destruct bOverWrite; reflexivity.
Qed.

End SummaryFacts.
(** ** Further facts: the death term *)

Section DeathTermFacts.

Local Open Scope float_scope.

Lemma neg_infinity_add_nonpos (x : float) :
  (x <=? 0) = true -> neg_infinity + x = neg_infinity.
Proof.
  intros H. apply Prim2SF_inj. rewrite add_spec.
  rewrite leb_spec in H. unfold SFleb in H.
  change (Prim2SF 0) with (S754_zero false) in H.
  change (Prim2SF neg_infinity) with (S754_infinity true).
  destruct (Prim2SF x) as [s|[]| |s m e]; simpl in *; try discriminate; reflexivity.
Qed.

Lemma nonpos_add_neg_infinity (x : float) :
  (x <=? 0) = true -> x + neg_infinity = neg_infinity.
Proof.
  intros H. apply F64Facts.add_neg_infinity_r.
  rewrite leb_spec in H. rewrite ltb_spec. unfold SFleb in H. unfold SFltb.
  change (Prim2SF 0) with (S754_zero false) in H.
  change (Prim2SF infinity) with (S754_infinity false).
  destruct (Prim2SF x) as [s|[]| |s m e]; simpl in *; try discriminate; reflexivity.
Qed.

(** A sum of numbers that are at most zero, one of which is minus infinity,
    is minus infinity. *)
Lemma fold_add_neg_infinity (xs : list float) (a : float) :
  (a <=? 0) = true -> Forall (fun x => (x <=? 0) = true) xs ->
  a = neg_infinity \/ In neg_infinity xs ->
  fold_left add xs a = neg_infinity.
Proof.
  intros Ha H. revert a Ha.
  induction H as [|x t Hx _ IH]; intros a Ha Hinf; simpl.
  - destruct Hinf as [->|[]]. reflexivity.
  - apply IH; [apply F64Facts.add_nonpos; assumption|].
    destruct Hinf as [->|[->|Hin]].
    + left. apply neg_infinity_add_nonpos, Hx.
    + left. apply nonpos_add_neg_infinity, Ha.
    + now right.
Qed.

Lemma index_array_raises (xs : list float) (value : list nat) :
  Exists (fun j => (length xs <= j)%nat) value ->
  Np.index_array xs value = Raise IndexError.
Proof.
  unfold Np.index_array. induction value as [|j t IH]; intros H.
  - inversion H.
  - simpl. destruct (xs !! j) as [x|] eqn:Ej; simpl; [|reflexivity].
    apply Exists_cons in H as [Hj|Ht].
    + pose proof (lookup_lt_Some _ _ _ Ej). lia.
    + now rewrite (IH Ht).
Qed.

Lemma index_array_outcome (xs : list float) (value : list nat) :
  (exists ys, Np.index_array xs value = Ok ys) \/
  Np.index_array xs value = Raise IndexError.
Proof.
  unfold Np.index_array. induction value as [|j t IH]; simpl; [eauto|].
  destruct (xs !! j) as [x|]; simpl; [|auto].
  destruct IH as [[ys ->]| ->]; simpl; eauto.
Qed.

(** X8: an observation that points outside either probability array makes
    the death term raise [IndexError]. *)
Theorem likelihood_deaths_index_error (np_log : float -> float) (value : list nat)
    (nf I : float) (probdI probdU : list float) :
  Exists (fun j => (length probdI <= j)%nat \/ (length probdU <= j)%nat) value ->
  Likelihood.likelihood_deaths np_log value nf I probdI probdU = Raise IndexError.
Proof.
  intros H. unfold Likelihood.likelihood_deaths.
  destruct (index_array_outcome probdI value) as [[dI HI]|HI]; rewrite HI; simpl;
    [|reflexivity].
  rewrite index_array_raises; [reflexivity|].
  apply Exists_exists in H as (j & Hin & [Hj|Hj]).
  - exfalso.
    assert (Hex : Exists (fun j => (length probdI <= j)%nat) value).
    { apply Exists_exists. eauto. }
    rewrite (index_array_raises _ _ Hex) in HI. discriminate.
  - apply Exists_exists. eauto.
Qed.

(** X8 with three intervals and an observation in a fourth. *)
Lemma likelihood_deaths_index_error_witness :
  Likelihood.likelihood_deaths Ref.log [0; 3]%nat 20 10 [0.1; 0.2; 0.3] [0.01; 0.02; 0.03]
  = Raise IndexError.
Proof.
  apply likelihood_deaths_index_error.
  apply Exists_cons_tl, Exists_cons_hd. left. simpl. lia.
Defined.

Variable np_log : float -> float.

(** X9: when every mixture value of the observed intervals is a number that
    is at most 1, the death log-likelihood is at most 0; and it is minus
    infinity as soon as one observed interval has a mixture value [<= 0],
    whatever the other intervals are worth. *)
Theorem likelihood_deaths_at_most_zero (value : list nat) (nf I : float)
    (probdI probdU : list float) :
  Likelihood.log_of_zero np_log -> Likelihood.log_of_probability np_log ->
  Forall (fun j => (j < length probdI)%nat /\ (j < length probdU)%nat) value ->
  let mix := Likelihood.mixture_at nf I probdI probdU in
  Forall (fun j => (mix j <=? 1) = true) value ->
  exists r,
    Likelihood.likelihood_deaths np_log value nf I probdI probdU = Ok r /\
    (r <=? 0) = true /\
    (Exists (fun j => (mix j <=? 0) = true) value -> r = neg_infinity).
Proof.
  intros Hlog0 Hlog1 Hidx mix Hprob.
  rewrite (likelihood_deaths_sum np_log value nf I probdI probdU Hlog0 Hidx).
  eexists. split; [reflexivity|].
  assert (Hterms : Forall (fun x => (x <=? 0) = true)
                     (map (fun j => Likelihood.floored_log np_log
                                      (Likelihood.mixture_at nf I probdI probdU j)) value)).
  { apply Forall_map. eapply Forall_impl; [exact Hprob|]. simpl.
    intros j Hj. apply floored_log_le_zero; assumption. }
  split.
  - apply np_sum_nonpos, Hterms.
  - intros Hex. unfold Np.sum. apply fold_add_neg_infinity; [reflexivity|exact Hterms|].
    right. apply Exists_exists in Hex as (j & Hin & Hj).
    apply in_map_iff. exists j. split; [|apply list_elem_of_In, Hin].
    apply floored_log_nonpos; assumption.
Qed.

End DeathTermFacts.
(** ** Further facts: the list of likelihood terms and the potentials *)

Section TermListFacts.

Local Open Scope float_scope.

Lemma NoDup_flat_map {A B : Type} (f : A -> list B) (l : list A) :
  (forall x1 x2 y, In x1 l -> In x2 l -> In y (f x1) -> In y (f x2) -> x1 = x2) ->
  (forall x, In x l -> NoDup (f x)) -> NoDup l -> NoDup (flat_map f l).
Proof.
  intros Hinj Hf Hl. induction Hl as [|x t Hx Ht IH]; simpl; [constructor|].
  apply NoDup_app. split; [apply Hf; now left|]. split.
  - intros y Hy Hy'. apply list_elem_of_In in Hy, Hy'.
    apply in_flat_map in Hy' as (x' & Hx' & Hy').
    assert (x = x') by (apply (Hinj x x' y); simpl; auto). subst x'.
    apply Hx, list_elem_of_In, Hx'.
  - apply IH.
    + intros x1 x2 y H1 H2. apply Hinj; now right.
    + intros x' Hx'. apply Hf. now right.
Qed.

Lemma blk_NoDup (d : Model.Data) (l : Model.latent) (i : nat) :
  NoDup (Model.blk d l i).
Proof.
  unfold Model.blk.
  destruct (0 <? nth i (Model.survivors d (Model.group_of l)) 0%Z)%Z.
  - apply NoDup_cons. split; [|apply NoDup_singleton].
    intros H. apply list_elem_of_In in H as [H|[]]. discriminate.
  - apply NoDup_singleton.
Qed.

Lemma in_blk_same (d : Model.Data) (l l' : Model.latent) (i i' : nat) (n : Model.node) :
  In n (Model.blk d l i) -> In n (Model.blk d l' i') -> l = l' /\ i = i'.
Proof.
  intros H H'. apply in_blk in H, H'.
  destruct H as [->|[-> _]], H' as [H'|[H' _]]; try discriminate;
    injection H' as <- <-; auto.
Qed.

Lemma submodel_NoDup (d : Model.Data) (l : Model.latent) :
  NoDup (flat_map (Model.blk d l) (Model.dose_range d)).
Proof.
  apply NoDup_flat_map.
  - intros i i' n _ _ H H'. exact (proj2 (in_blk_same d l l i i' n H H')).
  - intros i _. apply blk_NoDup.
  - apply NoDup_ListNoDup, seq_NoDup.
Qed.

Lemma submodels_disjoint (d : Model.Data) (l l' : Model.latent) (n : Model.node) :
  l <> l' ->
  In n (flat_map (Model.blk d l) (Model.dose_range d)) ->
  ~ In n (flat_map (Model.blk d l') (Model.dose_range d)).
Proof.
  intros Hne H H'. apply in_flat_map in H as (i & _ & H), H' as (i' & _ & H').
  apply Hne. exact (proj1 (in_blk_same d l l' i i' n H H')).
Qed.

(** X10: no likelihood term is listed twice, in [m.liks] of timeEst.py and
    in [m.liks] of timeTestHom.py: summing over the list counts every
    observation once. *)
Theorem liks_no_duplicates (d : Model.Data) (est hom : list Model.node) :
  Model.well_formed d ->
  Model.timeEst_liks d = Ok est -> Model.timeTestHom_liks d = Ok hom ->
  NoDup est /\ NoDup hom.
Proof.
  intros Hwf Hest Hhom.
  assert (Eest : est = flat_map (fun i => Model.blk d Model.Ig1d i
                                           ++ Model.blk d Model.Ig2d i)
                                (Model.dose_range d))
    by (pose proof (timeEst_liks_ok d Hwf); congruence).
  assert (Ehom : hom = flat_map (Model.blk d Model.I1hom) (Model.dose_range d)
                       ++ flat_map (Model.blk d Model.I2hom) (Model.dose_range d)
                       ++ flat_map (Model.blk d Model.I1het) (Model.dose_range d)
                       ++ flat_map (Model.blk d Model.I2het) (Model.dose_range d))
    by (pose proof (timeTestHom_liks_ok d Hwf); congruence).
  subst est hom. clear Hest Hhom.
  split.
  - apply NoDup_flat_map.
    + intros i i' n _ _ H H'. apply in_app_or in H, H'.
      destruct H as [H|H], H' as [H'|H'];
        exact (proj2 (in_blk_same d _ _ i i' n H H')).
    + intros i _. apply NoDup_app. split; [apply blk_NoDup|]. split; [|apply blk_NoDup].
      intros n H H'. apply list_elem_of_In in H, H'.
      destruct (in_blk_same d _ _ i i n H H') as [Hl _]. discriminate.
    + apply NoDup_ListNoDup, seq_NoDup.
  - repeat (apply NoDup_app; split; [apply submodel_NoDup|split]);
      try apply submodel_NoDup;
      intros n H H'; apply list_elem_of_In in H; apply list_elem_of_In in H';
      repeat (apply in_app_or in H' as [H'|H']);
      (eapply submodels_disjoint; [|exact H|exact H']); discriminate.
Qed.

(** X11: every term of the two lists belongs to a positive dose and to a
    latent family of its model, and a survivor term is listed only for a
    positive survivor count: the control doses contribute no term. *)
Theorem liks_only_positive_doses (d : Model.Data) (est hom : list Model.node) :
  Model.well_formed d ->
  Model.timeEst_liks d = Ok est -> Model.timeTestHom_liks d = Ok hom ->
  forall n,
    let term_of := fun ls : list Model.latent =>
      exists l i dose,
        In l ls /\ Model.doses d !! i = Some dose /\ (0 <? dose) = true /\
        (n = Model.LD l i \/
         (n = Model.LS l i /\
          exists s, Model.survivors d (Model.group_of l) !! i = Some s /\ (0 < s)%Z)) in
    (In n est -> term_of Model.timeEst_families) /\
    (In n hom -> term_of Model.timeTestHom_families).
Proof.
  intros Hwf Hest Hhom n term_of.
  assert (Eest : est = flat_map (fun i => Model.blk d Model.Ig1d i
                                           ++ Model.blk d Model.Ig2d i)
                                (Model.dose_range d))
    by (pose proof (timeEst_liks_ok d Hwf); congruence).
  assert (Ehom : hom = flat_map (Model.blk d Model.I1hom) (Model.dose_range d)
                       ++ flat_map (Model.blk d Model.I2hom) (Model.dose_range d)
                       ++ flat_map (Model.blk d Model.I1het) (Model.dose_range d)
                       ++ flat_map (Model.blk d Model.I2het) (Model.dose_range d))
    by (pose proof (timeTestHom_liks_ok d Hwf); congruence).
  subst est hom. clear Hest Hhom.
  assert (Hgen : forall ls liks, Model.made_of_blocks d ls liks -> In n liks -> term_of ls).
  { intros ls liks Hmade Hin. apply Hmade in Hin as (l & i & Hl & Hi & Hn).
    pose proof (proj1 (in_dose_range d i) Hi) as Hrange.
    destruct (lookup_lt_is_Some_2 (Model.doses d) i) as [dose Hdose]; [lia|].
    exists l, i, dose. split; [exact Hl|]. split; [exact Hdose|].
    split; [exact (proj1 (dose_range_positive d i dose Hwf Hdose) Hi)|].
    apply in_blk in Hn as [->|[-> Hs]]; [now left|right]. split; [reflexivity|].
    assert (Hlt : (i < length (Model.survivors d (Model.group_of l)))%nat).
    { rewrite (Model.wf_survivors d Hwf). lia. }
    destruct (lookup_lt_is_Some_2 _ _ Hlt) as [s Hs'].
    rewrite (nth_lookup_Some _ _ 0%Z _ Hs') in Hs. eauto. }
  split; intros Hin.
  - exact (Hgen _ _ (timeEst_made_of_blocks d) Hin).
  - exact (Hgen _ _ (timeTestHom_made_of_blocks d) Hin).
Qed.

(** *** The potentials at the edges of the comparison *)

Lemma nan_leb (a b : float) :
  is_nan a = true \/ is_nan b = true -> (a <=? b) = false.
Proof.
  intros H. destruct (a <=? b) eqn:E; [|reflexivity].
  destruct (F64Facts.leb_not_nan _ _ E) as [Ha Hb]. destruct H; congruence.
Qed.

(** X12: the potential compares with [>=], and a comparison with NaN is
    false.  So a draw whose infected and uninfected cumulative death
    probabilities at the end of the study are equal is accepted (potential
    0), and a draw for which either of them is NaN is rejected (potential
    minus infinity). *)
Theorem potIdeaths_edges (gamma_cdf : float -> float -> float -> float)
    (d : Model.Data) (tend sI tauI sU tauU : float) :
  Py.max (Model.times d) = Ok tend ->
  let cI := gamma_cdf tend sI tauI in
  let cU := gamma_cdf tend sU tauU in
  ((cI =? cU) = true -> Model.potIdeaths gamma_cdf d sI tauI sU tauU = Ok 0) /\
  (is_nan cI = true \/ is_nan cU = true ->
   Model.potIdeaths gamma_cdf d sI tauI sU tauU = Ok neg_infinity).
Proof.
  intros Hmax cI cU. unfold Model.potIdeaths. rewrite Hmax. simpl. fold cI cU. split.
  - intros Heq. rewrite F64Facts.eqb_sym in Heq.
    now rewrite (F64Facts.eqb_leb _ _ Heq).
  - intros Hnan. rewrite nan_leb; [reflexivity|]. tauto.
Qed.

(** *** The recorded names of the latent counts *)

Lemma latent_name_inj (l l' : Model.latent) (i i' : nat) :
  Parameters.latent_name l i = Parameters.latent_name l' i' -> l = l' /\ i = i'.
Proof.
  unfold Parameters.latent_name.
  destruct l, l'; simpl; intros H; try discriminate;
    (split; [reflexivity|]);
    repeat (injection H as H); exact (pretty_nat_inj _ _ H).
Qed.

Lemma in_latent_names (d : Model.Data) (l l' : Model.latent) (i : nat) :
  In (Parameters.latent_name l i) (Parameters.latent_names d l')
  <-> l = l' /\ In i (Model.dose_range d).
Proof.
  unfold Parameters.latent_names. rewrite in_map_iff. split.
  - intros (i' & Heq & Hin). apply latent_name_inj in Heq as [-> ->]. auto.
  - intros [-> Hin]. eauto.
Qed.

Lemma latent_names_NoDup (d : Model.Data) (ls : list Model.latent) :
  NoDup ls -> NoDup (flat_map (Parameters.latent_names d) ls).
Proof.
  intros Hls. apply NoDup_flat_map; [| |exact Hls].
  - intros l l' name _ _ H H'. unfold Parameters.latent_names in H, H'.
    apply in_map_iff in H as (i & <- & _). apply in_map_iff in H' as (i' & Heq & _).
    apply latent_name_inj in Heq as [-> _]. reflexivity.
  - intros l _. unfold Parameters.latent_names.
    apply NoDup_fmap_2; [|apply NoDup_ListNoDup, seq_NoDup].
    intros i i' Heq. exact (proj2 (latent_name_inj l l i i' Heq)).
Qed.

Lemma made_of_blocks_death_terms (d : Model.Data) (ls : list Model.latent)
    (liks : list Model.node) (l : Model.latent) (i : nat) :
  Model.made_of_blocks d ls liks ->
  (In (Model.LD l i) liks <-> In l ls /\ In i (Model.dose_range d)).
Proof.
  intros Hmade. rewrite (Hmade (Model.LD l i)). split.
  - intros (l' & i' & Hl & Hi & Hn). apply in_blk in Hn as [Hn|[Hn _]]; [|discriminate].
    injection Hn as <- <-. auto.
  - intros [Hl Hi]. exists l, i. repeat split; try assumption. apply in_blk. now left.
Qed.

Lemma names_of_death_terms (d : Model.Data) (ls ls' : list Model.latent)
    (liks : list Model.node) (name : string) :
  Model.made_of_blocks d ls liks -> (forall l, In l ls' <-> In l ls) ->
  (In name (flat_map (Parameters.latent_names d) ls')
   <-> exists l i, In (Model.LD l i) liks /\ name = Parameters.latent_name l i).
Proof.
  intros Hmade Hsame. rewrite in_flat_map. split.
  - intros (l & Hl & Hin). unfold Parameters.latent_names in Hin.
    apply in_map_iff in Hin as (i & <- & Hi). exists l, i. split; [|reflexivity].
    apply (made_of_blocks_death_terms d ls liks l i Hmade). split; [|exact Hi].
    apply Hsame, Hl.
  - intros (l & i & Hin & ->).
    apply (made_of_blocks_death_terms d ls liks l i Hmade) in Hin as [Hl Hi].
    exists l. split; [apply Hsame, Hl|]. apply in_latent_names. auto.
Qed.

(** X13: the names that [__init__] of timeEst.py and [likelihood_setup] of
    timeTestHom.py append to [m.parameters] are, each once, the names of the
    latent infected counts that are the parents of the death terms in
    [m.liks]: the loop that records the names and the loop that builds the
    terms run over the same doses. *)
Theorem recorded_latent_names (d : Model.Data) (priors : list string)
    (est hom : list Model.node) :
  Model.well_formed d ->
  Model.timeEst_liks d = Ok est -> Model.timeTestHom_liks d = Ok hom ->
  (exists ext,
     Parameters.timeEst priors d = priors ++ ext /\ NoDup ext /\
     forall name, In name ext
       <-> exists l i, In (Model.LD l i) est /\ name = Parameters.latent_name l i) /\
  (exists ext,
     Parameters.timeTestHom priors d = priors ++ ext /\ NoDup ext /\
     forall name, In name ext
       <-> exists l i, In (Model.LD l i) hom /\ name = Parameters.latent_name l i).
Proof.
  intros Hwf Hest Hhom.
  assert (Eest : est = flat_map (fun i => Model.blk d Model.Ig1d i
                                           ++ Model.blk d Model.Ig2d i)
                                (Model.dose_range d))
    by (pose proof (timeEst_liks_ok d Hwf); congruence).
  assert (Ehom : hom = flat_map (Model.blk d Model.I1hom) (Model.dose_range d)
                       ++ flat_map (Model.blk d Model.I2hom) (Model.dose_range d)
                       ++ flat_map (Model.blk d Model.I1het) (Model.dose_range d)
                       ++ flat_map (Model.blk d Model.I2het) (Model.dose_range d))
    by (pose proof (timeTestHom_liks_ok d Hwf); congruence).
  subst est hom. clear Hest Hhom.
  split.
  - exists (flat_map (Parameters.latent_names d) [Model.Ig1d; Model.Ig2d]).
    split; [|split].
    + unfold Parameters.timeEst. simpl. now rewrite app_nil_r, app_assoc.
    + apply latent_names_NoDup.
      repeat (apply NoDup_cons; split;
              [rewrite ?elem_of_cons, elem_of_nil; intuition discriminate|]).
      apply NoDup_nil_2.
    + intros name. apply (names_of_death_terms d Model.timeEst_families).
      * apply timeEst_made_of_blocks.
      * reflexivity.
  - exists (flat_map (Parameters.latent_names d)
              [Model.I1hom; Model.I1het; Model.I2hom; Model.I2het]).
    split; [|split].
    + unfold Parameters.timeTestHom. simpl. now rewrite app_nil_r, <- !app_assoc.
    + apply latent_names_NoDup.
      repeat (apply NoDup_cons; split;
              [rewrite ?elem_of_cons, elem_of_nil; intuition discriminate|]).
      apply NoDup_nil_2.
    + intros name. apply (names_of_death_terms d Model.timeTestHom_families).
      * apply timeTestHom_made_of_blocks.
      * intros l. unfold Model.timeTestHom_families. simpl. tauto.
Qed.

End TermListFacts.
(** ** Further facts: timeTestHom.py's summarizer and plot wrappers *)

Section TestHomFacts.

Local Open Scope float_scope.

Variable kpdf : float -> float -> float -> float -> float.
Variable kpdfInt : float -> float -> float -> float -> float -> float.
Variable pi_hom : float -> float -> float -> float.
Variable pi_het : float -> float -> float -> float -> float -> float.
Variable confint : Np.matrix -> Np.matrix.

(** One round of the loop over the dose indices of timeTestHom.py: all four
    curves are built from the cumulative curve of the infected hosts of
    group 1, and both heterogeneous ones from the shape samples [a1s],
    [b1s]. *)
Lemma testhom_dose_step_inv (d : Model.Data) (S : Posterior.samples) (nts : nat)
    (cdfI1_s cdfU_s : Np.matrix) (di : nat)
    (y : (Np.matrix * Np.matrix) * (Np.matrix * Np.matrix)) :
  TestHom.dose_step pi_hom pi_het d S nts cdfI1_s cdfU_s di = Ok y ->
  exists dose,
    Model.doses d !! di = Some dose /\
    Posterior.dose_curve
      (Posterior.pi_homs pi_hom dose (Posterior.arr S "p1hom") (Posterior.arr S "eps"))
      nts cdfI1_s cdfU_s = Ok (fst (fst y)) /\
    Posterior.dose_curve
      (Posterior.pi_hets pi_het dose (Posterior.arr S "p1het") (Posterior.arr S "a1")
         (Posterior.arr S "b1") (Posterior.arr S "eps"))
      nts cdfI1_s cdfU_s = Ok (snd (fst y)) /\
    Posterior.dose_curve
      (Posterior.pi_homs pi_hom dose (Posterior.arr S "p2hom") (Posterior.arr S "eps"))
      nts cdfI1_s cdfU_s = Ok (fst (snd y)) /\
    Posterior.dose_curve
      (Posterior.pi_hets pi_het dose (Posterior.arr S "p2het") (Posterior.arr S "a1")
         (Posterior.arr S "b1") (Posterior.arr S "eps"))
      nts cdfI1_s cdfU_s = Ok (snd (snd y)).
Proof.
  unfold TestHom.dose_step.
  destruct (Model.doses d !! di) as [dose|]; simpl; [|discriminate].
  destruct (Posterior.get S "p1hom") as [p1homs|] eqn:E1; simpl; [|discriminate].
  destruct (Posterior.get S "eps") as [epss|] eqn:E2; simpl; [|discriminate].
  destruct (Posterior.get S "p1het") as [p1hets|] eqn:E3; simpl; [|discriminate].
  destruct (Posterior.get S "a1") as [a1s|] eqn:E4; simpl; [|discriminate].
  destruct (Posterior.get S "b1") as [b1s|] eqn:E5; simpl; [|discriminate].
  destruct (Posterior.dose_curve (Posterior.pi_homs pi_hom dose p1homs epss) nts
              cdfI1_s cdfU_s) as [c1hom|] eqn:C1; simpl; [|discriminate].
  destruct (Posterior.dose_curve (Posterior.pi_hets pi_het dose p1hets a1s b1s epss) nts
              cdfI1_s cdfU_s) as [c1het|] eqn:C2; simpl; [|discriminate].
  destruct (Posterior.get S "p2hom") as [p2homs|] eqn:E6; simpl; [|discriminate].
  destruct (Posterior.get S "p2het") as [p2hets|] eqn:E7; simpl; [|discriminate].
  destruct (Posterior.dose_curve (Posterior.pi_homs pi_hom dose p2homs epss) nts
              cdfI1_s cdfU_s) as [c2hom|] eqn:C3; simpl; [|discriminate].
  destruct (Posterior.dose_curve (Posterior.pi_hets pi_het dose p2hets a1s b1s epss) nts
              cdfI1_s cdfU_s) as [c2het|] eqn:C4; simpl; [|discriminate].
  intros [= <-]. exists dose. split; [reflexivity|].
  rewrite (get_arr _ _ _ E1), (get_arr _ _ _ E2), (get_arr _ _ _ E3),
    (get_arr _ _ _ E4), (get_arr _ _ _ E5), (get_arr _ _ _ E6), (get_arr _ _ _ E7).
  simpl. auto.
Qed.

(** The round reads the samples of the seven parameters of
    [TestHom.dose_names] only. *)
Lemma testhom_dose_step_ext (d : Model.Data) (S S' : Posterior.samples) (nts : nat)
    (cdfI1_s cdfU_s : Np.matrix) (di : nat) :
  (forall name, In name TestHom.dose_names -> S !! name = S' !! name) ->
  TestHom.dose_step pi_hom pi_het d S' nts cdfI1_s cdfU_s di
  = TestHom.dose_step pi_hom pi_het d S nts cdfI1_s cdfU_s di.
Proof.
  intros H. unfold TestHom.dose_step, Posterior.get.
  rewrite <- (H "p1hom"), <- (H "eps"), <- (H "p1het"), <- (H "a1"), <- (H "b1"),
    <- (H "p2hom"), <- (H "p2het")
    by (unfold TestHom.dose_names; simpl; auto 8).
  reflexivity.
Qed.

(** What a run of [__calc__] of timeTestHom.py that returned has computed. *)
Lemma testhom_summarize_inv (d : Model.Data) (S : Posterior.samples)
    (v : TestHom.Summary) :
  TestHom.summarize kpdf kpdfInt pi_hom pi_het confint d S = Ok v ->
  exists tauUs tauI1s tauI2s rest,
    Posterior.divide (Posterior.arr S "meanU") (Posterior.arr S "sU") = Ok tauUs /\
    Posterior.divide (Posterior.arr S "meanI1") (Posterior.arr S "sI1") = Ok tauI1s /\
    Posterior.divide (Posterior.arr S "meanI2") (Posterior.arr S "sI2") = Ok tauI2s /\
    Posterior.time_grid d = Ok (TestHom.ts v) /\
    let grid := TestHom.ts v in
    let ks := Posterior.arr S "k" in
    let cU := Posterior.callArray (kpdfInt 0) grid (Posterior.arr S "sU") tauUs ks in
    let cI1 := Posterior.callArray (kpdfInt 0) grid (Posterior.arr S "sI1") tauI1s ks in
    (1 <= Model.ndoses d)%nat /\
    for_each (TestHom.dose_step pi_hom pi_het d S (length grid) cI1 cU)
      (seq 1 (Model.ndoses d - 1)) = Ok rest /\
    TestHom.cdf1hom_samples v
    = Posterior.control_curve cU :: map (fun r => fst (fst r)) rest /\
    TestHom.cdf1het_samples v
    = Posterior.control_curve cU :: map (fun r => snd (fst r)) rest /\
    TestHom.cdf2hom_samples v
    = Posterior.control_curve cU :: map (fun r => fst (snd r)) rest /\
    TestHom.cdf2het_samples v
    = Posterior.control_curve cU :: map (fun r => snd (snd r)) rest /\
    TestHom.pdfI2_samples v
    = Posterior.callArray kpdf grid (Posterior.arr S "sI2") tauI2s ks /\
    TestHom.cdf2hom_ci v = map confint (TestHom.cdf2hom_samples v) /\
    TestHom.cdf2het_ci v = map confint (TestHom.cdf2het_samples v).
Proof.
  unfold TestHom.summarize.
  destruct (Posterior.get S "meanU") as [meanUs|] eqn:E1; simpl; [|discriminate].
  destruct (Posterior.get S "sU") as [sUs|] eqn:E2; simpl; [|discriminate].
  destruct (Posterior.divide meanUs sUs) as [tauUs|] eqn:D1; simpl; [|discriminate].
  destruct (Posterior.get S "meanI1") as [meanI1s|] eqn:E3; simpl; [|discriminate].
  destruct (Posterior.get S "sI1") as [sI1s|] eqn:E4; simpl; [|discriminate].
  destruct (Posterior.divide meanI1s sI1s) as [tauI1s|] eqn:D2; simpl; [|discriminate].
  destruct (Posterior.get S "meanI2") as [meanI2s|] eqn:E5; simpl; [|discriminate].
  destruct (Posterior.get S "sI2") as [sI2s|] eqn:E6; simpl; [|discriminate].
  destruct (Posterior.divide meanI2s sI2s) as [tauI2s|] eqn:D3; simpl; [|discriminate].
  destruct (Posterior.time_grid d) as [grid|] eqn:E7; simpl; [|discriminate].
  destruct (Posterior.get S "k") as [ks|] eqn:E8; simpl; [|discriminate].
  destruct (Nat.eqb_spec (Model.ndoses d) 0) as [|Hnd]; simpl; [discriminate|].
  match goal with |- context [for_each ?f ?xs] =>
    destruct (for_each f xs) as [rest|] eqn:EL end; simpl; [|discriminate].
  intros [= <-]. simpl.
  rewrite (get_arr _ _ _ E1), (get_arr _ _ _ E2), (get_arr _ _ _ E3),
    (get_arr _ _ _ E4), (get_arr _ _ _ E5), (get_arr _ _ _ E6), (get_arr _ _ _ E8).
  exists tauUs, tauI1s, tauI2s, rest.
  split; [exact D1|]. split; [exact D2|]. split; [exact D3|].
  split; [reflexivity|]. split; [lia|]. split; [exact EL|].
  repeat split; reflexivity.
Qed.

Lemma in_testhom_names (P : string -> Prop) :
  (forall name, In name TestHom.read_names -> P name) ->
  P "meanU" /\ P "sU" /\ P "meanI1" /\ P "sI1" /\ P "meanI2" /\ P "sI2" /\
  P "k" /\ P "p1hom" /\ P "eps" /\ P "p1het" /\ P "a1" /\ P "b1" /\
  P "p2hom" /\ P "p2het".
Proof.
  intros H. repeat split; apply H; unfold TestHom.read_names; simpl; auto 15.
Qed.

(** With as many samples of every parameter: the four sets of survival
    curves are the control curve followed by convex combinations of the
    cumulative curves of the uninfected hosts and of the infected hosts of
    group 1. *)
Lemma testhom_summarize_aligned (d : Model.Data) (S : Posterior.samples)
    (v : TestHom.Summary) (n : nat) :
  TestHom.summarize kpdf kpdfInt pi_hom pi_het confint d S = Ok v ->
  (forall name, In name TestHom.read_names -> length (Posterior.arr S name) = n) ->
  let grid := TestHom.ts v in
  let cU := Posterior.cumulative kpdfInt S grid "meanU" "sU" in
  let cI1 := Posterior.cumulative kpdfInt S grid "meanI1" "sI1" in
  Posterior.time_grid d = Ok grid /\
  Posterior.survival_curves d
    (fun dose => Posterior.pi_homs pi_hom dose (Posterior.arr S "p1hom")
                   (Posterior.arr S "eps"))
    (length grid) cI1 cU = Ok (TestHom.cdf1hom_samples v) /\
  Posterior.survival_curves d
    (fun dose => Posterior.pi_hets pi_het dose (Posterior.arr S "p1het")
                   (Posterior.arr S "a1") (Posterior.arr S "b1") (Posterior.arr S "eps"))
    (length grid) cI1 cU = Ok (TestHom.cdf1het_samples v) /\
  Posterior.survival_curves d
    (fun dose => Posterior.pi_homs pi_hom dose (Posterior.arr S "p2hom")
                   (Posterior.arr S "eps"))
    (length grid) cI1 cU = Ok (TestHom.cdf2hom_samples v) /\
  Posterior.survival_curves d
    (fun dose => Posterior.pi_hets pi_het dose (Posterior.arr S "p2het")
                   (Posterior.arr S "a1") (Posterior.arr S "b1") (Posterior.arr S "eps"))
    (length grid) cI1 cU = Ok (TestHom.cdf2het_samples v) /\
  TestHom.pdfI2_samples v = Posterior.density kpdf S grid "meanI2" "sI2" /\
  TestHom.cdf2hom_ci v = map confint (TestHom.cdf2hom_samples v) /\
  TestHom.cdf2het_ci v = map confint (TestHom.cdf2het_samples v).
Proof.
  intros Hv Hlen grid cU cI1.
  destruct (testhom_summarize_inv d S v Hv)
    as (tauUs & tauI1s & tauI2s & rest & D1 & D2 & D3 & Hg & Hnd & HL
        & H1 & H2 & H3 & H4 & HI2 & Hci3 & Hci4).
  destruct (in_testhom_names _ Hlen)
    as (LmU & LsU & LmI1 & LsI1 & LmI2 & LsI2 & Lk & Lp1 & Le & Lq1 & La & Lb
        & Lp2 & Lq2).
  rewrite divide_aligned in D1, D2, D3 by lia.
  injection D1 as <-. injection D2 as <-. injection D3 as <-.
  fold (Posterior.cumulative kpdfInt S (TestHom.ts v) "meanU" "sU") in *.
  fold (Posterior.cumulative kpdfInt S (TestHom.ts v) "meanI1" "sI1") in *.
  fold (Posterior.density kpdf S (TestHom.ts v) "meanI2" "sI2") in *.
  fold grid in Hg, HL, H1, H2, H3, H4, HI2.
  fold cU in HL, H1, H2, H3, H4. fold cI1 in HL.
  assert (SU : Np.has_shape cU n (length grid)) by (apply cumulative_shape; assumption).
  assert (SI1 : Np.has_shape cI1 n (length grid)) by (apply cumulative_shape; assumption).
  assert (Hstep : forall di y,
             TestHom.dose_step pi_hom pi_het d S (length grid) cI1 cU di = Ok y ->
             exists dose, Model.doses d !! di = Some dose /\
               fst (fst y) = Posterior.convex_curve
                         (Posterior.pi_homs pi_hom dose (Posterior.arr S "p1hom")
                            (Posterior.arr S "eps")) (length grid) cI1 cU /\
               snd (fst y) = Posterior.convex_curve
                         (Posterior.pi_hets pi_het dose (Posterior.arr S "p1het")
                            (Posterior.arr S "a1") (Posterior.arr S "b1")
                            (Posterior.arr S "eps")) (length grid) cI1 cU /\
               fst (snd y) = Posterior.convex_curve
                         (Posterior.pi_homs pi_hom dose (Posterior.arr S "p2hom")
                            (Posterior.arr S "eps")) (length grid) cI1 cU /\
               snd (snd y) = Posterior.convex_curve
                         (Posterior.pi_hets pi_het dose (Posterior.arr S "p2het")
                            (Posterior.arr S "a1") (Posterior.arr S "b1")
                            (Posterior.arr S "eps")) (length grid) cI1 cU).
  { intros di y Hy. destruct (testhom_dose_step_inv _ _ _ _ _ _ _ Hy)
      as (dose & Hdose & C1 & C2 & C3 & C4).
    exists dose. split; [exact Hdose|].
    rewrite (dose_curve_aligned _ _ n) in C1; try assumption;
      [|apply pi_homs_length; assumption].
    rewrite (dose_curve_aligned _ _ n) in C2; try assumption;
      [|apply pi_hets_length; assumption].
    rewrite (dose_curve_aligned _ _ n) in C3; try assumption;
      [|apply pi_homs_length; assumption].
    rewrite (dose_curve_aligned _ _ n) in C4; try assumption;
      [|apply pi_hets_length; assumption].
    repeat split; congruence. }
  split; [exact Hg|].
  split.
  { unfold Posterior.survival_curves.
    destruct (Nat.eqb_spec (Model.ndoses d) 0) as [|_]; [lia|].
    rewrite (for_each_map_ok _ _ (fun r => fst (fst r)) _ _ HL); [simpl; now rewrite H1|].
    intros di y _ Hy. destruct (Hstep di y Hy) as (dose & -> & -> & _). reflexivity. }
  split.
  { unfold Posterior.survival_curves.
    destruct (Nat.eqb_spec (Model.ndoses d) 0) as [|_]; [lia|].
    rewrite (for_each_map_ok _ _ (fun r => snd (fst r)) _ _ HL); [simpl; now rewrite H2|].
    intros di y _ Hy. destruct (Hstep di y Hy) as (dose & -> & _ & -> & _). reflexivity. }
  split.
  { unfold Posterior.survival_curves.
    destruct (Nat.eqb_spec (Model.ndoses d) 0) as [|_]; [lia|].
    rewrite (for_each_map_ok _ _ (fun r => fst (snd r)) _ _ HL); [simpl; now rewrite H3|].
    intros di y _ Hy. destruct (Hstep di y Hy) as (dose & -> & _ & _ & -> & _).
    reflexivity. }
  split.
  { unfold Posterior.survival_curves.
    destruct (Nat.eqb_spec (Model.ndoses d) 0) as [|_]; [lia|].
    rewrite (for_each_map_ok _ _ (fun r => snd (snd r)) _ _ HL); [simpl; now rewrite H4|].
    intros di y _ Hy. destruct (Hstep di y Hy) as (dose & -> & _ & _ & _ & ->).
    reflexivity. }
  repeat split; assumption.
Qed.

(** X14: in the summary of timeTestHom.py, with [n] samples of every
    parameter, over the time grid of the data, group 2 has for each infection
    model one array of [n] rows and one column per grid point for each dose
    index, reduced to its credible interval; the array of a dose index
    [di >= 1] is, per sample and grid point,
    [1 - pi*cdfI1 - (1 - pi)*cdfU] where [cdfI1] is the cumulative curve of
    the infected hosts of group 1, and where [pi] is [ut.pi_hom] of the
    samples of [p2hom] for the homogeneous model and [ut.pi_het] of the
    samples of [p2het] with the shape samples [a1s], [b1s] of group 1 for the
    heterogeneous one. *)
Theorem testhom_group2_curves (d : Model.Data) (S : Posterior.samples)
    (v : TestHom.Summary) (n : nat) :
  TestHom.summarize kpdf kpdfInt pi_hom pi_het confint d S = Ok v ->
  (forall name, In name TestHom.read_names -> length (Posterior.arr S name) = n) ->
  let grid := TestHom.ts v in
  let g := length grid in
  (Posterior.time_grid d = Ok grid /\
   TestHom.cdf2hom_ci v = map confint (TestHom.cdf2hom_samples v) /\
   TestHom.cdf2het_ci v = map confint (TestHom.cdf2het_samples v) /\
   length (TestHom.cdf2hom_samples v) = Model.ndoses d /\
   length (TestHom.cdf2het_samples v) = Model.ndoses d /\
   Forall (fun c => Np.has_shape c n g) (TestHom.cdf2hom_samples v) /\
   Forall (fun c => Np.has_shape c n g) (TestHom.cdf2het_samples v)) /\
  forall di, (1 <= di < Model.ndoses d)%nat ->
    exists dose c2hom c2het,
      Model.doses d !! di = Some dose /\
      TestHom.cdf2hom_samples v !! di = Some c2hom /\
      TestHom.cdf2het_samples v !! di = Some c2het /\
      forall i t x mU sU mI1 sI1 k p2hom p2het e a1 b1,
        grid !! t = Some x ->
        Posterior.arr S "meanU" !! i = Some mU -> Posterior.arr S "sU" !! i = Some sU ->
        Posterior.arr S "meanI1" !! i = Some mI1 ->
        Posterior.arr S "sI1" !! i = Some sI1 ->
        Posterior.arr S "k" !! i = Some k ->
        Posterior.arr S "p2hom" !! i = Some p2hom ->
        Posterior.arr S "p2het" !! i = Some p2het ->
        Posterior.arr S "eps" !! i = Some e ->
        Posterior.arr S "a1" !! i = Some a1 -> Posterior.arr S "b1" !! i = Some b1 ->
        let u := kpdfInt 0 x sU (mU / sU) k in
        let i1 := kpdfInt 0 x sI1 (mI1 / sI1) k in
        Np.entry c2hom i t
        = Some (1 - pi_hom dose p2hom e * i1 - (1 - pi_hom dose p2hom e) * u) /\
        Np.entry c2het i t
        = Some (1 - pi_het dose p2het a1 b1 e * i1
                - (1 - pi_het dose p2het a1 b1 e) * u).
Proof.
  intros Hv Hlen grid g.
  destruct (testhom_summarize_aligned d S v n Hv Hlen)
    as (Hg & _ & _ & Hhom & Hhet & _ & Hci3 & Hci4).
  fold grid in Hg, Hhom, Hhet. fold g in Hhom, Hhet.
  destruct (in_testhom_names _ Hlen)
    as (LmU & LsU & LmI1 & LsI1 & LmI2 & LsI2 & Lk & Lp1 & Le & Lq1 & La & Lb
        & Lp2 & Lq2).
  assert (SU : Np.has_shape (Posterior.cumulative kpdfInt S grid "meanU" "sU") n g)
    by (apply cumulative_shape; assumption).
  assert (SI1 : Np.has_shape (Posterior.cumulative kpdfInt S grid "meanI1" "sI1") n g)
    by (apply cumulative_shape; assumption).
  destruct (survival_curves_lookup _ _ _ _ _ _ Hhom) as (L3 & _ & Hhom').
  destruct (survival_curves_lookup _ _ _ _ _ _ Hhet) as (L4 & _ & Hhet').
  assert (F3 : Forall (fun c => Np.has_shape c n g) (TestHom.cdf2hom_samples v)).
  { apply (survival_curves_shape _ _ _ n _ _ _ Hhom); try assumption.
    intros dose. apply pi_homs_length; assumption. }
  assert (F4 : Forall (fun c => Np.has_shape c n g) (TestHom.cdf2het_samples v)).
  { apply (survival_curves_shape _ _ _ n _ _ _ Hhet); try assumption.
    intros dose. apply pi_hets_length; assumption. }
  split.
  { split; [exact Hg|]. split; [exact Hci3|]. split; [exact Hci4|].
    split; [exact L3|]. split; [exact L4|]. split; [exact F3|exact F4]. }
  intros di Hdi.
  destruct (Hhom' di Hdi) as (dose & Hdose & E3).
  destruct (Hhet' di Hdi) as (dose' & Hdose' & E4).
  assert (dose' = dose) by congruence. subst dose'.
  exists dose. eexists. eexists.
  split; [exact Hdose|]. split; [exact E3|]. split; [exact E4|].
  intros i t x mU sU mI1 sI1 k p2hom p2het e a1 b1
    Hx HmU HsU HmI1 HsI1 Hk Hp2 Hq2 He Ha1 Hb1. cbv zeta.
  split; apply convex_cumulative_entry; try assumption.
  - apply pi_homs_lookup; assumption.
  - apply pi_hets_lookup; assumption.
Qed.

(** X15: the survival curves that timeTestHom.py summarizes do not depend on
    the samples of the group-2 parameters [meanI2], [sI2], [a2] and [b2]: two
    runs of [__calc__] on sample arrays that differ in these four only give
    the same four sets of survival curves, for group 2 as for group 1. *)
Theorem testhom_curves_ignore_group2 (d : Model.Data) (S S' : Posterior.samples)
    (v v' : TestHom.Summary) :
  TestHom.summarize kpdf kpdfInt pi_hom pi_het confint d S = Ok v ->
  TestHom.summarize kpdf kpdfInt pi_hom pi_het confint d S' = Ok v' ->
  (forall name, ~ In name ["meanI2"; "sI2"; "a2"; "b2"]%string -> S !! name = S' !! name) ->
  TestHom.cdf1hom_samples v' = TestHom.cdf1hom_samples v /\
  TestHom.cdf1het_samples v' = TestHom.cdf1het_samples v /\
  TestHom.cdf2hom_samples v' = TestHom.cdf2hom_samples v /\
  TestHom.cdf2het_samples v' = TestHom.cdf2het_samples v /\
  TestHom.cdf2hom_ci v' = TestHom.cdf2hom_ci v /\
  TestHom.cdf2het_ci v' = TestHom.cdf2het_ci v.
Proof.
  intros Hv Hv' Hsame.
  assert (Hkept : forall name,
             In name ["meanU"; "sU"; "meanI1"; "sI1"; "k"; "p1hom"; "eps"; "p1het";
                      "a1"; "b1"; "p2hom"; "p2het"]%string ->
             S !! name = S' !! name).
  { intros name Hin. apply Hsame. simpl in *. intuition (subst; discriminate). }
  assert (A : forall name,
             In name ["meanU"; "sU"; "meanI1"; "sI1"; "k"]%string ->
             Posterior.arr S' name = Posterior.arr S name).
  { intros name Hin. unfold Posterior.arr. rewrite (Hkept name); [reflexivity|].
    simpl in *. intuition. }
  destruct (testhom_summarize_inv d S v Hv)
    as (tauUs & tauI1s & tauI2s & rest & D1 & D2 & _ & Hg & _ & HL
        & H1 & H2 & H3 & H4 & _ & Hci3 & Hci4).
  destruct (testhom_summarize_inv d S' v' Hv')
    as (tauUs' & tauI1s' & tauI2s' & rest' & D1' & D2' & _ & Hg' & _ & HL'
        & H1' & H2' & H3' & H4' & _ & Hci3' & Hci4').
  assert (Hgrid : TestHom.ts v' = TestHom.ts v) by congruence.
  rewrite Hgrid in HL', H1', H2', H3', H4'.
  assert (AmU := A "meanU" ltac:(simpl; auto 10)).
  assert (AsU := A "sU" ltac:(simpl; auto 10)).
  assert (AmI1 := A "meanI1" ltac:(simpl; auto 10)).
  assert (AsI1 := A "sI1" ltac:(simpl; auto 10)).
  assert (Ak := A "k" ltac:(simpl; auto 10)).
  rewrite AmU, AsU in D1'. rewrite AmI1, AsI1 in D2'.
  rewrite AsU, AsI1, Ak in HL'. rewrite AsU, Ak in H1', H2', H3', H4'.
  assert (tauUs' = tauUs) by congruence. subst tauUs'.
  assert (tauI1s' = tauI1s) by congruence. subst tauI1s'.
  rewrite (for_each_ext _
             (TestHom.dose_step pi_hom pi_het d S (length (TestHom.ts v))
                (Posterior.callArray (kpdfInt 0) (TestHom.ts v) (Posterior.arr S "sI1")
                   tauI1s (Posterior.arr S "k"))
                (Posterior.callArray (kpdfInt 0) (TestHom.ts v) (Posterior.arr S "sU")
                   tauUs (Posterior.arr S "k")))) in HL'.
  2: { intros di _. apply testhom_dose_step_ext. intros name Hin. apply Hkept.
       unfold TestHom.dose_names in Hin. simpl in *. intuition. }
  assert (rest' = rest) by congruence. subst rest'.
  assert (E1 : TestHom.cdf1hom_samples v' = TestHom.cdf1hom_samples v) by congruence.
  assert (E2 : TestHom.cdf1het_samples v' = TestHom.cdf1het_samples v) by congruence.
  assert (E3 : TestHom.cdf2hom_samples v' = TestHom.cdf2hom_samples v) by congruence.
  assert (E4 : TestHom.cdf2het_samples v' = TestHom.cdf2het_samples v) by congruence.
  repeat split; try assumption.
  - now rewrite Hci3, Hci3', E3.
  - now rewrite Hci4, Hci4', E4.
Qed.

End TestHomFacts.

Section PlotFacts.

Context {V R : Type}.

Lemma copy_attr_inv (target source : string) (self self' : TestHom.object V) :
  TestHom.copy_attr target source self = TestHom.Done self' ->
  exists a, self !! source = Some a /\ self' = <[target := a]> self.
Proof.
  unfold TestHom.copy_attr, TestHom.getattr.
  destruct (self !! source) as [a|]; simpl; [|discriminate].
  intros [= <-]. eauto.
Qed.

(** What [setgroup(1)] and [setgroup(2)] assign, in the order of the
    assignments. *)
Lemma setgroup_inv (self self' : TestHom.object V) (i : Z) (n : string) :
  (i = 1%Z /\ n = "1"%string) \/ (i = 2%Z /\ n = "2"%string) ->
  TestHom.setgroup self i = TestHom.Done self' ->
  exists a b p1 p2 c1 c2,
    self !! ("a" +:+ n +:+ "s") = Some a /\
    <["a2s"%string := a]> self !! ("b" +:+ n +:+ "s") = Some b /\
    self !! ("pi" +:+ n +:+ "hom_ci") = Some p1 /\
    self !! ("pi" +:+ n +:+ "het_ci") = Some p2 /\
    self !! ("cdf" +:+ n +:+ "hom_ci") = Some c1 /\
    self !! ("cdf" +:+ n +:+ "het_ci") = Some c2 /\
    self' = <["cdf2_ci"%string := c2]> (<["cdf1_ci"%string := c1]>
              (<["pi2_ci"%string := p2]> (<["pi1_ci"%string := p1]>
                 (<["b2s"%string := b]> (<["a2s"%string := a]> self))))).
Proof.
  intros Hi H.
  assert (Hn : pretty i = n) by (destruct Hi as [[-> ->]|[-> ->]]; reflexivity).
  unfold TestHom.setgroup in H.
  assert (Hb : ((i =? 0)%Z = false) /\ ((i =? 1)%Z || (i =? 2)%Z = true))
    by (destruct Hi as [[-> _]|[-> _]]; split; reflexivity).
  destruct Hb as [Hb0 Hb12]. rewrite Hb0, Hb12, Hn in H. clear Hb0 Hb12 Hn.
  destruct (TestHom.copy_attr "a2s" ("a" +:+ n +:+ "s") self) as [s1|] eqn:E1;
    simpl in H; [|discriminate].
  destruct (TestHom.copy_attr "b2s" ("b" +:+ n +:+ "s") s1) as [s2|] eqn:E2;
    simpl in H; [|discriminate].
  destruct (TestHom.copy_attr "pi1_ci" ("pi" +:+ n +:+ "hom_ci") s2) as [s3|] eqn:E3;
    simpl in H; [|discriminate].
  destruct (TestHom.copy_attr "pi2_ci" ("pi" +:+ n +:+ "het_ci") s3) as [s4|] eqn:E4;
    simpl in H; [|discriminate].
  destruct (TestHom.copy_attr "cdf1_ci" ("cdf" +:+ n +:+ "hom_ci") s4) as [s5|] eqn:E5;
    simpl in H; [|discriminate].
  apply copy_attr_inv in E1 as (a & Ha & ->).
  apply copy_attr_inv in E2 as (b & Hb & ->).
  apply copy_attr_inv in E3 as (p1 & Hp1 & ->).
  apply copy_attr_inv in E4 as (p2 & Hp2 & ->).
  apply copy_attr_inv in E5 as (c1 & Hc1 & ->).
  apply copy_attr_inv in H as (c2 & Hc2 & ->).
  exists a, b, p1, p2, c1, c2.
  destruct Hi as [[_ ->]|[_ ->]]; cbv [String.append] in *;
    repeat (rewrite lookup_insert_ne in Hp1 by discriminate);
    repeat (rewrite lookup_insert_ne in Hp2 by discriminate);
    repeat (rewrite lookup_insert_ne in Hc1 by discriminate);
    repeat (rewrite lookup_insert_ne in Hc2 by discriminate);
    repeat split; assumption.
Qed.

(** X16: after [setgroup(1)], [setgroup(2)] does not bring the shape samples
    of group 2 back: [a2s] and [b2s] were overwritten with [a1s] and [b1s],
    and [setgroup(2)] assigns them to themselves.  So if the plot drawn in
    between leaves these two attributes alone, the plot of group 2 is handed
    the shape samples of group 1, with the bands [pi2hom_ci], [pi2het_ci],
    [cdf2hom_ci] and [cdf2het_ci] of group 2. *)
Theorem setgroup_2_after_1 (self s1 s1' s2 : TestHom.object V) :
  TestHom.setgroup self 1 = TestHom.Done s1 ->
  s1' !! "a2s"%string = s1 !! "a2s"%string ->
  s1' !! "b2s"%string = s1 !! "b2s"%string ->
  TestHom.setgroup s1' 2 = TestHom.Done s2 ->
  s2 !! "a2s"%string = self !! "a1s"%string /\
  s2 !! "b2s"%string = self !! "b1s"%string /\
  s2 !! "pi1_ci"%string = s1' !! "pi2hom_ci"%string /\
  s2 !! "pi2_ci"%string = s1' !! "pi2het_ci"%string /\
  s2 !! "cdf1_ci"%string = s1' !! "cdf2hom_ci"%string /\
  s2 !! "cdf2_ci"%string = s1' !! "cdf2het_ci"%string.
Proof.
  intros H1 Ha Hb H2.
  apply (setgroup_inv _ _ 1 "1") in H1
    as (a & b & p1 & p2 & c1 & c2 & Ea & Eb & _ & _ & _ & _ & ->); [|auto].
  apply (setgroup_inv _ _ 2 "2") in H2
    as (a' & b' & p1' & p2' & c1' & c2' & Ea' & Eb' & Ep1 & Ep2 & Ec1 & Ec2 & ->);
    [|auto].
  cbv [String.append] in *.
  rewrite lookup_insert_ne in Eb by discriminate.
  repeat (rewrite lookup_insert_ne in Ha by discriminate).
  repeat (rewrite lookup_insert_ne in Hb by discriminate).
  rewrite lookup_insert_eq in Ha, Hb.
  rewrite Ha in Ea'. injection Ea' as <-.
  rewrite lookup_insert_ne in Eb' by discriminate.
  rewrite Hb in Eb'. injection Eb' as <-.
  rewrite Ea, Eb, Ep1, Ep2, Ec1, Ec2.
  repeat split;
    repeat (rewrite lookup_insert_ne by discriminate); apply lookup_insert_eq.
Qed.

Variable super_plot : string -> TestHom.object V -> TestHom.outcome (R * TestHom.object V).

(** X17: when a plot wrapper of timeTestHom.py returns, the six attributes
    that select a group are [None], whatever the superclass plots did; among
    them are [a2s] and [b2s], the shape samples of group 2. *)
Theorem plot_groups_reset (name1 name2 : string) (self self' : TestHom.object V)
    (res : R * R) :
  TestHom.plot_groups super_plot name1 name2 self = TestHom.Done (res, self') ->
  forall name, In name TestHom.group_attrs -> self' !! name = Some TestHom.PyNone.
Proof.
  unfold TestHom.plot_groups.
  destruct (TestHom.setgroup self 1) as [s1|]; simpl; [|discriminate].
  destruct (super_plot name1 s1) as [[r1 s1']|]; simpl; [|discriminate].
  destruct (TestHom.setgroup s1' 2) as [s2|]; simpl; [|discriminate].
  destruct (super_plot name2 s2) as [[r2 s2']|]; simpl; [|discriminate].
  intros [= _ <-] name Hin. unfold TestHom.group_attrs in Hin. simpl in Hin.
  repeat (destruct Hin as [<-|Hin];
          [repeat (rewrite lookup_insert_ne by discriminate); apply lookup_insert_eq|]).
  contradiction.
Qed.

End PlotFacts.
(** ** Further facts: setting a model up *)

Section SetupFacts.

Lemma last_char_none (s : string) : Setup.last_char s = None <-> s = ""%string.
Proof.
  split; [|intros ->; reflexivity].
  induction s as [|c t IH]; [reflexivity|]. simpl.
  destruct t as [|c' t']; [discriminate|]. intros H. apply IH in H. discriminate.
Qed.

Lemma last_char_app_slash (s : string) : Setup.last_char (s +:+ "/") = Some "/"%string.
Proof.
  induction s as [|c t IH]; [reflexivity|].
  change (String c t +:+ "/") with (String c (t +:+ "/")).
  change (Setup.last_char (String c (t +:+ "/")))
    with (match t +:+ "/" with
          | EmptyString => Some (String c EmptyString)
          | String _ _ => Setup.last_char (t +:+ "/")
          end).
  rewrite IH. destruct t; reflexivity.
Qed.

Lemma append_empty_r (s : string) : s +:+ "" = s.
Proof.
  induction s as [|c t IH]; [reflexivity|].
  change (String c t +:+ "") with (String c (t +:+ "")). now rewrite IH.
Qed.

Lemma with_slash_idempotent (path p' : string) :
  Setup.with_slash path = Ok p' -> Setup.with_slash p' = Ok p'.
Proof.
  unfold Setup.with_slash.
  destruct (Setup.last_char path) as [c|] eqn:E; simpl; [|discriminate].
  destruct (decide (c = "/"%string)) as [->|Hne]; intros [= <-].
  - rewrite append_empty_r, E. simpl. try rewrite decide_True by reflexivity.
    now rewrite ?append_empty_r.
  - rewrite last_char_app_slash. simpl. try rewrite decide_True by reflexivity.
    now rewrite ?append_empty_r.
Qed.

(** X18: [initializeModel] with [bOverWrite=False] never returns: it raises
    [NameError] at [m.path] whatever the data name, the folder and the disk
    are (and [IndexError] before that when [savePath] is the empty
    string). *)
Theorem initializeModel_no_overwrite (dataName resultsName : string)
    (savePath : option string) (fs : Setup.disk) :
  Setup.initializeModel dataName resultsName savePath false fs
  = if decide (savePath = Some ""%string) then Raise IndexError else Raise NameError.
Proof.
  destruct (decide (savePath = Some ""%string)) as [->|Hne]; [reflexivity|].
  unfold Setup.initializeModel, Setup.with_slash.
  destruct savePath as [s|]; simpl; [|reflexivity].
  destruct (Setup.last_char s) as [c|] eqn:E; simpl; [reflexivity|].
  apply last_char_none in E as ->. contradiction.
Qed.

(** X19: with [bOverWrite=True] the results folder is
    [<savePath>/<dataName>_timeEst/], whether or not [savePath] is given
    with its final slash and whatever [resultsName] is; afterwards the
    folder and its [data.pickle] exist, and nothing that existed before is
    gone. *)
Theorem initializeModel_folder (dataName resultsName s : string) (fs : Setup.disk) :
  s <> ""%string -> Setup.last_char s <> Some "/"%string ->
  let name := dataName +:+ "_timeEst" in
  let path := (s +:+ "/") +:+ name +:+ "/" in
  Setup.initializeModel dataName resultsName (Some (s +:+ "/")) true fs
  = Setup.initializeModel dataName "" (Some s) true fs /\
  exists fs',
    Setup.initializeModel dataName resultsName (Some s) true fs
    = Ok (name, path, fs') /\
    path ∈ fs' /\ path +:+ "data.pickle" ∈ fs' /\ fs ⊆ fs'.
Proof.
  intros Hne Hslash name path.
  assert (H1 : Setup.with_slash s = Ok (s +:+ "/")).
  { unfold Setup.with_slash.
    destruct (Setup.last_char s) as [c|] eqn:E; simpl.
    - destruct (decide (c = "/"%string)) as [->|_]; [contradiction|reflexivity].
    - apply last_char_none in E. contradiction. }
  assert (H2 : Setup.with_slash (s +:+ "/") = Ok (s +:+ "/"))
    by exact (with_slash_idempotent _ _ H1).
  unfold Setup.initializeModel. simpl. rewrite H1, H2. simpl.
  split; [reflexivity|].
  eexists. split; [reflexivity|].
  fold name. fold path.
  destruct (decide (path ∈ fs)); set_solver.
Qed.

(** X19 for the folder [out]. *)
Lemma initializeModel_folder_witness :
  Setup.initializeModel "flies" "run1" (Some "out/"%string) true ∅
  = Setup.initializeModel "flies" "" (Some "out"%string) true ∅.
Proof.
  apply (initializeModel_folder "flies" "run1" "out" ∅); discriminate.
Defined.

Lemma for_each_raise_all {A : Type} (e : exn) (xs : list A) :
  xs <> [] -> for_each (fun _ : A => @Raise unit e) xs = Raise e.
Proof. destruct xs; [contradiction|reflexivity]. Qed.

(** X20: [savedModel] on a folder that holds [data.pickle] and
    [model.pickle] rebuilds the model with the pickled name when the folder
    has no file [<name>.pickle]; when it has one, and the data have a
    positive dose, [savedModel] raises [NameError] instead of restoring the
    trace. *)
Theorem savedModel_restore (path p' : string) (folder : Setup.Folder)
    (model : Setup.Pickled) (priors : list string) (d : Model.Data) :
  Setup.with_slash path = Ok p' ->
  Setup.data_pickle folder = true ->
  Setup.model_pickle folder = Some model ->
  (Model.count_zero (Model.doses d) < length (Model.doses d))%nat ->
  let name := Setup.pickled_name model in
  let parameters := Parameters.timeEst priors d in
  (p' +:+ name +:+ ".pickle" ∉ Setup.files folder ->
   Setup.savedModel path folder parameters = Ok (name, p')) /\
  (p' +:+ name +:+ ".pickle" ∈ Setup.files folder ->
   Setup.savedModel path folder parameters = Raise NameError).
Proof.
  intros Hp Hd Hm Hdose name parameters.
  unfold Setup.savedModel. rewrite Hp, Hd, Hm. simpl. fold name. split; intros Hf.
  - rewrite decide_False by exact Hf. reflexivity.
  - rewrite decide_True by exact Hf.
    rewrite for_each_raise_all; [reflexivity|].
    unfold parameters, Parameters.timeEst, Parameters.latent_names, Model.dose_range.
    intros Hnil. apply (f_equal (@length string)) in Hnil.
    rewrite !length_app, !length_map, length_seq in Hnil. simpl in Hnil. lia.
Qed.

(** X20 at the reference folder and data: the sampler's database is there. *)
Lemma savedModel_restore_witness :
  Setup.savedModel "./results/flies_timeEst" Ref.folder
    (Parameters.timeEst ["p"; "eps"]%string Ref.data) = Raise NameError.
Proof.
  refine (proj2 (savedModel_restore "./results/flies_timeEst" "./results/flies_timeEst/"
                   Ref.folder (Setup.pickle "flies_timeEst" "./results/flies_timeEst/")
                   ["p"; "eps"]%string Ref.data eq_refl eq_refl eq_refl _) _).
  - vm_compute. lia.
  - vm_compute. set_solver.
Defined.

End SetupFacts.
(** ** Further facts: what a call of [calcPosterior] leaves for the plots,
       and a draw with an impossible observation *)

Section GuardFacts.

Local Open Scope float_scope.

Variable kpdf : float -> float -> float -> float -> float.
Variable kpdfInt : float -> float -> float -> float -> float -> float.
Variable pi_hom : float -> float -> float -> float.
Variable pi_het : float -> float -> float -> float -> float -> float.
Variable confint : Np.matrix -> Np.matrix.

Lemma calc_has_sUs (d : Model.Data) (parameters : list string) (fs : Posterior.Files)
    (M2 : Posterior.trace) (burnin thinF : Z) (obj : Posterior.Object)
    (fs' : Posterior.Files) :
  Posterior.calc kpdf kpdfInt pi_hom pi_het confint d parameters fs M2 burnin thinF
  = Ok (obj, fs') ->
  Posterior.has_sUs obj = true.
Proof.
  unfold Posterior.calc.
  destruct (Posterior.load_trace M2 parameters burnin thinF) as [loaded|];
    simpl; [|discriminate].
  destruct (Posterior.summarize kpdf kpdfInt pi_hom pi_het confint d
              (list_to_map loaded)) as [v|] eqn:Ev; simpl; [|discriminate].
  intros [= <- _]. unfold Posterior.has_sUs. simpl.
  apply bool_decide_eq_true.
  assert (Hok : is_ok (Posterior.summarize kpdf kpdfInt pi_hom pi_het confint d
                         (list_to_map loaded)) = true) by now rewrite Ev.
  apply summarize_ok_needs in Hok as [Hnames _].
  apply Hnames. unfold Posterior.base_names. simpl. auto.
Qed.

(** X21: after a call of [calcPosterior] that computed and returned, the
    guarded plots of timeEst.py ([plotBeta], [plotDoseResponse],
    [plotPosterior], [plotBestDays]) draw; after a call that met a summary
    stored for another burn-in or thinning factor, they do what they did
    before the call: on a fresh model they still ask to run
    [calcPosterior] first. *)
Theorem plots_after_calcPosterior {P : Type} (ut_plot : Posterior.Object -> P)
    (d : Model.Data) (parameters : list string)
    (self : Posterior.Object) (fs : Posterior.Files) (burnin thinF : Z)
    (bOverWrite : bool) (obj : Posterior.Object) (fs' : Posterior.Files) :
  Posterior.calcPosterior kpdf kpdfInt pi_hom pi_het confint d parameters self fs
    burnin thinF bOverWrite = Ok (obj, fs') ->
  (bOverWrite = true \/ Posterior.postcalc_pickle fs = None ->
   Posterior.guarded_plot ut_plot obj = Some (ut_plot obj)) /\
  (forall saved,
     bOverWrite = false -> Posterior.postcalc_pickle fs = Some saved ->
     Posterior.saved_burnin saved <> burnin \/ Posterior.saved_thinF saved <> thinF ->
     Posterior.guarded_plot ut_plot obj = Posterior.guarded_plot ut_plot self /\
     (Posterior.param_samples self = None ->
      Posterior.guarded_plot ut_plot obj = None)).
Proof.
  intros Hcall. split.
  - intros Hcomp.
    assert (Hcalc : exists M2,
               Posterior.calc kpdf kpdfInt pi_hom pi_het confint d parameters fs M2
                 burnin thinF = Ok (obj, fs')).
    { unfold Posterior.calcPosterior in Hcall.
      destruct bOverWrite.
      - destruct (Posterior.mcmc_pickle fs) as [M2|]; simpl in Hcall;
          [eauto|discriminate].
      - destruct Hcomp as [Hc|Hnone]; [discriminate|]. rewrite Hnone in Hcall.
        destruct (Posterior.mcmc_pickle fs) as [M2|]; simpl in Hcall;
          [eauto|discriminate]. }
    destruct Hcalc as [M2 Hcalc]. unfold Posterior.guarded_plot.
    now rewrite (calc_has_sUs _ _ _ _ _ _ _ _ Hcalc).
  - intros saved -> Hs Hne.
    rewrite (calcPosterior_stale kpdf kpdfInt pi_hom pi_het confint d parameters self fs
               saved burnin thinF Hs Hne) in Hcall.
    injection Hcall as <- <-. split; [reflexivity|].
    intros Hnone. unfold Posterior.guarded_plot, Posterior.has_sUs.
    now rewrite Hnone.
Qed.

End GuardFacts.

Section JointFacts.

Local Open Scope float_scope.

Variable np_log : float -> float.
Variable np_power : float -> Z -> float.
Variable gamma_cdf : float -> float -> float -> float.

Lemma potIdeaths_values (d : Model.Data) (sI tauI sU tauU p : float) :
  Model.potIdeaths gamma_cdf d sI tauI sU tauU = Ok p -> p = 0 \/ p = neg_infinity.
Proof.
  unfold Model.potIdeaths.
  destruct (Py.max (Model.times d)) as [tend|]; simpl; [|discriminate].
  destruct (gamma_cdf tend sU tauU <=? gamma_cdf tend sI tauI); intros [= <-]; auto.
Qed.

(** X22: a draw with an impossible observation is rejected whatever the
    potentials say.  When every likelihood term is at most 0 and one of them
    is minus infinity, the log-likelihood is minus infinity, and so is the
    log-probability of the draw. *)
Theorem joint_logp_impossible_observation (d : Model.Data) (st : Model.State)
    (liks : list Model.node) (terms : list float) (tend : float) :
  for_each (Model.node_logp np_log np_power d st) liks = Ok terms ->
  Forall (fun x => (x <=? 0) = true) terms ->
  In neg_infinity terms ->
  Py.max (Model.times d) = Ok tend ->
  Model.total_loglik np_log np_power d st liks = Ok neg_infinity /\
  Model.joint_logp np_log np_power gamma_cdf d st liks = Ok neg_infinity.
Proof.
  intros Hterms Hle Hin Hmax.
  assert (HL : Model.total_loglik np_log np_power d st liks = Ok neg_infinity).
  { unfold Model.total_loglik. rewrite Hterms. simpl. f_equal. unfold Py.sum.
    apply fold_add_neg_infinity; [reflexivity|exact Hle|now right]. }
  split; [exact HL|].
  unfold Model.joint_logp. rewrite HL. simpl.
  destruct (Model.potIdeaths1 gamma_cdf d st) as [p1|] eqn:E1.
  2: { unfold Model.potIdeaths1, Model.potIdeaths in E1. rewrite Hmax in E1.
       discriminate. }
  destruct (Model.potIdeaths2 gamma_cdf d st) as [p2|] eqn:E2.
  2: { unfold Model.potIdeaths2, Model.potIdeaths in E2. rewrite Hmax in E2.
       discriminate. }
  simpl. f_equal.
  rewrite (F64Facts.neg_infinity_add_pot p1 (potIdeaths_values _ _ _ _ _ _ E1)).
  exact (F64Facts.neg_infinity_add_pot p2 (potIdeaths_values _ _ _ _ _ _ E2)).
Qed.

End JointFacts.
(** ** Further facts: the death probabilities of the changing times *)

Section HazardFacts.

Local Open Scope float_scope.

Variable kpdfInt : float -> float -> float -> float -> float -> float.

Lemma item_inside (xs : list float) (c : nat) (x : float) :
  xs !! c = Some x -> Hazard.item xs (Z.of_nat c) = Ok x.
Proof.
  intros H. unfold Hazard.item.
  destruct (Z.leb_spec 0 (Z.of_nat c)); [|lia].
  now rewrite Nat2Z.id, H.
Qed.

Lemma item_minus_one (xs : list float) (x : float) :
  last xs = Some x -> Hazard.item xs (-1) = Ok x.
Proof.
  intros H. unfold Hazard.item.
  assert (Hlen : (1 <= length xs)%nat).
  { destruct xs; [discriminate|simpl; lia]. }
  destruct (Z.leb_spec 0 (-1)); [lia|].
  destruct (Z.leb_spec (- Z.of_nat (length xs)) (-1)); [|lia].
  replace (Z.to_nat (Z.of_nat (length xs) + -1)) with (length xs - 1)%nat by lia.
  rewrite last_lookup in H.
  replace (length xs - 1)%nat with (Nat.pred (length xs)) by lia.
  now rewrite H.
Qed.

Lemma items_lookup (xs : list float) (idx : list Z) (ys : list float) (j : nat) (c : Z) :
  Hazard.items xs idx = Ok ys -> idx !! j = Some c ->
  exists y, ys !! j = Some y /\ Hazard.item xs c = Ok y.
Proof. apply for_each_lookup. Qed.

(** X23: the array of death probabilities has one entry per changing time.
    The entry of a changing time with index [c >= 1] is [ut.kpdfInt] between
    the observation times [times[c-1]] and [times[c]]; a changing time with
    index 0 is not refused: its interval runs from the last observation time
    to the first, because [times[0-1]] is [times[-1]]. *)
Theorem probd_intervals (times : list float) (chgT : list Z) (s tau k : float)
    (ps : list float) :
  Hazard.probd kpdfInt times chgT s tau k = Ok ps ->
  length ps = length chgT /\
  (forall j c t1 t2,
     chgT !! j = Some (Z.of_nat (S c)) -> times !! c = Some t1 ->
     times !! S c = Some t2 ->
     ps !! j = Some (kpdfInt t1 t2 s tau k)) /\
  (forall j tfirst tlast,
     chgT !! j = Some 0%Z -> times !! 0%nat = Some tfirst -> last times = Some tlast ->
     ps !! j = Some (kpdfInt tlast tfirst s tau k)).
Proof.
  unfold Hazard.probd.
  destruct (Hazard.items times (map (fun c => (c - 1)%Z) chgT)) as [t1s|] eqn:E1;
    simpl; [|discriminate].
  destruct (Hazard.items times chgT) as [t2s|] eqn:E2; simpl; [|discriminate].
  intros [= <-].
  pose proof (for_each_length _ _ _ E1) as L1. rewrite length_map in L1.
  pose proof (for_each_length _ _ _ E2) as L2.
  split; [rewrite length_zip_with; lia|].
  assert (Hgen : forall j c a b,
             chgT !! j = Some c -> Hazard.item times (c - 1) = Ok a ->
             Hazard.item times c = Ok b ->
             zip_with (fun a b => kpdfInt a b s tau k) t1s t2s !! j
             = Some (kpdfInt a b s tau k)).
  { intros j c a b Hc Ha Hb.
    assert (Hc' : map (fun c => (c - 1)%Z) chgT !! j = Some (c - 1)%Z).
    { now rewrite list_lookup_fmap, Hc. }
    destruct (items_lookup _ _ _ _ _ E1 Hc') as (a' & Ha' & Hia).
    destruct (items_lookup _ _ _ _ _ E2 Hc) as (b' & Hb' & Hib).
    rewrite lookup_zip_with, Ha', Hb'. simpl. congruence. }
  split.
  - intros j c t1 t2 Hc H1 H2. apply (Hgen j (Z.of_nat (S c))); [exact Hc| |].
    + replace (Z.of_nat (S c) - 1)%Z with (Z.of_nat c) by lia. now apply item_inside.
    + now apply item_inside.
  - intros j tfirst tlast Hc H1 H2. apply (Hgen j 0%Z); [exact Hc| |].
    + now apply item_minus_one.
    + now apply (item_inside times 0).
Qed.

End HazardFacts.

(** ** The further facts at the reference instances *)

Section FurtherInstances.

Local Open Scope float_scope.

(** X4 at the reference data and samples: two samples of every parameter. *)
Lemma summary_shapes_witness :
  exists v,
    Posterior.summarize Ref.kpdf Ref.kpdfInt Ref.pi_hom Ref.pi_het Ref.confint
      Ref.data Ref.samples = Ok v /\
    length (Posterior.cdf1_samples v) = 3%nat /\
    Np.has_shape (Posterior.pdfU_samples v) 2 (length (Posterior.ts v) - 1).
Proof.
  destruct (Posterior.summarize Ref.kpdf Ref.kpdfInt Ref.pi_hom Ref.pi_het Ref.confint
              Ref.data Ref.samples) as [v|e] eqn:Hv;
    [|vm_compute in Hv; discriminate].
  exists v. split; [reflexivity|].
  destruct (summary_shapes Ref.kpdf Ref.kpdfInt Ref.pi_hom Ref.pi_het Ref.confint
              Ref.data Ref.samples v 2 Hv) as (H1 & _ & _ & _ & H5 & _).
  - intros name Hin. unfold Posterior.read_names in Hin. simpl in Hin.
    repeat (destruct Hin as [<-|Hin]; [reflexivity|]). contradiction.
  - vm_compute in Hv. injection Hv as <-. simpl. lia.
  - split; [exact H1|exact H5].
Defined.


(** X6 at the reference trace: nothing stored, burn-in 0, thinning 1. *)
Lemma calcPosterior_then_reused_witness :
  exists obj fs',
    Posterior.calcPosterior Ref.kpdf Ref.kpdfInt Ref.pi_hom Ref.pi_het Ref.confint
      Ref.data Ref.parameters
      {| Posterior.vals := None; Posterior.param_samples := None |}
      {| Posterior.mcmc_pickle := Some Ref.trace; Posterior.postcalc_pickle := None |}
      0 1 false = Ok (obj, fs') /\
    Posterior.calcPosterior Ref.kpdf Ref.kpdfInt Ref.pi_hom Ref.pi_het Ref.confint
      Ref.data Ref.parameters obj fs' 0 1 false = Ok (obj, fs').
Proof.
  destruct (Posterior.calcPosterior Ref.kpdf Ref.kpdfInt Ref.pi_hom Ref.pi_het
              Ref.confint Ref.data Ref.parameters
              {| Posterior.vals := None; Posterior.param_samples := None |}
              {| Posterior.mcmc_pickle := Some Ref.trace;
                 Posterior.postcalc_pickle := None |}
              0 1 false) as [[obj fs']|e] eqn:H;
    [|vm_compute in H; discriminate].
  exists obj, fs'. split; [reflexivity|].
  destruct (calcPosterior_then_reused Ref.kpdf Ref.kpdfInt Ref.pi_hom Ref.pi_het
              Ref.confint Ref.data Ref.parameters
              {| Posterior.vals := None; Posterior.param_samples := None |}
              {| Posterior.mcmc_pickle := Some Ref.trace;
                 Posterior.postcalc_pickle := None |}
              0 1 false obj fs' (or_intror eq_refl) H)
    as (_ & _ & Hagain).
  apply Hagain.
Defined.

(** X9 at the reference probabilities, with a first interval in which nobody
    can die. *)
Lemma likelihood_deaths_at_most_zero_witness :
  Likelihood.likelihood_deaths Ref.log [0; 1]%nat 20 10 [0; 0.2; 0.3] [0; 0.02; 0.03]
  = Ok neg_infinity.
Proof.
  destruct (likelihood_deaths_at_most_zero Ref.log [0; 1]%nat 20 10
              [0; 0.2; 0.3] [0; 0.02; 0.03] ref_log_of_zero ref_log_of_probability)
    as (r & Hr & _ & Hinf).
  - repeat constructor; simpl; lia.
  - repeat constructor.
  - rewrite Hr. f_equal. apply Hinf. apply Exists_cons_hd. reflexivity.
Defined.

(** X10 at the reference data. *)
Lemma liks_no_duplicates_witness :
  exists est hom,
    Model.timeEst_liks Ref.data = Ok est /\ Model.timeTestHom_liks Ref.data = Ok hom /\
    NoDup est /\ NoDup hom.
Proof.
  eexists. eexists. split; [reflexivity|]. split; [reflexivity|].
  apply (liks_no_duplicates Ref.data _ _ ref_data_well_formed); reflexivity.
Defined.

(** X11 at the reference data: the survivor term of group 2 at dose index 2. *)
Lemma liks_only_positive_doses_witness :
  exists l i dose,
    In l Model.timeEst_families /\ Model.doses Ref.data !! i = Some dose /\
    (0 <? dose) = true /\
    (Model.LS Model.Ig2d 2 = Model.LD l i \/
     (Model.LS Model.Ig2d 2 = Model.LS l i /\
      exists s, Model.survivors Ref.data (Model.group_of l) !! i = Some s /\ (0 < s)%Z)).
Proof.
  destruct (Model.timeEst_liks Ref.data) as [est|] eqn:Hest;
    [|vm_compute in Hest; discriminate].
  destruct (Model.timeTestHom_liks Ref.data) as [hom|] eqn:Hhom;
    [|vm_compute in Hhom; discriminate].
  apply (proj1 (liks_only_positive_doses Ref.data est hom ref_data_well_formed
                  Hest Hhom (Model.LS Model.Ig2d 2))).
  vm_compute in Hest. injection Hest as <-. simpl. auto 10.
Defined.

(** X12 at the reference data, with the same parameters for infected and
    uninfected hosts. *)
Lemma potIdeaths_edges_witness :
  Model.potIdeaths Ref.cdf Ref.data 2 15 2 15 = Ok 0.
Proof.
  apply (potIdeaths_edges Ref.cdf Ref.data 10 2 15 2 15); reflexivity.
Defined.

(** X13 at the reference data, from two prior parameters. *)
Lemma recorded_latent_names_witness :
  exists ext,
    Parameters.timeEst ["p"; "eps"]%string Ref.data = ["p"; "eps"]%string ++ ext /\
    NoDup ext.
Proof.
  destruct (Model.timeEst_liks Ref.data) as [est|] eqn:Hest;
    [|vm_compute in Hest; discriminate].
  destruct (Model.timeTestHom_liks Ref.data) as [hom|] eqn:Hhom;
    [|vm_compute in Hhom; discriminate].
  destruct (recorded_latent_names Ref.data ["p"; "eps"]%string est hom
              ref_data_well_formed Hest Hhom) as [(ext & Hext & Hnd & _) _].
  exists ext. split; assumption.
Defined.

(** X14 at the reference data and the samples of timeTestHom.py: dose index
    1 is the dose 10; the first sample at the sixth grid point. *)
Lemma testhom_group2_curves_witness :
  exists v c2hom c2het,
    TestHom.summarize Ref.kpdf Ref.kpdfInt Ref.pi_hom Ref.pi_het Ref.confint
      Ref.data Ref.hom_samples = Ok v /\
    Posterior.time_grid Ref.data = Ok (TestHom.ts v) /\
    TestHom.cdf2hom_samples v !! 1%nat = Some c2hom /\
    TestHom.cdf2het_samples v !! 1%nat = Some c2het /\
    Np.entry c2hom 0 5
    = Some (1 - Ref.pi_hom 10 0.03 0.1
                * Ref.kpdfInt 0 (F64.of_nat 5 * 0.2) 2 (5 / 2) 0.001
            - (1 - Ref.pi_hom 10 0.03 0.1)
              * Ref.kpdfInt 0 (F64.of_nat 5 * 0.2) 2 (30 / 2) 0.001) /\
    Np.entry c2het 0 5
    = Some (1 - Ref.pi_het 10 0.04 1 3 0.1
                * Ref.kpdfInt 0 (F64.of_nat 5 * 0.2) 2 (5 / 2) 0.001
            - (1 - Ref.pi_het 10 0.04 1 3 0.1)
              * Ref.kpdfInt 0 (F64.of_nat 5 * 0.2) 2 (30 / 2) 0.001).
Proof.
  destruct (TestHom.summarize Ref.kpdf Ref.kpdfInt Ref.pi_hom Ref.pi_het Ref.confint
              Ref.data Ref.hom_samples) as [v|e] eqn:Hv;
    [|vm_compute in Hv; discriminate].
  destruct (testhom_group2_curves Ref.kpdf Ref.kpdfInt Ref.pi_hom Ref.pi_het
              Ref.confint Ref.data Ref.hom_samples v 2 Hv)
    as ((Hg & _) & Hcurves).
  { intros name Hin. unfold TestHom.read_names in Hin. simpl in Hin.
    repeat (destruct Hin as [<-|Hin]; [reflexivity|]). contradiction. }
  destruct (Hcurves 1%nat) as (dose & c2hom & c2het & Hdose & H1 & H2 & Hentries).
  { simpl. lia. }
  assert (dose = 10) by (simpl in Hdose; congruence). subst dose.
  assert (Hx : TestHom.ts v !! 5%nat = Some (F64.of_nat 5 * 0.2)).
  { destruct (Posterior.time_grid Ref.data) as [g0|] eqn:Eg; [|discriminate].
    injection Hg as <-. vm_compute in Eg. injection Eg as <-. reflexivity. }
  destruct (Hentries 0%nat 5%nat _ 30 2 5 2 0.001 0.03 0.04 0.1 1 3 Hx
              eq_refl eq_refl eq_refl eq_refl eq_refl eq_refl eq_refl eq_refl eq_refl
              eq_refl) as [E1 E2].
  exists v, c2hom, c2het. split; [reflexivity|]. split; [exact Hg|].
  split; [exact H1|]. split; [exact H2|]. split; [exact E1|exact E2].
Defined.

(** X15 at the two reference sample sets, which differ in the four group-2
    parameters. *)
Lemma testhom_curves_ignore_group2_witness :
  exists v v',
    TestHom.summarize Ref.kpdf Ref.kpdfInt Ref.pi_hom Ref.pi_het Ref.confint
      Ref.data Ref.hom_samples = Ok v /\
    TestHom.summarize Ref.kpdf Ref.kpdfInt Ref.pi_hom Ref.pi_het Ref.confint
      Ref.data Ref.hom_samples' = Ok v' /\
    TestHom.cdf2hom_samples v' = TestHom.cdf2hom_samples v /\
    TestHom.cdf2het_samples v' = TestHom.cdf2het_samples v.
Proof.
  destruct (TestHom.summarize Ref.kpdf Ref.kpdfInt Ref.pi_hom Ref.pi_het Ref.confint
              Ref.data Ref.hom_samples) as [v|e] eqn:Hv;
    [|vm_compute in Hv; discriminate].
  destruct (TestHom.summarize Ref.kpdf Ref.kpdfInt Ref.pi_hom Ref.pi_het Ref.confint
              Ref.data Ref.hom_samples') as [v'|e] eqn:Hv';
    [|vm_compute in Hv'; discriminate].
  destruct (testhom_curves_ignore_group2 Ref.kpdf Ref.kpdfInt Ref.pi_hom Ref.pi_het
              Ref.confint Ref.data Ref.hom_samples Ref.hom_samples' v v' Hv Hv')
    as (_ & _ & H3 & H4 & _).
  - intros name Hn. unfold Ref.hom_samples'.
    rewrite !lookup_insert_ne; [reflexivity| | | |]; intros <-; apply Hn; simpl; auto.
  - exists v, v'. repeat split; assumption.
Defined.

(** X16 at the reference object, with nothing drawn in between. *)
Lemma setgroup_2_after_1_witness :
  exists s1 s2,
    TestHom.setgroup Ref.hom_object 1 = TestHom.Done s1 /\
    TestHom.setgroup s1 2 = TestHom.Done s2 /\
    s2 !! "a2s"%string = Some (TestHom.Val 11%nat) /\
    Ref.hom_object !! "a2s"%string = Some (TestHom.Val 21%nat).
Proof.
  destruct (TestHom.setgroup Ref.hom_object 1) as [s1|e] eqn:H1;
    [|vm_compute in H1; discriminate].
  destruct (TestHom.setgroup s1 2) as [s2|e] eqn:H2.
  2: { vm_compute in H1. injection H1 as <-. vm_compute in H2. discriminate. }
  exists s1, s2. split; [reflexivity|]. split; [exact H2|].
  destruct (setgroup_2_after_1 Ref.hom_object s1 s1 s2 H1 eq_refl eq_refl H2)
    as (Ha & _).
  split; [rewrite Ha|]; reflexivity.
Defined.

(** X17 at the reference object, with a superclass plot that draws
    nothing. *)
Lemma plot_groups_reset_witness :
  exists res self',
    TestHom.plotBeta Ref.no_plot Ref.hom_object = TestHom.Done (res, self') /\
    self' !! "a2s"%string = Some TestHom.PyNone.
Proof.
  destruct (TestHom.plotBeta Ref.no_plot Ref.hom_object) as [[res self']|e] eqn:H;
    [|vm_compute in H; discriminate].
  exists res, self'. split; [reflexivity|].
  apply (plot_groups_reset Ref.no_plot "-Beta1" "-Beta2" Ref.hom_object self' res H).
  simpl. auto.
Defined.

(** X21 at the reference trace: after the first call the plots draw. *)
Lemma plots_after_calcPosterior_witness :
  exists obj fs',
    Posterior.calcPosterior Ref.kpdf Ref.kpdfInt Ref.pi_hom Ref.pi_het Ref.confint
      Ref.data Ref.parameters
      {| Posterior.vals := None; Posterior.param_samples := None |}
      {| Posterior.mcmc_pickle := Some Ref.trace; Posterior.postcalc_pickle := None |}
      0 1 false = Ok (obj, fs') /\
    Posterior.guarded_plot (fun _ => tt) obj = Some tt.
Proof.
  destruct (Posterior.calcPosterior Ref.kpdf Ref.kpdfInt Ref.pi_hom Ref.pi_het
              Ref.confint Ref.data Ref.parameters
              {| Posterior.vals := None; Posterior.param_samples := None |}
              {| Posterior.mcmc_pickle := Some Ref.trace;
                 Posterior.postcalc_pickle := None |}
              0 1 false) as [[obj fs']|e] eqn:H;
    [|vm_compute in H; discriminate].
  exists obj, fs'. split; [reflexivity|].
  exact (proj1 (plots_after_calcPosterior Ref.kpdf Ref.kpdfInt Ref.pi_hom Ref.pi_het
                  Ref.confint (fun _ => tt) Ref.data Ref.parameters
                  {| Posterior.vals := None; Posterior.param_samples := None |}
                  {| Posterior.mcmc_pickle := Some Ref.trace;
                     Posterior.postcalc_pickle := None |}
                  0 1 false obj fs' H)
           (or_intror eq_refl)).
Defined.

(** X22 at the reference data, under a draw for which no death is
    possible. *)
Lemma joint_logp_impossible_observation_witness :
  Model.joint_logp Ref.log Ref.power Ref.cdf Ref.data Ref.no_death_state
    [Model.LD Model.Ig1d 1; Model.LS Model.Ig1d 1] = Ok neg_infinity.
Proof.
  apply (joint_logp_impossible_observation Ref.log Ref.power Ref.cdf Ref.data
           Ref.no_death_state [Model.LD Model.Ig1d 1; Model.LS Model.Ig1d 1]
           [neg_infinity; 0] 10).
  - reflexivity.
  - repeat constructor.
  - now left.
  - reflexivity.
Defined.

(** X23 at the reference times, with the changing times 1 and 0. *)
Lemma probd_intervals_witness :
  exists ps,
    Hazard.probd Ref.kpdfInt (Model.times Ref.data) [1; 0]%Z 2 15 0.001 = Ok ps /\
    length ps = 2%nat /\
    ps !! 1%nat = Some (Ref.kpdfInt 10 0 2 15 0.001).
Proof.
  destruct (Hazard.probd Ref.kpdfInt (Model.times Ref.data) [1; 0]%Z 2 15 0.001)
    as [ps|e] eqn:H; [|vm_compute in H; discriminate].
  destruct (probd_intervals Ref.kpdfInt _ _ _ _ _ ps H) as (Hlen & _ & Hzero).
  exists ps. split; [reflexivity|]. split; [exact Hlen|].
  apply Hzero; reflexivity.
Defined.

End FurtherInstances.
